(** * fpb: a progress-bar wrapper around ffmpeg

    A shallow embedding of the Go program (the line accumulator, the fact
    extractor, the progress model, the renderer, the prompt forwarder and
    the process supervisor) together with the properties its specification
    states about it.  The program exists in two variants: the one with the
    stderr buffer and the prompt forwarder is embedded in full; of the
    earlier one, [fpb.go], which has neither, the two functions that
    differ are embedded in [Module Legacy].

    Conventions.
    - A Go [string] is a sequence of bytes: [str := list ascii].
    - A Go [int] is 64 bits wide on every platform the program is built
      for; it is modelled by [Z], and the arithmetic that could leave the
      64-bit range wraps around ([wrap64]).
    - A Go [float64] is a primitive binary64 float.
    - [time.Time] and [time.Duration] are integers counting nanoseconds.
    - Writing to a stream, reading the clock, asking for the terminal size
      and starting a goroutine are effects on a [World], threaded through a
      small state monad. *)

From Stdlib Require Import ZArith NArith Lia Bool Ascii String Decimal List.
From Stdlib Require Import Floats.PrimFloat Floats.SpecFloat Floats.FloatOps.
From Stdlib Require Import Floats.FloatAxioms.
Import ListNotations.
Open Scope Z_scope.

(* ================================================================== *)
(** * Bytes and strings *)
(* ================================================================== *)

Definition str := list ascii.

(** A string literal, as the list of its bytes. *)
Definition B (s : string) : str := list_ascii_of_string s.
Arguments B s%_string.

Definition byte_code (c : ascii) : Z := Z.of_N (N_of_ascii c).

Definition LF : ascii := "010"%char.
Definition CR : ascii := "013"%char.
Definition ESC : ascii := "027"%char.

Definition str_eqb (a b : str) : bool :=
  if list_eq_dec ascii_dec a b then true else false.

(** [len(s)] *)
Definition len (s : str) : Z := Z.of_nat (length s).

(** [strings.HasPrefix] and [strings.HasSuffix] *)
Fixpoint HasPrefix (s p : str) : bool :=
  match p, s with
  | [], _ => true
  | c :: p', x :: s' => Ascii.eqb x c && HasPrefix s' p'
  | _ :: _, [] => false
  end.

Definition HasSuffix (s suffix : str) : bool :=
  HasPrefix (rev s) (rev suffix).

(** [s[i:j]] for [0 <= i <= j <= len(s)] *)
Definition slice (s : str) (i j : nat) : str := firstn (j - i) (skipn i s).

(* ------------------------------------------------------------------ *)
(** ** Decimal integers: [%d], [%02d], [strconv.Atoi] *)

Definition is_digit (c : ascii) : bool :=
  (48 <=? byte_code c) && (byte_code c <=? 57).

Fixpoint uint_chars (u : Decimal.uint) : str :=
  match u with
  | Nil => []
  | D0 u => "0"%char :: uint_chars u
  | D1 u => "1"%char :: uint_chars u
  | D2 u => "2"%char :: uint_chars u
  | D3 u => "3"%char :: uint_chars u
  | D4 u => "4"%char :: uint_chars u
  | D5 u => "5"%char :: uint_chars u
  | D6 u => "6"%char :: uint_chars u
  | D7 u => "7"%char :: uint_chars u
  | D8 u => "8"%char :: uint_chars u
  | D9 u => "9"%char :: uint_chars u
  end.

(** The decimal digits of a natural number, most significant first. *)
Definition digits_of (n : Z) : str := uint_chars (N.to_uint (Z.to_N n)).

(** Left padding with zeros up to [w] digits. *)
Definition zero_pad (w : nat) (s : str) : str :=
  repeat "0"%char (w - length s) ++ s.

(** [%d] *)
Definition fmt_d (n : Z) : str :=
  if n <? 0 then "-"%char :: digits_of (- n) else digits_of n.

(** [%02d]: the width counts the sign, the zeros go after it. *)
Definition fmt_02d (n : Z) : str :=
  if n <? 0 then "-"%char :: zero_pad 1 (digits_of (- n))
  else zero_pad 2 (digits_of n).

Definition digit_val (c : ascii) : Z := byte_code c - 48.

Fixpoint atoi_digits (acc : Z) (s : str) : option Z :=
  match s with
  | [] => Some acc
  | c :: s' => if is_digit c then atoi_digits (acc * 10 + digit_val c) s' else None
  end.

(** Two's complement wrap-around of 64-bit arithmetic. *)
Definition wrap64 (z : Z) : Z := (z + 2 ^ 63) mod 2 ^ 64 - 2 ^ 63.

(** The value [strconv.Atoi] returns (its error is dropped by the only
    caller): 0 on a syntax error, the nearest 64-bit integer when the
    number does not fit. *)
Definition Atoi (s : str) : Z :=
  let '(neg, ds) :=
    match s with
    | "+"%char :: t => (false, t)
    | "-"%char :: t => (true, t)
    | _ => (false, s)
    end in
  match ds with
  | [] => 0
  | _ =>
    match atoi_digits 0 ds with
    | None => 0
    | Some v =>
      if neg then (if 2 ^ 63 <? v then - 2 ^ 63 else - v)
      else (if 2 ^ 63 <=? v then 2 ^ 63 - 1 else v)
    end
  end.

(* ------------------------------------------------------------------ *)
(** ** UTF-8: the width of the rune that starts a string
    ([utf8.DecodeRuneInString]); an invalid or truncated encoding is one
    rune of width 1. *)

Definition in_range (lo hi : Z) (c : ascii) : bool :=
  (lo <=? byte_code c) && (byte_code c <=? hi).

Definition is_cont (c : ascii) : bool := in_range 128 191 c.

Definition rune_width (s : str) : nat :=
  match s with
  | [] => 0%nat
  | s0 :: t =>
    let b := byte_code s0 in
    if b <? 128 then 1%nat
    else if in_range 194 223 s0 then
      match t with
      | s1 :: _ => if is_cont s1 then 2%nat else 1%nat
      | _ => 1%nat
      end
    else if in_range 224 239 s0 then
      let lo := if b =? 224 then 160 else 128 in
      let hi := if b =? 237 then 159 else 191 in
      match t with
      | s1 :: s2 :: _ => if in_range lo hi s1 && is_cont s2 then 3%nat else 1%nat
      | _ => 1%nat
      end
    else if in_range 240 244 s0 then
      let lo := if b =? 240 then 144 else 128 in
      let hi := if b =? 244 then 143 else 191 in
      match t with
      | s1 :: s2 :: s3 :: _ =>
        if in_range lo hi s1 && is_cont s2 && is_cont s3 then 4%nat else 1%nat
      | _ => 1%nat
      end
    else 1%nat
  end.

(* ================================================================== *)
(** * Regular expressions ([regexp])

    The six patterns of the program, as syntax trees, and a backtracking
    matcher.  Go's [regexp] returns the leftmost match and, among the
    matches that start there, the one a backtracking search finds first;
    that is the search below.

    A character class holds ASCII characters only in every pattern but
    one, [[^\x00-\x7F]], which is matched rune by rune ([RNonASCII]).  The
    dot stands for any character but a line feed; its only use is a
    greedy dot-star group between two ASCII literals (a quote before, a
    quote and a colon after), so matching it byte by byte delimits the
    same text as matching it rune by rune. *)
(* ================================================================== *)

Inductive regex : Type :=
| REmpty
| RChar (c : ascii)
| RClass (p : ascii -> bool)
| RNonASCII
| RCat (r1 r2 : regex)
| RAlt (r1 r2 : regex)
| RStar (p : ascii -> bool)        (* a greedy star over a class *)
| RGroup (i : nat) (r : regex).    (* the i-th capturing group *)

(** Capture registers: group number, start offset, end offset. *)
Definition caps := list (nat * (nat * nat)).

Section Matcher.
Context {A : Type}.

(** The continuation receives the offset reached, the rest of the
    input and the captures. *)
Definition cont := nat -> str -> caps -> option A.

Fixpoint star (p : ascii -> bool) (pos : nat) (s : str) (cs : caps)
         (k : cont) : option A :=
  match s with
  | c :: s' =>
    if p c then
      match star p (S pos) s' cs k with
      | Some a => Some a
      | None => k pos s cs
      end
    else k pos s cs
  | [] => k pos s cs
  end.

Fixpoint rmatch (r : regex) (pos : nat) (s : str) (cs : caps)
         (k : cont) : option A :=
  match r with
  | REmpty => k pos s cs
  | RChar c =>
    match s with
    | x :: s' => if Ascii.eqb x c then k (S pos) s' cs else None
    | [] => None
    end
  | RClass p =>
    match s with
    | x :: s' => if p x then k (S pos) s' cs else None
    | [] => None
    end
  | RNonASCII =>
    match s with
    | x :: _ =>
      if 128 <=? byte_code x
      then k (pos + rune_width s)%nat (skipn (rune_width s) s) cs
      else None
    | [] => None
    end
  | RCat r1 r2 =>
    rmatch r1 pos s cs (fun pos' s' cs' => rmatch r2 pos' s' cs' k)
  | RAlt r1 r2 =>
    match rmatch r1 pos s cs k with
    | Some a => Some a
    | None => rmatch r2 pos s cs k
    end
  | RStar p => star p pos s cs k
  | RGroup i r =>
    rmatch r pos s cs (fun pos' s' cs' => k pos' s' ((i, (pos, pos')) :: cs'))
  end.
End Matcher.

(** A literal string. *)
Fixpoint RLit (s : str) : regex :=
  match s with
  | [] => REmpty
  | c :: s' => RCat (RChar c) (RLit s')
  end.

Definition RSeq (rs : list regex) : regex := fold_right RCat REmpty rs.

(** [\d] and [\d{2}] *)
Definition Rd : regex := RClass is_digit.
Definition Rd2 : regex := RCat Rd Rd.

(** [.] *)
Definition is_not_LF (c : ascii) : bool := negb (Ascii.eqb c LF).

(** A match anchored at offset [pos] of the subject: the end offset and
    the captures. *)
Definition match_at (r : regex) (pos : nat) (s : str) : option (nat * caps) :=
  rmatch r pos s [] (fun e _ cs => Some (e, cs)).

Fixpoint cap_lookup (i : nat) (cs : caps) : option (nat * nat) :=
  match cs with
  | [] => None
  | (j, se) :: cs' => if Nat.eqb i j then Some se else cap_lookup i cs'
  end.

(** The text of group [i]; a group that took no part in the match is the
    empty string. *)
Definition group_text (full : str) (cs : caps) (i : nat) : str :=
  match cap_lookup i cs with
  | Some (b, e) => slice full b e
  | None => []
  end.

Fixpoint find_from (r : regex) (ngroups : nat) (full : str)
         (pos : nat) (s : str) : option (list str) :=
  match match_at r pos s with
  | Some (e, cs) =>
    Some (slice full pos e :: map (group_text full cs) (seq 1 ngroups))
  | None =>
    match s with
    | [] => None
    | _ :: s' => find_from r ngroups full (S pos) s'
    end
  end.

(** [re.FindStringSubmatch(s)] for a pattern with [ngroups] groups:
    [None] is the nil slice, [Some m] has [1 + ngroups] elements. *)
Definition FindStringSubmatch (r : regex) (ngroups : nat) (s : str)
  : option (list str) :=
  find_from r ngroups s 0 s.

(** The length of the match that starts at the head of [s]. *)
Definition match_len (r : regex) (s : str) : option nat :=
  rmatch r 0 s [] (fun e _ _ => Some e).

(** [re.ReplaceAllString(s, repl)] for a replacement without [$]: the
    matches are taken from left to right and do not overlap.  [skip]
    counts the bytes of the current match still to be dropped.  (None of
    the patterns matches the empty string; for one that did, the
    replacement goes in front of the byte and the byte is kept.) *)
Fixpoint replace_from (r : regex) (repl : str) (skip : nat) (s : str) : str :=
  match s with
  | [] => []
  | c :: s' =>
    match skip with
    | S n => replace_from r repl n s'
    | O =>
      match match_len r s with
      | Some (S n) => repl ++ replace_from r repl n s'
      | Some O => repl ++ c :: replace_from r repl 0 s'
      | None => c :: replace_from r repl 0 s'
      end
    end
  end.

Definition ReplaceAllString (r : regex) (s repl : str) : str :=
  replace_from r repl 0 s.

(** The patterns. *)

(** [Duration: (\d{2}):(\d{2}):(\d{2})\.\d{2}] *)
Definition durationRx : regex :=
  RSeq [RLit (B "Duration: "); RGroup 1 Rd2; RChar ":"; RGroup 2 Rd2;
        RChar ":"; RGroup 3 Rd2; RChar "."; Rd2].

(** [time=(\d{2}):(\d{2}):(\d{2})\.\d{2}] *)
Definition progressRx : regex :=
  RSeq [RLit (B "time="); RGroup 1 Rd2; RChar ":"; RGroup 2 Rd2;
        RChar ":"; RGroup 3 Rd2; RChar "."; Rd2].

(** [from 'G':] where the group [G] is a greedy dot-star *)
Definition sourceRx : regex :=
  RSeq [RLit (B "from '"); RGroup 1 (RStar is_not_LF); RLit (B "':")].

(** [(\d{2}\.\d{2}|\d{2}) fps] *)
Definition fpsRx : regex :=
  RSeq [RGroup 1 (RAlt (RSeq [Rd2; RChar "."; Rd2]) Rd2); RLit (B " fps")].

(** [\x1b\[P*F] with [P = [0-9;]] and [F = [mGKHfABCDEFGJSTuhlp]] *)
Definition is_param (c : ascii) : bool := is_digit c || Ascii.eqb c ";".

Definition is_final (c : ascii) : bool :=
  if in_dec ascii_dec c (B "mGKHfABCDEFGJSTuhlp") then true else false.

Definition ansiRe : regex :=
  RSeq [RChar ESC; RChar "["; RStar is_param; RClass is_final].

(** [[^\x00-\x7F]] *)
Definition unicodeRe : regex := RNonASCII.

(* ================================================================== *)
(** * Floating point ([float64]) *)
(* ================================================================== *)

Open Scope float_scope.

(** [float64(n)]: the integer rounded to the nearest binary64 number. *)
Definition float_of_int (n : Z) : float :=
  SF2Prim (binary_normalize FloatOps.prec emax n 0%Z false).

(** The integer part of a finite number, rounded toward zero. *)
Definition trunc_float (f : float) : option Z :=
  match Prim2SF f with
  | S754_zero _ => Some 0%Z
  | S754_finite s m e =>
    let a := (if 0 <=? e then Zpos m * 2 ^ e else Zpos m / 2 ^ (- e))%Z in
    Some (if s then (- a)%Z else a)
  | S754_infinity _ | S754_nan => None
  end.

Definition in_int64 (z : Z) : bool :=
  ((- 2 ^ 63 <=? z) && (z <? 2 ^ 63))%Z.

(** [int(f)]: truncation toward zero.  The language leaves the result
    open when the value does not fit (or is not a number); [invalid] is
    what the target machine then yields. *)
Definition int_of_float (invalid : float -> Z) (f : float) : Z :=
  match trunc_float f with
  | Some z => if in_int64 z then z else invalid f
  | None => invalid f
  end.

(** [a / b] rounded to the nearest integer, ties to even ([0 < b]). *)
Definition round_half_even (a b : Z) : Z :=
  let q := (a / b)%Z in
  let r := (a mod b)%Z in
  if (2 * r <? b)%Z then q
  else if (b <? 2 * r)%Z then (q + 1)%Z
  else if Z.even q then q else (q + 1)%Z.

(** The digits of [n / 10^prec] with [prec] decimals. *)
Definition fixed_point (prec : nat) (n : Z) : str :=
  let ds := zero_pad (S prec) (digits_of n) in
  let k := (length ds - prec)%nat in
  match prec with
  | O => ds
  | _ => firstn k ds ++ "."%char :: skipn k ds
  end.

(** [%.<prec>f]: the exact decimal expansion of the number, rounded to
    [prec] decimals, ties to even. *)
Definition fmt_f (prec : nat) (f : float) : str :=
  match Prim2SF f with
  | S754_nan => B "NaN"
  | S754_infinity s => if s then B "-Inf" else B "+Inf"
  | S754_zero s => (if s then B "-" else []) ++ fixed_point prec 0
  | S754_finite s m e =>
    let scaled := (Zpos m * 10 ^ Z.of_nat prec)%Z in
    let n := (if 0 <=? e then scaled * 2 ^ e
              else round_half_even scaled (2 ^ (- e)))%Z in
    (if s then B "-" else []) ++ fixed_point prec n
  end.

(** The digits before the first dot, and what follows it. *)
Fixpoint split_dot (s : str) : str * option str :=
  match s with
  | [] => ([], None)
  | c :: s' =>
    if Ascii.eqb c "." then ([], Some s')
    else let '(a, b) := split_dot s' in (c :: a, b)
  end.

(** [strconv.ParseFloat(s, 64)] on a plain numeral, digits with an
    optional fraction, of at most 15 digits: the digits as an integer,
    divided by the power of ten, both binary64 (the quotient of two
    exactly represented numbers is the correctly rounded value).  [None]
    is the syntax error, and any numeral outside this form, which the
    frame-rate pattern never captures. *)
Definition ParseFloat (s : str) : option float :=
  let '(int_part, frac) := split_dot s in
  let frac_part := match frac with Some fr => fr | None => [] end in
  let ds := int_part ++ frac_part in
  match ds with
  | [] => None
  | _ =>
    if (15 <? length ds)%nat then None
    else
      match atoi_digits 0 ds with
      | Some mant =>
        Some (float_of_int mant / float_of_int (10 ^ Z.of_nat (length frac_part)))
      | None => None
      end
  end.

(* ================================================================== *)
(** * Time ([time.Time], [time.Duration]) *)
(* ================================================================== *)

Close Scope float_scope.

(** A time is a number of nanoseconds since the zero [time.Time], which
    is 0; a duration is a number of nanoseconds. *)
Definition Time := Z.
Definition Duration := Z.

Definition Millisecond : Duration := 1000000.
Definition Second : Duration := 1000000000.
Definition maxDuration : Duration := 2 ^ 63 - 1.
Definition minDuration : Duration := - 2 ^ 63.

(** [t.Sub(u)]: the difference, saturated to the range of a duration. *)
Definition Sub (t u : Time) : Duration :=
  Z.max minDuration (Z.min maxDuration (t - u)).

(** [d.Seconds()] *)
Definition Seconds (d : Duration) : float :=
  (float_of_int (Z.quot d Second)
   + float_of_int (Z.rem d Second) / float_of_int 1000000000)%float.

(* ================================================================== *)
(** * The world outside the program *)
(* ================================================================== *)

(** What the environment answers: the successive readings of the clock,
    the successive answers of the terminal to a size query, and the
    machine's result for a float-to-int conversion that does not fit. *)
Record Env : Type := {
  clock : nat -> Time;
  termGetSize : nat -> option (Z * Z);
  convInvalid : float -> Z
}.

(** What the program has done to it so far: the payloads written to the
    program's diagnostic stream ([os.Stderr], the [file] of the notifier
    and of the bar), one element per write; how many times the clock and
    the terminal were asked; how many [forwardUserInput] goroutines were
    started. *)
Record World : Type := {
  stderr : list str;
  ticks : nat;
  sizeQueries : nat;
  forwards : nat
}.

Definition M (A : Type) : Type := World -> A * World.

Definition ret {A} (a : A) : M A := fun w => (a, w).

Definition bind {A C} (m : M A) (k : A -> M C) : M C :=
  fun w => let '(a, w') := m w in k a w'.

Declare Scope monad_scope.
Delimit Scope monad_scope with monad.
Notation "x <- m ;; k" := (bind m (fun x => k))
  (at level 61, m at next level, right associativity) : monad_scope.
Notation "m ;; k" := (bind m (fun _ => k))
  (at level 61, right associativity) : monad_scope.
Open Scope monad_scope.

(** [fmt.Fprint(os.Stderr, s)] *)
Definition Fprint (s : str) : M unit :=
  fun w => (tt, {| stderr := stderr w ++ [s]; ticks := ticks w;
                   sizeQueries := sizeQueries w; forwards := forwards w |}).

(** [time.Now()] *)
Definition Now (env : Env) : M Time :=
  fun w => (clock env (ticks w),
            {| stderr := stderr w; ticks := S (ticks w);
               sizeQueries := sizeQueries w; forwards := forwards w |}).

(** [time.Since(t)] is [time.Now().Sub(t)] *)
Definition Since (env : Env) (t : Time) : M Duration :=
  now <- Now env ;; ret (Sub now t).

(** [term.GetSize(int(os.Stdout.Fd()))]; [None] is the error. *)
Definition GetSize (env : Env) : M (option (Z * Z)) :=
  fun w => (termGetSize env (sizeQueries w),
            {| stderr := stderr w; ticks := ticks w;
               sizeQueries := S (sizeQueries w); forwards := forwards w |}).

(** [go cpn.forwardUserInput()] *)
Definition go_forwardUserInput : M unit :=
  fun w => (tt, {| stderr := stderr w; ticks := ticks w;
                   sizeQueries := sizeQueries w; forwards := S (forwards w) |}).

Definition getTerminalSize (env : Env) : M (Z * Z) :=
  r <- GetSize env ;;
  match r with
  | None => ret (80, 24)
  | Some wh => ret wh
  end.

(** Everything written so far, as one sequence of bytes. *)
Definition written (w : World) : str := concat (stderr w).

(* ================================================================== *)
(** * Colors *)
(* ================================================================== *)

Record Colors : Type := {
  Reset : str;
  Bold : str;
  Red : str;
  Green : str;
  Yellow : str;
  Blue : str;
  BrightRed : str;
  BrightYellow : str
}.

Definition NewColors : Colors := {|
  Reset := ESC :: B "[0m";
  Bold := ESC :: B "[1m";
  Red := ESC :: B "[31m";
  Green := ESC :: B "[32m";
  Yellow := ESC :: B "[33m";
  Blue := ESC :: B "[34m";
  BrightRed := ESC :: B "[91m";
  BrightYellow := ESC :: B "[93m"
|}.

(* ================================================================== *)
(** * The progress bar (the renderer) *)
(* ================================================================== *)

Record ProgressBar : Type := {
  total : Z;
  current : Z;
  desc : str;
  unit_ : str;
  startTime : Time;
  colors : option Colors;
  useColors : bool;
  lastUpdate : Time;
  updateDelay : Duration
}.

Definition set_current (c : Z) (pb : ProgressBar) : ProgressBar :=
  {| total := total pb; current := c; desc := desc pb; unit_ := unit_ pb;
     startTime := startTime pb; colors := colors pb;
     useColors := useColors pb; lastUpdate := lastUpdate pb;
     updateDelay := updateDelay pb |}.

Definition set_lastUpdate (t : Time) (pb : ProgressBar) : ProgressBar :=
  {| total := total pb; current := current pb; desc := desc pb;
     unit_ := unit_ pb; startTime := startTime pb; colors := colors pb;
     useColors := useColors pb; lastUpdate := t;
     updateDelay := updateDelay pb |}.

Definition NewProgressBar (env : Env) (desc : str) (total : Z) (unit : str)
           (useColors : bool) : M ProgressBar :=
  now <- Now env ;;
  ret {| total := total; current := 0; desc := desc; unit_ := unit;
         startTime := now;
         colors := if useColors then Some NewColors else None;
         useColors := useColors;
         lastUpdate := 0;
         updateDelay := 50 * Millisecond |}.

(** The glyphs: U+2022, U+2501 and U+2578 in UTF-8. *)
Definition bullet : str := B "•".
Definition heavy_bar : str := B "━".
Definition half_bar : str := B "╸".

Definition stripANSI (s : str) : str :=
  let stripped := ReplaceAllString ansiRe s [] in
  ReplaceAllString unicodeRe stripped (B " ").

Definition handleFilename (filename : str) : str :=
  if 30 <? len filename then firstn 27 filename ++ B "..." else filename.

Definition formatDurationSimple (env : Env) (d : Duration) : str :=
  if d <? 0 then B "00:00"
  else
    let totalSeconds := int_of_float (convInvalid env) (Seconds d) in
    let minutes := Z.quot totalSeconds 60 in
    let seconds := Z.rem totalSeconds 60 in
    fmt_02d minutes ++ B ":" ++ fmt_02d seconds.

(** The loop of [buildRichBar] and [buildSimpleBar]: one cell for each
    [i] from 0 to [total - 1]. *)
Definition bar_cells (done edge rest : str) (filled total : Z) : str :=
  concat (map (fun i : nat =>
                 let i := Z.of_nat i in
                 if i <? filled then done
                 else if (i =? filled) && (filled <? total) then edge
                 else rest)
              (seq 0 (Z.to_nat total))).

Definition buildRichBar (c : Colors) (filled total : Z) : str :=
  if total <=? 0 then []
  else bar_cells (Green c ++ heavy_bar ++ Reset c)
                 (Green c ++ half_bar ++ Reset c)
                 heavy_bar filled total.

Definition buildSimpleBar (filled total : Z) : str :=
  if total <=? 0 then []
  else bar_cells heavy_bar half_bar heavy_bar filled total.

(** The locals of [render], as functions of the bar and of the time
    elapsed since its start. *)
Definition percentage_of (pb : ProgressBar) : float :=
  if total pb =? 0 then 0%float
  else (float_of_int (current pb) / float_of_int (total pb) * 100)%float.

Definition remaining_of (env : Env) (pb : ProgressBar) (elapsed : Duration)
  : Duration :=
  if (0 <? current pb) && (0 <? total pb) then
    int_of_float (convInvalid env)
      (float_of_int elapsed
       * (float_of_int (total pb) - float_of_int (current pb))
       / float_of_int (current pb))%float
  else 0.

Definition rate_of (pb : ProgressBar) (elapsed : Duration) : float :=
  (float_of_int (current pb) / Seconds elapsed)%float.

Definition rightInfo_of (env : Env) (pb : ProgressBar) (elapsed : Duration)
  : str :=
  let percentage := percentage_of pb in
  let remaining := remaining_of env pb elapsed in
  let rate := rate_of pb elapsed in
  match useColors pb, colors pb with
  | true, Some c =>
    B " " ++ Yellow c ++ fmt_f 1 percentage ++ B "%" ++ Reset c
      ++ B " " ++ bullet ++ B " "
      ++ fmt_d (current pb) ++ B "/" ++ fmt_d (total pb)
      ++ B " " ++ bullet ++ B " "
      ++ Red c ++ fmt_f 0 rate ++ B "fps" ++ Reset c
      ++ B " " ++ bullet ++ B " ETA "
      ++ Blue c ++ formatDurationSimple env remaining ++ Reset c
  | _, _ =>
    B " " ++ fmt_f 1 percentage ++ B "%"
      ++ B " " ++ bullet ++ B " "
      ++ fmt_d (current pb) ++ B "/" ++ fmt_d (total pb)
      ++ B " " ++ bullet ++ B " "
      ++ fmt_f 0 rate ++ B "fps"
      ++ B " " ++ bullet ++ B " ETA "
      ++ formatDurationSimple env remaining
  end.

(** The room left for the bar. *)
Definition spaceForBar_of (termWidth : Z) (leftSide rightInfo : str) : Z :=
  let rightInfoPlainLength := len (stripANSI rightInfo) in
  let spaceForBar :=
    wrap64 (termWidth - len leftSide - 1 - rightInfoPlainLength) in
  if (spaceForBar <? 5) || (termWidth <? 20) then
    let spaceForBar := 80 - len leftSide - 1 - rightInfoPlainLength in
    if spaceForBar <? 5 then 5 else spaceForBar
  else spaceForBar.

(** The line [render] composes. *)
Definition output_of (env : Env) (pb : ProgressBar) (termWidth : Z)
           (elapsed : Duration) : str :=
  let rightInfo := rightInfo_of env pb elapsed in
  let leftSide := handleFilename (desc pb) in
  let spaceForBar := spaceForBar_of termWidth leftSide rightInfo in
  let filled :=
    int_of_float (convInvalid env)
                 (float_of_int spaceForBar * percentage_of pb / 100)%float in
  let bar :=
    match useColors pb, colors pb with
    | true, Some c => buildRichBar c filled spaceForBar
    | _, _ => buildSimpleBar filled spaceForBar
    end in
  leftSide ++ B " " ++ bar ++ rightInfo.

(** Carriage return, then erase to the end of the line. *)
Definition clear_line : str := CR :: ESC :: B "[K".

Definition render (env : Env) (pb : ProgressBar) : M unit :=
  sz <- getTerminalSize env ;;
  let termWidth := fst sz in
  elapsed <- Since env (startTime pb) ;;
  Fprint clear_line ;;
  Fprint (output_of env pb termWidth elapsed).

Definition Update (env : Env) (current : Z) (pb : ProgressBar)
  : M ProgressBar :=
  let pb := set_current current pb in
  now <- Now env ;;
  if Sub now (lastUpdate pb) <? updateDelay pb then ret pb
  else
    let pb := set_lastUpdate now pb in
    render env pb ;;
    ret pb.

Definition Finish (env : Env) (pb : ProgressBar) : M ProgressBar :=
  let pb := set_current (total pb) pb in
  render env pb ;;
  Fprint [LF] ;;
  ret pb.

(* ================================================================== *)
(** * The notifier: line accumulator, fact extractor, progress model and
      prompt detection *)
(* ================================================================== *)

Record ColoredProgressNotifier : Type := {
  lines : list str;
  lineAcc : str;
  duration : Z;
  source : str;
  started : bool;
  pbar : option ProgressBar;
  fps : Z;
  cpn_useColors : bool;
  cpn_colors : option Colors;
  stderrBuffer : str;
  waitingForInput : bool
}.

Definition with_lines (ls : list str) (acc : str)
           (cpn : ColoredProgressNotifier) : ColoredProgressNotifier :=
  {| lines := ls; lineAcc := acc; duration := duration cpn;
     source := source cpn; started := started cpn; pbar := pbar cpn;
     fps := fps cpn; cpn_useColors := cpn_useColors cpn;
     cpn_colors := cpn_colors cpn; stderrBuffer := stderrBuffer cpn;
     waitingForInput := waitingForInput cpn |}.

Definition with_facts (d : Z) (src : str) (f : Z)
           (cpn : ColoredProgressNotifier) : ColoredProgressNotifier :=
  {| lines := lines cpn; lineAcc := lineAcc cpn; duration := d;
     source := src; started := started cpn; pbar := pbar cpn;
     fps := f; cpn_useColors := cpn_useColors cpn;
     cpn_colors := cpn_colors cpn; stderrBuffer := stderrBuffer cpn;
     waitingForInput := waitingForInput cpn |}.

Definition with_pbar (pb : option ProgressBar)
           (cpn : ColoredProgressNotifier) : ColoredProgressNotifier :=
  {| lines := lines cpn; lineAcc := lineAcc cpn; duration := duration cpn;
     source := source cpn; started := started cpn; pbar := pb;
     fps := fps cpn; cpn_useColors := cpn_useColors cpn;
     cpn_colors := cpn_colors cpn; stderrBuffer := stderrBuffer cpn;
     waitingForInput := waitingForInput cpn |}.

Definition with_stderrBuffer (b : str)
           (cpn : ColoredProgressNotifier) : ColoredProgressNotifier :=
  {| lines := lines cpn; lineAcc := lineAcc cpn; duration := duration cpn;
     source := source cpn; started := started cpn; pbar := pbar cpn;
     fps := fps cpn; cpn_useColors := cpn_useColors cpn;
     cpn_colors := cpn_colors cpn; stderrBuffer := b;
     waitingForInput := waitingForInput cpn |}.

Definition with_waitingForInput (b : bool)
           (cpn : ColoredProgressNotifier) : ColoredProgressNotifier :=
  {| lines := lines cpn; lineAcc := lineAcc cpn; duration := duration cpn;
     source := source cpn; started := started cpn; pbar := pbar cpn;
     fps := fps cpn; cpn_useColors := cpn_useColors cpn;
     cpn_colors := cpn_colors cpn; stderrBuffer := stderrBuffer cpn;
     waitingForInput := b |}.

(** [supportsColor(file)] for a file that is, or is not, a character
    device, on Windows or elsewhere. *)
Definition supportsColor (goosWindows isTerminal : bool) : bool :=
  if goosWindows then false else isTerminal.

Definition NewColoredProgressNotifier (fileSupportsColor useColors : bool)
  : ColoredProgressNotifier :=
  let uc := useColors && fileSupportsColor in
  {| lines := []; lineAcc := []; duration := 0; source := [];
     started := false; pbar := None; fps := 0;
     cpn_useColors := uc;
     cpn_colors := if uc then Some NewColors else None;
     stderrBuffer := []; waitingForInput := false |}.

Definition seconds (hours minutes secs : str) : Z :=
  let h := Atoi hours in
  let m := Atoi minutes in
  let s := Atoi secs in
  wrap64 ((h * 60 + m) * 60 + s).

Definition newline (cpn : ColoredProgressNotifier)
  : str * ColoredProgressNotifier :=
  let line := lineAcc cpn in
  (line, with_lines (lines cpn ++ [line]) [] cpn).

Definition getDuration (line : str) : Z :=
  match FindStringSubmatch durationRx 3 line with
  | Some [_; m1; m2; m3] => seconds m1 m2 m3
  | _ => 0
  end.

(** [filepath.Base] with the slash as the separator (Linux, macOS). *)
Fixpoint drop_slashes (r : str) : str :=
  match r with
  | c :: r' => if Ascii.eqb c "/" then drop_slashes r' else r
  | [] => []
  end.

Fixpoint until_slash (r : str) : str :=
  match r with
  | c :: r' => if Ascii.eqb c "/" then [] else c :: until_slash r'
  | [] => []
  end.

Definition Base (path : str) : str :=
  match path with
  | [] => B "."
  | _ =>
    match rev (until_slash (drop_slashes (rev path))) with
    | [] => B "/"
    | name => name
    end
  end.

Definition getSource (line : str) : str :=
  match FindStringSubmatch sourceRx 1 line with
  | Some [_; m1] => Base m1
  | _ => []
  end.

Definition getFPS (env : Env) (line : str) : Z :=
  match FindStringSubmatch fpsRx 1 line with
  | Some [_; m1] =>
    match ParseFloat m1 with
    | Some fps => int_of_float (convInvalid env) fps
    | None => 0
    end
  | _ => 0
  end.

Definition progress (env : Env) (line : str) (cpn : ColoredProgressNotifier)
  : M ColoredProgressNotifier :=
  match FindStringSubmatch progressRx 3 line with
  | Some [_; m1; m2; m3] =>
    let total := duration cpn in
    let current := seconds m1 m2 m3 in
    let unit := B "seconds" in
    let '(unit, current, total) :=
      if 0 <? fps cpn then
        (B "frames", wrap64 (current * fps cpn),
         if 0 <? total then wrap64 (total * fps cpn) else total)
      else (unit, current, total) in
    pb <- match pbar cpn with
          | None =>
            let desc := match source cpn with
                        | [] => B "Processing"
                        | s => s
                        end in
            NewProgressBar env desc total unit (cpn_useColors cpn)
          | Some pb => ret pb
          end ;;
    pb <- Update env current pb ;;
    ret (with_pbar (Some pb) cpn)
  | _ => ret cpn
  end.

Definition prompt_suffix : str := B "[y/N] ".

Definition is_terminator (char : ascii) : bool :=
  Ascii.eqb char CR || Ascii.eqb char LF.

Definition ProcessChar (env : Env) (char : ascii)
           (cpn : ColoredProgressNotifier) : M ColoredProgressNotifier :=
  let cpn := with_stderrBuffer (stderrBuffer cpn ++ [char]) cpn in
  if is_terminator char then
    let '(line, cpn) := newline cpn in
    let d := if duration cpn =? 0 then getDuration line else duration cpn in
    let s := match source cpn with
             | [] => getSource line
             | s => s
             end in
    let f := if fps cpn =? 0 then getFPS env line else fps cpn in
    progress env line (with_facts d s f cpn)
  else
    let cpn := with_lines (lines cpn) (lineAcc cpn ++ [char]) cpn in
    if HasSuffix (lineAcc cpn) prompt_suffix then
      let prompt := lineAcc cpn in
      match cpn_useColors cpn, cpn_colors cpn with
      | true, Some c =>
        Fprint (BrightYellow c ++ Bold c ++ prompt ++ Reset c)
      | _, _ => Fprint prompt
      end ;;
      let cpn := with_waitingForInput true cpn in
      go_forwardUserInput ;;
      ret (snd (newline cpn))
    else ret cpn.

Definition GetStderrContent (cpn : ColoredProgressNotifier) : str :=
  stderrBuffer cpn.

Definition Close (env : Env) (cpn : ColoredProgressNotifier)
  : M ColoredProgressNotifier :=
  match pbar cpn with
  | Some pb => pb <- Finish env pb ;; ret (with_pbar (Some pb) cpn)
  | None => ret cpn
  end.

(** The reading loop of [main]: every byte of the wrapped process's
    diagnostic stream goes through [ProcessChar], in order. *)
Fixpoint feed (env : Env) (bytes : str) (cpn : ColoredProgressNotifier)
  : M ColoredProgressNotifier :=
  match bytes with
  | [] => ret cpn
  | b :: bytes' => cpn <- ProcessChar env b cpn ;; feed env bytes' cpn
  end.

(* ================================================================== *)
(** * The prompt forwarder *)
(* ================================================================== *)

(** [reader.ReadString(delim)] on a fresh reader over the input device,
    where [input] is what the device delivers before it ends or fails:
    the bytes through the first [delim] and no error, or, without a
    [delim], all the bytes and the error. *)
Fixpoint ReadString (delim : ascii) (input : str) : str * bool :=
  match input with
  | [] => ([], false)
  | c :: rest =>
    if Ascii.eqb c delim then ([c], true)
    else let '(line, ok) := ReadString delim rest in (c :: line, ok)
  end.

(** The body of the goroutine.  [stdinWriter] is the sequence of writes
    made so far to the wrapped process's input stream. *)
Definition forwardUserInput (userInput : str) (stdinWriter : list str)
           (cpn : ColoredProgressNotifier)
  : list str * ColoredProgressNotifier :=
  let '(line, ok) := ReadString LF userInput in
  if ok then (stdinWriter ++ [line], with_waitingForInput false cpn)
  else (stdinWriter, cpn).

(* ================================================================== *)
(** * The process supervisor ([main]) *)
(* ================================================================== *)

Inductive Signal : Type := SIGINT | SIGTERM.

Definition signal_number (s : Signal) : Z :=
  match s with
  | SIGINT => 2
  | SIGTERM => 15
  end.

(** How the reading loop ends. *)
Inductive ReadEnd : Type :=
| EOF
| ReadError (msg : str).

(** What the [select] of [main] receives: one of the two signals the
    program subscribes to, or the end of the reading loop. *)
Inductive Selected : Type :=
| FromSigChan (s : Signal)
| FromDone.

(** The result of [cmd.Wait()]: [nil], an [*exec.ExitError] with its
    [ExitCode()], or another error. *)
Inductive WaitResult : Type :=
| WaitNil
| WaitExitError (code : Z)
| WaitError (msg : str).

(** One run of the program, as the operating system decides it.
    [childStderr] holds the bytes the reading loop has taken from the
    pipe when [main] leaves its [select]. *)
Record Run : Type := {
  osArgs : list str;
  goosWindows : bool;
  stderrIsTerminal : bool;
  stderrPipeError : option str;
  stdinPipeError : option str;
  startError : option str;
  childStderr : str;
  readEnd : ReadEnd;
  selected : Selected;
  waitResult : WaitResult
}.

(** How a run ends: the status passed to [os.Exit] (0 when [main]
    returns), the world it leaves, and whether [cmd.Process.Kill()] was
    called. *)
Record Outcome : Type := {
  exitStatus : Z;
  world : World;
  killed : bool
}.

Definition world0 : World :=
  {| stderr := []; ticks := 0; sizeQueries := 0; forwards := 0 |}.

(** [os.Exit(code)] after the effects [m]; deferred calls do not run. *)
Definition Exit (code : Z) (m : M unit) (w : World) : Outcome :=
  {| exitStatus := code; world := snd (m w); killed := false |}.

Definition exiting_message (useColors : bool) : str :=
  if useColors then
    BrightRed NewColors ++ Bold NewColors ++ B "Exiting." ++ Reset NewColors
      ++ [LF]
  else B "Exiting." ++ [LF].

Definition main (env : Env) (run : Run) : Outcome :=
  let w := world0 in
  if (length (osArgs run) <? 2)%nat then
    Exit 1 (Fprint (B "Usage: " ++ hd [] (osArgs run)
                      ++ B " <ffmpeg-args>" ++ [LF])) w
  else
  match stderrPipeError run with
  | Some err =>
    Exit 1 (Fprint (B "Error creating stderr pipe: " ++ err ++ [LF])) w
  | None =>
  match stdinPipeError run with
  | Some err =>
    Exit 1 (Fprint (B "Error creating stdin pipe: " ++ err ++ [LF])) w
  | None =>
  let useColors := supportsColor (goosWindows run) (stderrIsTerminal run) in
  let notifier := NewColoredProgressNotifier useColors useColors in
  match startError run with
  | Some err =>
    Exit 1 (Fprint (B "Error starting ffmpeg: " ++ err ++ [LF])) w
  | None =>
  let '(notifier, w) := feed env (childStderr run) notifier w in
  match selected run with
  | FromSigChan _ =>
    {| exitStatus := 128 + signal_number SIGINT;
       world := snd (Fprint (exiting_message useColors) w);
       killed := true |}
  | FromDone =>
  match readEnd run with
  | ReadError err =>
    Exit 1 (Fprint (B "Error reading ffmpeg output: " ++ err ++ [LF])) w
  | EOF =>
  match waitResult run with
  | WaitExitError code =>
    let stderrContent := GetStderrContent notifier in
    Exit code (match stderrContent with
               | [] => ret tt
               | _ => Fprint stderrContent
               end) w
  | WaitError err =>
    Exit 1 (Fprint (B "Error waiting for ffmpeg: " ++ err ++ [LF])) w
  | WaitNil =>
    (* [main] returns: the deferred [notifier.Close()] runs. *)
    {| exitStatus := 0; world := snd (Close env notifier w);
       killed := false |}
  end end end end end end.

(* ================================================================== *)
(** * The variant without input forwarding ([fpb.go])

    The same program before the stderr buffer and the prompt forwarder
    were added: [ProcessChar] neither records the byte nor starts a
    goroutine, and [main] opens no input pipe and replays nothing.  The
    fields [stderrBuffer] and [waitingForInput] do not exist there; here
    they are left untouched. *)
(* ================================================================== *)

Module Legacy.

Definition ProcessChar (env : Env) (char : ascii)
           (cpn : ColoredProgressNotifier) : M ColoredProgressNotifier :=
  if is_terminator char then
    let '(line, cpn) := newline cpn in
    let d := if duration cpn =? 0 then getDuration line else duration cpn in
    let s := match source cpn with
             | [] => getSource line
             | s => s
             end in
    let f := if fps cpn =? 0 then getFPS env line else fps cpn in
    progress env line (with_facts d s f cpn)
  else
    let cpn := with_lines (lines cpn) (lineAcc cpn ++ [char]) cpn in
    if HasSuffix (lineAcc cpn) prompt_suffix then
      let prompt := lineAcc cpn in
      match cpn_useColors cpn, cpn_colors cpn with
      | true, Some c =>
        Fprint (BrightYellow c ++ Bold c ++ prompt ++ Reset c)
      | _, _ => Fprint prompt
      end ;;
      ret (snd (newline cpn))
    else ret cpn.

Fixpoint feed (env : Env) (bytes : str) (cpn : ColoredProgressNotifier)
  : M ColoredProgressNotifier :=
  match bytes with
  | [] => ret cpn
  | b :: bytes' => cpn <- ProcessChar env b cpn ;; feed env bytes' cpn
  end.

Definition main (env : Env) (run : Run) : Outcome :=
  let w := world0 in
  if (length (osArgs run) <? 2)%nat then
    Exit 1 (Fprint (B "Usage: " ++ hd [] (osArgs run)
                      ++ B " <ffmpeg-args>" ++ [LF])) w
  else
  let useColors := supportsColor (goosWindows run) (stderrIsTerminal run) in
  let notifier := NewColoredProgressNotifier useColors useColors in
  match stderrPipeError run with
  | Some err =>
    Exit 1 (Fprint (B "Error creating stderr pipe: " ++ err ++ [LF])) w
  | None =>
  match startError run with
  | Some err =>
    Exit 1 (Fprint (B "Error starting ffmpeg: " ++ err ++ [LF])) w
  | None =>
  let '(notifier, w) := feed env (childStderr run) notifier w in
  match selected run with
  | FromSigChan _ =>
    {| exitStatus := 128 + signal_number SIGINT;
       world := snd (Fprint (exiting_message useColors) w);
       killed := true |}
  | FromDone =>
  match readEnd run with
  | ReadError err =>
    Exit 1 (Fprint (B "Error reading ffmpeg output: " ++ err ++ [LF])) w
  | EOF =>
  match waitResult run with
  | WaitExitError code => Exit code (ret tt) w
  | WaitError err =>
    Exit 1 (Fprint (B "Error waiting for ffmpeg: " ++ err ++ [LF])) w
  | WaitNil =>
    {| exitStatus := 0; world := snd (Close env notifier w);
       killed := false |}
  end end end end end.

End Legacy.

(* ================================================================== *)
(** * Observations used to state the properties *)
(* ================================================================== *)

(** The terminal width [render] works with when called in world [w]. *)
Definition termWidth_at (env : Env) (w : World) : Z :=
  match termGetSize env (sizeQueries w) with
  | Some wh => fst wh
  | None => 80
  end.

(** The line a call of [render] in world [w] writes. *)
Definition frame_at (env : Env) (pb : ProgressBar) (w : World) : str :=
  output_of env pb (termWidth_at env w)
            (Sub (clock env (ticks w)) (startTime pb)).

(** The world after one reading of the clock. *)
Definition tick (w : World) : World :=
  {| stderr := stderr w; ticks := S (ticks w);
     sizeQueries := sizeQueries w; forwards := forwards w |}.

(** A sample environment and notifier for concrete runs: a clock that
    advances by 100ms per reading, a terminal 60 columns wide, a machine
    that converts an unrepresentable float to the least integer. *)
Definition sample_env : Env :=
  {| clock := fun n => 63800000000000000000 + Z.of_nat n * 100000000;
     termGetSize := fun _ => Some (60, 24);
     convInvalid := fun _ => - 2 ^ 63 |}.

Definition plain_notifier : ColoredProgressNotifier :=
  NewColoredProgressNotifier false false.

(** A completed line: the text and a line feed. *)
Definition line (s : str) : str := s ++ [LF].

(** The four lines of the frame-unit scenario. *)
Definition frames_scenario : str :=
  line (B "29.97 fps") ++ line (B "Duration: 00:01:30.00")
    ++ line (B "from 'clip.mp4':") ++ line (B "time=00:00:45.00").

(** A run in which every set-up step of [main] succeeds. *)
Definition setup_ok (run : Run) : Prop :=
  (2 <= length (osArgs run))%nat /\
  stderrPipeError run = None /\
  stdinPipeError run = None /\
  startError run = None.

(** The notifier [main] starts with, and the state the reading loop
    leaves it and the world in. *)
Definition main_notifier (run : Run) : ColoredProgressNotifier :=
  let useColors := supportsColor (goosWindows run) (stderrIsTerminal run) in
  NewColoredProgressNotifier useColors useColors.

Definition after_reading (env : Env) (run : Run)
  : ColoredProgressNotifier * World :=
  feed env (childStderr run) (main_notifier run) world0.

(** A sample run: [fpb -i in.mp4 out.mp4], on a terminal, where ffmpeg
    writes a complaint and the rest is as given. *)
Definition sample_run (sel : Selected) (wr : WaitResult) : Run :=
  {| osArgs := [B "fpb"; B "-i"; B "in.mp4"; B "out.mp4"];
     goosWindows := false;
     stderrIsTerminal := true;
     stderrPipeError := None;
     stdinPipeError := None;
     startError := None;
     childStderr := line (B "in.mp4: No such file or directory");
     readEnd := EOF;
     selected := sel;
     waitResult := wr |}.

(** The clock readings at which the successive calls [Update c1],
    [Update c2], ... redraw the bar; a call redraws when it adds to the
    stream. *)
Fixpoint redraw_times (env : Env) (cs : list Z) (pb : ProgressBar)
         (w : World) : list Time :=
  match cs with
  | [] => []
  | c :: cs' =>
    let r := Update env c pb w in
    (if (length (stderr w) <? length (stderr (snd r)))%nat
     then [clock env (ticks w)] else [])
      ++ redraw_times env cs' (fst r) (snd r)
  end.

(** Each time of the list is at least [d] after the one before it, the
    first one at least [d] after [prev]. *)
Fixpoint spaced (d : Duration) (prev : Time) (ts : list Time) : Prop :=
  match ts with
  | [] => True
  | t :: ts' => d <= t - prev /\ spaced d t ts'
  end.

(** What the notifier echoes for a prompt. *)
Definition echo_of (cpn : ColoredProgressNotifier) (prompt : str) : str :=
  match cpn_useColors cpn, cpn_colors cpn with
  | true, Some k => BrightYellow k ++ Bold k ++ prompt ++ Reset k
  | _, _ => prompt
  end.

(** An environment whose clock advances by 20ms per reading. *)
Definition quick_env : Env :=
  {| clock := fun n => 63800000000000000000 + Z.of_nat n * 20000000;
     termGetSize := fun _ => None;
     convInvalid := fun _ => - 2 ^ 63 |}.

(** The same without the last line feed. *)
Definition frames_prefix : str :=
  line (B "29.97 fps") ++ line (B "Duration: 00:01:30.00")
    ++ line (B "from 'clip.mp4':") ++ B "time=00:00:45.00".

(** An ASCII character other than the escape character. *)
Definition plain (c : ascii) : Prop := byte_code c < 128 /\ c <> ESC.

(** The color codes [render] puts into the trailing information. *)
Definition info_codes : list str :=
  [Yellow NewColors; Red NewColors; Blue NewColors; Reset NewColors].

(** The shape of a trailing-info string: plain characters, bullets and
    color codes, in any order. *)
Inductive info : str -> Prop :=
| info_nil : info []
| info_plain c s : plain c -> info s -> info (c :: s)
| info_bullet s : info s -> info (bullet ++ s)
| info_code k s : In k info_codes -> info s -> info (k ++ s).

(** The same without color codes. *)
Inductive info0 : str -> Prop :=
| info0_nil : info0 []
| info0_plain c s : plain c -> info0 s -> info0 (c :: s)
| info0_bullet s : info0 s -> info0 (bullet ++ s).

(** The colors of a bar are those of [NewColors], if any: what
    [NewProgressBar] sets and no operation changes. *)
Definition bar_colors_ok (pb : ProgressBar) : Prop :=
  colors pb = None \/ colors pb = Some NewColors.

(** A run whose second position line reports an earlier position than
    the first. *)
Definition backward_run_1 : str :=
  line (B "Duration: 00:01:30.00") ++ line (B "time=00:00:45.00").

Definition backward_run_2 : str :=
  backward_run_1 ++ line (B "time=00:00:30.00").

(* ================================================================== *)
(** * Observations on binary64 arithmetic *)
(* ================================================================== *)

(** Where [N / D] lies between two consecutive integers, as the round
    and sticky bits of a shift record. *)
Definition loc_code (N D : Z) : bool * bool :=
  let R := N mod D in
  if R =? 0 then (false, false)
  else match 2 * R ?= D with
       | Lt => (false, true)
       | Eq => (true, false)
       | Gt => (true, true)
       end.

Definition locates (N D : Z) (rec : shr_record) : Prop :=
  shr_m rec = N / D /\ (shr_r rec, shr_s rec) = loc_code N D.

(** [N / (D * 2^n)] rounded to 53 bits, as mantissa and exponent, where
    [E] is the exponent of the unit of [N / D] and the integer part of
    [N / D] has [53 + n] bits. *)
Definition rounded (N D E n : Z) : Z * Z :=
  let m := round_half_even N (D * 2 ^ n) in
  if m =? 2 ^ 53 then (2 ^ 52, E + n + 1) else (m, E + n).

(** The order of positive binary64 numbers with full mantissas. *)
Definition lex_le (x y : Z * Z) : Prop :=
  snd x < snd y \/ (snd x = snd y /\ fst x <= fst y).

Definition finite_of (x : Z * Z) : spec_float :=
  S754_finite false (Z.to_pos (fst x)) (snd x).

(** [float64(c)] for [0 < c < 2^53], as mantissa and exponent. *)
Definition int_pair (c : Z) : Z * Z :=
  let d := Z.log2 c + 1 in (c * 2 ^ (53 - d), d - 53).

(** The quotient of two such numbers, then its product with 100. *)
Definition quotient_pair (c t : Z) : Z * Z :=
  let N := fst (int_pair c) * 2 ^ 53 in
  let D := fst (int_pair t) in
  rounded N D (snd (int_pair c) - snd (int_pair t) - 53)
          (if N / D <? 2 ^ 53 then 0 else 1).

Definition times_100_pair (q : Z * Z) : Z * Z :=
  let N := fst q * (100 * 2 ^ 46) in
  rounded N 1 (snd q + -46) (if N <? 2 ^ 105 then 52 else 53).

(** [float64(c) / float64(t) * 100] *)
Definition percentage_float (c t : Z) : float :=
  (float_of_int c / float_of_int t * 100)%float.

(* ================================================================== *)
(** * Observations used to state further properties *)
(* ================================================================== *)

(** [n] copies of a cell, side by side. *)
Definition cells (n : Z) (cell : str) : str :=
  concat (repeat cell (Z.to_nat n)).

(** A 7-bit character. *)
Definition is_ascii (c : ascii) : Prop := byte_code c < 128.

(** The glyphs and the color codes [render] writes. *)
Definition glyphs : list str := [bullet; heavy_bar; half_bar].

Definition color_codes : list str :=
  [Reset NewColors; Red NewColors; Green NewColors; Yellow NewColors;
   Blue NewColors].

(** A text made of plain characters, glyphs and color codes, and the
    number of columns it takes on the terminal: one for each character
    and glyph, none for a color code. *)
Inductive shown : str -> Z -> Prop :=
| shown_nil : shown [] 0
| shown_plain c s n : plain c -> shown s n -> shown (c :: s) (n + 1)
| shown_glyph g s n : In g glyphs -> shown s n -> shown (g ++ s) (n + 1)
| shown_code k s n : In k color_codes -> shown s n -> shown (k ++ s) n.

(** The part the two timestamp patterns share: [dd:dd:dd.dd], with a
    group around each of the first three pairs. *)
Definition hms_tail : regex :=
  RSeq [RGroup 1 Rd2; RChar ":"; RGroup 2 Rd2; RChar ":"; RGroup 3 Rd2;
        RChar "."; Rd2].

(** A text that starts with such a timestamp: the three pairs. *)
Definition hms_fields (s : str) : option (str * str * str) :=
  match s with
  | a :: b :: c1 :: c :: d :: c2 :: e :: f :: c3 :: g :: h :: _ =>
    if is_digit a && is_digit b && Ascii.eqb c1 ":"
       && is_digit c && is_digit d && Ascii.eqb c2 ":"
       && is_digit e && is_digit f && Ascii.eqb c3 "."
       && is_digit g && is_digit h
    then Some ([a; b], [c; d], [e; f])
    else None
  | _ => None
  end.

(** A string of two decimal digits, and its value. *)
Definition two_digits (s : str) : bool :=
  match s with
  | [a; b] => is_digit a && is_digit b
  | _ => false
  end.

Definition pair_value (s : str) : Z :=
  match s with
  | [a; b] => 10 * digit_val a + digit_val b
  | _ => 0
  end.

(** [sub] does not occur in [s ++ sub] before the offset [length s]: in
    a text that starts with [s ++ sub], the first occurrence of [sub] is
    the one right after [s]. *)
Fixpoint first_after (s sub : str) : bool :=
  match s with
  | [] => true
  | _ :: s' => negb (HasPrefix (s ++ sub) sub) && first_after s' sub
  end.

(** [strings.Contains] *)
Fixpoint Contains (s sub : str) : bool :=
  HasPrefix s sub ||
  match s with
  | [] => false
  | _ :: s' => Contains s' sub
  end.

(** A directory prefix: empty, or ending in a slash. *)
Definition is_dir (dir : str) : bool :=
  match rev dir with
  | [] => true
  | c :: _ => Ascii.eqb c "/"
  end.

(** A file name: not empty, without a slash. *)
Definition is_name (name : str) : bool :=
  negb (str_eqb name []) && forallb (fun c => negb (Ascii.eqb c "/")) name.

(** A text that starts with [dd.dd], and one that starts with [dd]. *)
Definition decimal_shape (s : str) : bool :=
  match s with
  | a :: b :: p :: c :: d :: _ =>
    is_digit a && is_digit b && Ascii.eqb p "." && is_digit c && is_digit d
  | _ => false
  end.

Definition integer_shape (s : str) : bool :=
  match s with
  | a :: b :: _ => is_digit a && is_digit b
  | _ => false
  end.

(** A frame rate stands at the head of [s]: two digits followed by
    [ fps], or by a point, two more digits and [ fps]. *)
Definition rate_here (s : str) : bool :=
  (decimal_shape s && HasPrefix (skipn 5 s) (B " fps"))
  || (integer_shape s && HasPrefix (skipn 2 s) (B " fps")).

(** What is left of [s] from the first place where a frame rate
    stands. *)
Fixpoint first_rate (s : str) : option str :=
  if rate_here s then Some s
  else match s with
       | [] => None
       | _ :: s' => first_rate s'
       end.

Definition decimal_digits : str := B "0123456789".

(** The numeral [g] converts to the integer [v], within the range of
    the integers. *)
Definition converts_to (g : str) (v : Z) : bool :=
  match ParseFloat g with
  | Some f =>
    match trunc_float f with
    | Some z => (z =? v) && in_int64 z
    | None => false
    end
  | None => false
  end.

(** The ranges the facts and the bar stay in: a duration of at most
    99:99:99, a frame rate of at most 99, and a bar whose total and
    current value are at most their product. *)
Definition in_bounds (cpn : ColoredProgressNotifier) : Prop :=
  0 <= duration cpn <= 362439 /\
  0 <= fps cpn <= 99 /\
  match pbar cpn with
  | Some pb => 0 <= total pb <= 35881461 /\ 0 <= current pb <= 35881461
  | None => True
  end.

(** Two states of a bar that differ at most in the current value and in
    the time of the last redraw. *)
Definition same_frame (pb pb' : ProgressBar) : Prop :=
  total pb' = total pb /\ desc pb' = desc pb /\ unit_ pb' = unit_ pb /\
  startTime pb' = startTime pb /\ colors pb' = colors pb /\
  useColors pb' = useColors pb /\ updateDelay pb' = updateDelay pb.

(** A byte that does not end a line. *)
Definition in_line (c : ascii) : bool := negb (is_terminator c).

(** What the byte [c] can make the notifier write when it arrives in the
    state [cpn] and the world [w] and leaves the notifier in the state
    [cpn']: the echo of the line in progress, when the byte completes the
    prompt suffix on it; the sequence that clears the line and one frame
    of the bar the notifier then has, at the terminal width and the clock
    reading of that redraw, when the byte ends a line that carries a
    position; and else nothing.  A byte that completes the prompt suffix
    does not write nothing. *)
Inductive byte_writes (env : Env) (c : ascii)
          (cpn : ColoredProgressNotifier) (w : World)
          (cpn' : ColoredProgressNotifier) : list str -> Prop :=
| writes_nothing :
    is_terminator c = true \/
    HasSuffix (lineAcc cpn ++ [c]) prompt_suffix = false ->
    byte_writes env c cpn w cpn' []
| writes_echo :
    is_terminator c = false ->
    HasSuffix (lineAcc cpn ++ [c]) prompt_suffix = true ->
    byte_writes env c cpn w cpn' [echo_of cpn (lineAcc cpn ++ [c])]
| writes_frame pb :
    is_terminator c = true ->
    FindStringSubmatch progressRx 3 (lineAcc cpn) <> None ->
    pbar cpn' = Some pb ->
    byte_writes env c cpn w cpn'
      [clear_line;
       frame_at env pb (match pbar cpn with
                        | Some _ => tick w
                        | None => tick (tick w)
                        end)].

(** What the notifier writes while it is fed [bytes] from the state
    [cpn] and the world [w]: what each byte writes, in order, each byte
    taken in the state the bytes before it have led to. *)
Inductive notifier_writes (env : Env)
  : ColoredProgressNotifier -> World -> str -> list str -> Prop :=
| writes_end cpn w : notifier_writes env cpn w [] []
| writes_byte c bytes cpn w first rest :
    byte_writes env c cpn w (fst (ProcessChar env c cpn w)) first ->
    notifier_writes env (fst (ProcessChar env c cpn w))
                    (snd (ProcessChar env c cpn w)) bytes rest ->
    notifier_writes env cpn w (c :: bytes) (first ++ rest).

(** A byte that is neither an equals sign nor a closing bracket. *)
Definition quiet (c : ascii) : bool :=
  negb (Ascii.eqb c "=") && negb (Ascii.eqb c "]").

(** What the variant without input forwarding has of a notifier and of
    the world: no buffer, no flag, no goroutine. *)
Definition earlier_view (cpn : ColoredProgressNotifier)
  : ColoredProgressNotifier :=
  with_waitingForInput false (with_stderrBuffer [] cpn).

Definition earlier_world (w : World) : World :=
  {| stderr := stderr w; ticks := ticks w; sizeQueries := sizeQueries w;
     forwards := 0 |}.

(** A run that ends well: [fpb -i in.mp4 out.mp4] on a terminal, where
    ffmpeg reports a duration and a position and exits with status 0. *)
Definition clean_run : Run :=
  {| osArgs := [B "fpb"; B "-i"; B "in.mp4"; B "out.mp4"];
     goosWindows := false;
     stderrIsTerminal := true;
     stderrPipeError := None;
     stdinPipeError := None;
     startError := None;
     childStderr := line (B "  Duration: 00:01:30.00, start: 0.000000")
                    ++ line (B "frame=  250 time=00:00:45.00 bitrate=N/A");
     readEnd := EOF;
     selected := FromDone;
     waitResult := WaitNil |}.

(* ================================================================== *)
(** * Properties *)
(* ================================================================== *)

(** ** The effects of [render], [Update] and [Finish], spelled out *)

Lemma render_eq env pb w :
  render env pb w
  = (tt, {| stderr := stderr w ++ [clear_line; frame_at env pb w];
            ticks := S (ticks w);
            sizeQueries := S (sizeQueries w);
            forwards := forwards w |}).
Proof.
  unfold render, frame_at, termWidth_at, getTerminalSize, GetSize, Since,
    Now, Fprint, bind, ret.
  destruct (termGetSize env (sizeQueries w)); simpl;
    rewrite <- app_assoc; reflexivity.
Qed.

Lemma Update_eq env c pb w :
  Update env c pb w
  = let now := clock env (ticks w) in
    if Sub now (lastUpdate pb) <? updateDelay pb
    then (set_current c pb, tick w)
    else let pb' := set_lastUpdate now (set_current c pb) in
         (pb', snd (render env pb' (tick w))).
Proof.
  unfold Update, bind, Now, ret; simpl.
  destruct (Sub (clock env (ticks w)) (lastUpdate pb) <? updateDelay pb);
    [reflexivity |].
  fold (tick w). rewrite render_eq. reflexivity.
Qed.

Lemma Finish_eq env pb w :
  Finish env pb w
  = (set_current (total pb) pb,
     {| stderr := stderr w ++ [clear_line;
                               frame_at env (set_current (total pb) pb) w;
                               [LF]];
        ticks := S (ticks w);
        sizeQueries := S (sizeQueries w);
        forwards := forwards w |}).
Proof.
  unfold Finish, bind, Fprint, ret. rewrite render_eq. simpl.
  rewrite <- app_assoc. reflexivity.
Qed.

Lemma Update_forwards env c pb w :
  forwards (snd (Update env c pb w)) = forwards w.
Proof.
  rewrite Update_eq; simpl.
  destruct (Sub (clock env (ticks w)) (lastUpdate pb) <? updateDelay pb);
    [reflexivity | rewrite render_eq; reflexivity].
Qed.

(** ** What [progress] leaves alone: everything but the bar *)

Lemma with_pbar_back x cpn : with_pbar (pbar cpn) (with_pbar x cpn) = cpn.
Proof. destruct cpn; reflexivity. Qed.

Lemma progress_frame env line cpn w :
  with_pbar (pbar cpn) (fst (progress env line cpn w)) = cpn /\
  forwards (snd (progress env line cpn w)) = forwards w.
Proof.
  unfold progress.
  destruct (FindStringSubmatch progressRx 3 line)
    as [[|m0 [|m1 [|m2 [|m3 [|? ?]]]]]|];
    try (destruct cpn; split; reflexivity).
  destruct (0 <? fps cpn); unfold bind;
    destruct (pbar cpn) eqn:Hpb; simpl;
    match goal with
    | |- context [Update ?e ?c ?p ?w] =>
      pose proof (Update_forwards e c p w);
      destruct (Update e c p w) as [pb' w'] eqn:HU
    end; simpl in *; rewrite <- ?Hpb, with_pbar_back; auto.
Qed.

Lemma progress_fields env line cpn w :
  let cpn' := fst (progress env line cpn w) in
  lines cpn' = lines cpn /\ lineAcc cpn' = lineAcc cpn /\
  duration cpn' = duration cpn /\ source cpn' = source cpn /\
  fps cpn' = fps cpn /\ stderrBuffer cpn' = stderrBuffer cpn /\
  waitingForInput cpn' = waitingForInput cpn /\
  cpn_useColors cpn' = cpn_useColors cpn /\
  cpn_colors cpn' = cpn_colors cpn /\ started cpn' = started cpn.
Proof.
  intros cpn'. destruct (progress_frame env line cpn w) as [H _].
  fold cpn' in H. rewrite <- H.
  destruct cpn'; repeat split; reflexivity.
Qed.

(** ** The line accumulator *)

Lemma ProcessChar_terminator env c cpn w :
  is_terminator c = true ->
  ProcessChar env c cpn w
  = let ln := lineAcc cpn in
    progress env ln
      (with_facts
         (if duration cpn =? 0 then getDuration ln else duration cpn)
         (match source cpn with [] => getSource ln | s => s end)
         (if fps cpn =? 0 then getFPS env ln else fps cpn)
         (with_lines (lines cpn ++ [ln]) []
            (with_stderrBuffer (stderrBuffer cpn ++ [c]) cpn))) w.
Proof. intros H. unfold ProcessChar. rewrite H. reflexivity. Qed.

Lemma is_terminator_spec c : is_terminator c = true <-> c = CR \/ c = LF.
Proof.
  unfold is_terminator. rewrite orb_true_iff, !Ascii.eqb_eq. tauto.
Qed.

Lemma HasSuffix_last s c suffix x :
  HasSuffix (s ++ [c]) (suffix ++ [x]) = true -> c = x.
Proof.
  unfold HasSuffix. rewrite !rev_app_distr. simpl.
  rewrite andb_true_iff, Ascii.eqb_eq. tauto.
Qed.

Lemma prompt_byte_is_space s c :
  HasSuffix (s ++ [c]) prompt_suffix = true -> c = " "%char.
Proof. apply (HasSuffix_last s c (B "[y/N]")). Qed.

Lemma prompt_byte_not_terminator s c :
  HasSuffix (s ++ [c]) prompt_suffix = true -> is_terminator c = false.
Proof. intros H. rewrite (prompt_byte_is_space _ _ H). reflexivity. Qed.

(** The effect of a byte that completes the prompt suffix. *)
Lemma ProcessChar_prompt env c cpn w :
  HasSuffix (lineAcc cpn ++ [c]) prompt_suffix = true ->
  ProcessChar env c cpn w
  = let prompt := lineAcc cpn ++ [c] in
    (with_lines (lines cpn ++ [prompt]) []
       (with_waitingForInput true
          (with_stderrBuffer (stderrBuffer cpn ++ [c]) cpn)),
     {| stderr := stderr w ++
                  [match cpn_useColors cpn, cpn_colors cpn with
                   | true, Some k =>
                     BrightYellow k ++ Bold k ++ prompt ++ Reset k
                   | _, _ => prompt
                   end];
        ticks := ticks w; sizeQueries := sizeQueries w;
        forwards := S (forwards w) |}).
Proof.
  intros H. unfold ProcessChar.
  rewrite (prompt_byte_not_terminator _ _ H). simpl.
  rewrite H. unfold bind, go_forwardUserInput, Fprint, ret, newline.
  destruct (cpn_useColors cpn), (cpn_colors cpn); reflexivity.
Qed.

(** A byte that neither ends the line nor completes the prompt is
    appended, and that is all. *)
Lemma ProcessChar_plain env c cpn w :
  is_terminator c = false ->
  HasSuffix (lineAcc cpn ++ [c]) prompt_suffix = false ->
  ProcessChar env c cpn w
  = (with_lines (lines cpn) (lineAcc cpn ++ [c])
       (with_stderrBuffer (stderrBuffer cpn ++ [c]) cpn), w).
Proof.
  intros H1 H2. unfold ProcessChar. rewrite H1. simpl. rewrite H2.
  reflexivity.
Qed.

(** C9. Every carriage return or line feed completes the line in
    progress, empty or not: the buffer goes to the end of the history and
    is emptied.  Hence a carriage return followed by a line feed leaves
    two lines, the second one empty. *)
Theorem C9_terminator_completes_line env c cpn w :
  c = CR \/ c = LF ->
  let r := ProcessChar env c cpn w in
  lines (fst r) = lines cpn ++ [lineAcc cpn] /\
  lineAcc (fst r) = [] /\
  (c = CR ->
   let r2 := ProcessChar env LF (fst r) (snd r) in
   lines (fst r2) = lines cpn ++ [lineAcc cpn; []] /\
   lineAcc (fst r2) = []).
Proof.
  intros Hc r.
  assert (Hstep : forall c cpn w, is_terminator c = true ->
            lines (fst (ProcessChar env c cpn w)) = lines cpn ++ [lineAcc cpn]
            /\ lineAcc (fst (ProcessChar env c cpn w)) = []).
  { clear. intros c cpn w H. rewrite (ProcessChar_terminator _ _ _ _ H).
    cbv zeta.
    match goal with
    | |- context [progress ?e ?l ?x ?w] =>
      destruct (progress_fields e l x w) as (Hl & Ha & _)
    end.
    cbv zeta in Hl, Ha. rewrite Hl, Ha. split; reflexivity. }
  destruct (Hstep c cpn w (proj2 (is_terminator_spec c) Hc)) as [H1 H2].
  fold r in H1, H2. repeat split; try assumption.
  - destruct (Hstep LF (fst r) (snd r) eq_refl) as [H3 _].
    rewrite H3, H1, H2, <- app_assoc. reflexivity.
  - apply (Hstep LF (fst r) (snd r) eq_refl).
Qed.

Lemma C9_witness :
  (CR = CR \/ CR = LF) /\
  let cpn := with_lines [] (B "frame=1") plain_notifier in
  let r := ProcessChar sample_env CR cpn world0 in
  lines (fst r) = lines cpn ++ [lineAcc cpn] /\
  lineAcc (fst r) = [] /\
  (CR = CR ->
   let r2 := ProcessChar sample_env LF (fst r) (snd r) in
   lines (fst r2) = lines cpn ++ [lineAcc cpn; []] /\
   lineAcc (fst r2) = []).
Proof.
  split; [left; reflexivity |].
  apply (C9_terminator_completes_line sample_env CR
           (with_lines [] (B "frame=1") plain_notifier) world0).
  left; reflexivity.
Defined.

(** C10. The byte that completes the prompt suffix moves the line in
    progress to the history and empties the buffer, and runs no fact
    extraction: duration, source, frame rate and the bar are as before,
    and neither the clock nor the terminal is consulted. *)
Theorem C10_prompt_byte_extracts_nothing env c cpn w :
  HasSuffix (lineAcc cpn ++ [c]) prompt_suffix = true ->
  let r := ProcessChar env c cpn w in
  lines (fst r) = lines cpn ++ [lineAcc cpn ++ [c]] /\
  lineAcc (fst r) = [] /\
  duration (fst r) = duration cpn /\
  source (fst r) = source cpn /\
  fps (fst r) = fps cpn /\
  pbar (fst r) = pbar cpn /\
  ticks (snd r) = ticks w /\
  sizeQueries (snd r) = sizeQueries w.
Proof.
  intros H r. subst r. rewrite (ProcessChar_prompt _ _ _ _ H).
  cbv zeta. simpl. repeat split; reflexivity.
Qed.

Lemma C10_witness :
  let cpn := with_lines [] (B "Overwrite? [y/N]") plain_notifier in
  HasSuffix (lineAcc cpn ++ [" "%char]) prompt_suffix = true /\
  let r := ProcessChar sample_env " " cpn world0 in
  lines (fst r) = lines cpn ++ [lineAcc cpn ++ [" "%char]] /\
  lineAcc (fst r) = [] /\
  duration (fst r) = duration cpn /\
  source (fst r) = source cpn /\
  fps (fst r) = fps cpn /\
  pbar (fst r) = pbar cpn /\
  ticks (snd r) = ticks world0 /\
  sizeQueries (snd r) = sizeQueries world0.
Proof.
  split; [reflexivity |].
  apply (C10_prompt_byte_extracts_nothing sample_env " "
           (with_lines [] (B "Overwrite? [y/N]") plain_notifier) world0).
  reflexivity.
Defined.

(** ** The fact extractor *)

(** What one byte does to the three facts. *)
Lemma ProcessChar_facts env c cpn w :
  let cpn' := fst (ProcessChar env c cpn w) in
  duration cpn'
  = (if is_terminator c && (duration cpn =? 0)
     then getDuration (lineAcc cpn) else duration cpn) /\
  source cpn'
  = (if is_terminator c && str_eqb (source cpn) []
     then getSource (lineAcc cpn) else source cpn) /\
  fps cpn'
  = (if is_terminator c && (fps cpn =? 0)
     then getFPS env (lineAcc cpn) else fps cpn).
Proof.
  intros cpn'. subst cpn'.
  destruct (is_terminator c) eqn:Ht.
  - rewrite (ProcessChar_terminator _ _ _ _ Ht). cbv zeta.
    match goal with
    | |- context [progress ?e ?l ?x ?w] =>
      destruct (progress_fields e l x w) as (_ & _ & Hd & Hs & Hf & _)
    end.
    cbv zeta in Hd, Hs, Hf. rewrite Hd, Hs, Hf. simpl.
    destruct (duration cpn =? 0), (source cpn), (fps cpn =? 0);
      repeat split; reflexivity.
  - destruct (HasSuffix (lineAcc cpn ++ [c]) prompt_suffix) eqn:Hp.
    + rewrite (ProcessChar_prompt _ _ _ _ Hp). simpl. auto.
    + rewrite (ProcessChar_plain _ _ _ _ Ht Hp). simpl. auto.
Qed.

Lemma feed_cons env b bytes cpn w :
  feed env (b :: bytes) cpn w
  = feed env bytes (fst (ProcessChar env b cpn w))
         (snd (ProcessChar env b cpn w)).
Proof.
  simpl. unfold bind. destruct (ProcessChar env b cpn w); reflexivity.
Qed.

Lemma feed_app env bs1 bs2 cpn w :
  feed env (bs1 ++ bs2) cpn w
  = feed env bs2 (fst (feed env bs1 cpn w)) (snd (feed env bs1 cpn w)).
Proof.
  revert cpn w. induction bs1 as [|b bs1 IH]; intros cpn w.
  - reflexivity.
  - rewrite <- app_comm_cons, !feed_cons. apply IH.
Qed.

Lemma str_eqb_nil_false s : s <> [] -> str_eqb s [] = false.
Proof.
  intros H. unfold str_eqb. destruct (list_eq_dec ascii_dec s []);
    [contradiction | reflexivity].
Qed.

(** C4, as amended.  A byte changes a fact only if it ends a line while
    the fact still holds the value that stands for unknown (0, or the
    empty name), and then to what the completed line yields; a fact that
    holds another value stays as it is whatever bytes follow. *)
Theorem C4_facts_learned_once env cpn w :
  (forall c,
     let cpn' := fst (ProcessChar env c cpn w) in
     duration cpn'
     = (if is_terminator c && (duration cpn =? 0)
        then getDuration (lineAcc cpn) else duration cpn) /\
     source cpn'
     = (if is_terminator c && str_eqb (source cpn) []
        then getSource (lineAcc cpn) else source cpn) /\
     fps cpn'
     = (if is_terminator c && (fps cpn =? 0)
        then getFPS env (lineAcc cpn) else fps cpn)) /\
  (forall bytes,
     let cpn' := fst (feed env bytes cpn w) in
     (duration cpn <> 0 -> duration cpn' = duration cpn) /\
     (source cpn <> [] -> source cpn' = source cpn) /\
     (fps cpn <> 0 -> fps cpn' = fps cpn)).
Proof.
  split; [intros c; apply ProcessChar_facts |].
  intros bytes. revert cpn w.
  induction bytes as [|b bytes IH]; intros cpn w; [simpl; auto |].
  cbv zeta. rewrite feed_cons.
  destruct (ProcessChar_facts env b cpn w) as (Hd & Hs & Hf).
  cbv zeta in Hd, Hs, Hf.
  destruct (IH (fst (ProcessChar env b cpn w)) (snd (ProcessChar env b cpn w)))
    as (Kd & Ks & Kf).
  repeat split; intros Hne.
  - assert (E : duration (fst (ProcessChar env b cpn w)) = duration cpn).
    { rewrite Hd. apply Z.eqb_neq in Hne. rewrite Hne, andb_false_r.
      reflexivity. }
    rewrite Kd; congruence.
  - assert (E : source (fst (ProcessChar env b cpn w)) = source cpn).
    { rewrite Hs, (str_eqb_nil_false _ Hne), andb_false_r. reflexivity. }
    rewrite Ks; congruence.
  - assert (E : fps (fst (ProcessChar env b cpn w)) = fps cpn).
    { rewrite Hf. apply Z.eqb_neq in Hne. rewrite Hne, andb_false_r.
      reflexivity. }
    rewrite Kf; congruence.
Qed.

(** A run that learns all three facts from the first lines that carry
    them and keeps them against later lines that carry other values. *)
Lemma C4_witness :
  let first := line (B "Duration: 00:01:30.00, 29.97 fps, from 'a.mp4':") in
  let later := line (B "Duration: 00:02:00.00, 25 fps, from 'b.mp4':") in
  let cpn := fst (feed sample_env first plain_notifier world0) in
  (duration cpn = 90 /\ source cpn = B "a.mp4" /\ fps cpn = 29) /\
  let cpn' := fst (feed sample_env later cpn world0) in
  duration cpn' = duration cpn /\ source cpn' = source cpn /\
  fps cpn' = fps cpn.
Proof.
  cbv zeta. split; [vm_compute; auto |].
  destruct (C4_facts_learned_once sample_env
              (fst (feed sample_env
                      (line (B "Duration: 00:01:30.00, 29.97 fps, from 'a.mp4':"))
                      plain_notifier world0)) world0) as [_ H].
  destruct (H (line (B "Duration: 00:02:00.00, 25 fps, from 'b.mp4':")))
    as (Hd & Hs & Hf).
  split; [apply Hd | split; [apply Hs | apply Hf]]; vm_compute; discriminate.
Defined.

(** C4, refuted as stated: a line can carry a duration and a frame rate
    and yield 0 for both, the value that stands for unknown.  The line
    matches both patterns and leaves both facts at 0, and the next line
    that carries them sets them. *)
Lemma C4_counterexample :
  let first := B "Duration: 00:00:00.50, 00 fps" in
  let later := B "Duration: 00:01:30.00, 25 fps" in
  let cpn1 := fst (feed sample_env (line first) plain_notifier world0) in
  let cpn2 := fst (feed sample_env (line first ++ line later)
                        plain_notifier world0) in
  FindStringSubmatch durationRx 3 first
  = Some [B "Duration: 00:00:00.50"; B "00"; B "00"; B "00"] /\
  FindStringSubmatch fpsRx 1 first = Some [B "00 fps"; B "00"] /\
  duration cpn1 = 0 /\ fps cpn1 = 0 /\
  duration cpn2 = 90 /\ fps cpn2 = 25.
Proof. cbv zeta. repeat split; vm_compute; reflexivity. Qed.

(** ** The progress model *)

Lemma Update_sample env c pb w :
  let pb' := fst (Update env c pb w) in
  current pb' = c /\ total pb' = total pb /\ unit_ pb' = unit_ pb /\
  desc pb' = desc pb /\ updateDelay pb' = updateDelay pb /\
  colors pb' = colors pb /\ useColors pb' = useColors pb /\
  startTime pb' = startTime pb.
Proof.
  rewrite Update_eq. cbv zeta.
  destruct (Sub (clock env (ticks w)) (lastUpdate pb) <? updateDelay pb);
    simpl; repeat split; reflexivity.
Qed.

(** The sample a position line yields when no bar exists yet. *)
Lemma progress_first_sample env ln cpn w m0 m1 m2 m3 :
  FindStringSubmatch progressRx 3 ln = Some [m0; m1; m2; m3] ->
  pbar cpn = None ->
  exists pb,
    pbar (fst (progress env ln cpn w)) = Some pb /\
    current pb
    = (if 0 <? fps cpn then wrap64 (seconds m1 m2 m3 * fps cpn)
       else seconds m1 m2 m3) /\
    total pb
    = (if (0 <? fps cpn) && (0 <? duration cpn)
       then wrap64 (duration cpn * fps cpn) else duration cpn) /\
    unit_ pb = (if 0 <? fps cpn then B "frames" else B "seconds") /\
    desc pb = match source cpn with [] => B "Processing" | s => s end.
Proof.
  intros Hm Hp. unfold progress. rewrite Hm, Hp.
  destruct (0 <? fps cpn); unfold bind, NewProgressBar, Now, ret; simpl;
    match goal with
    | |- context [Update ?e ?c ?p ?w] =>
      destruct (Update_sample e c p w) as (Hc & Ht & Hu & Hd & _);
      destruct (Update e c p w) as [pb' w'] eqn:HU
    end; simpl in *; exists pb'; rewrite Hc, Ht, Hu, Hd;
    destruct (0 <? duration cpn); repeat split; reflexivity.
Qed.

(** The state before the line feed that completes the position line. *)
Lemma frames_prefix_state env colored :
  let r := feed env frames_prefix
                (NewColoredProgressNotifier colored colored) world0 in
  lineAcc (fst r) = B "time=00:00:45.00" /\ fps (fst r) = 29 /\
  duration (fst r) = 90 /\ source (fst r) = B "clip.mp4" /\
  pbar (fst r) = None.
Proof. vm_compute. repeat split. Qed.

Lemma position_line_matches :
  FindStringSubmatch progressRx 3 (B "time=00:00:45.00")
  = Some [B "time=00:00:45.00"; B "00"; B "00"; B "45"].
Proof. vm_compute. reflexivity. Qed.

(** C3. The frame-unit scenario: after the lines "29.97 fps",
    "Duration: 00:01:30.00", "from 'clip.mp4':" and "time=00:00:45.00",
    the frame rate is 29 and the bar holds a sample in frames with
    current 45*29 = 1305 and total 90*29 = 2610, which is 50%. *)
Theorem C3_frames_scenario env colored :
  let cpn := fst (feed env frames_scenario
                       (NewColoredProgressNotifier colored colored) world0) in
  fps cpn = 29 /\ duration cpn = 90 /\ source cpn = B "clip.mp4" /\
  exists pb,
    pbar cpn = Some pb /\ unit_ pb = B "frames" /\
    current pb = 45 * 29 /\ current pb = 1305 /\
    total pb = 90 * 29 /\ total pb = 2610 /\
    percentage_of pb = 50%float.
Proof.
  change frames_scenario with (frames_prefix ++ [LF]).
  cbv zeta. rewrite feed_app.
  destruct (frames_prefix_state env colored) as (Ha & Hf & Hd & Hs & Hp).
  revert Ha Hf Hd Hs Hp.
  generalize (feed env frames_prefix
                   (NewColoredProgressNotifier colored colored) world0).
  intros r Ha Hf Hd Hs Hp.
  rewrite feed_cons.
  change (fst (feed env [] ?c ?w)) with c.
  rewrite (ProcessChar_terminator env LF (fst r) (snd r) eq_refl).
  cbv zeta. rewrite Ha, Hf, Hd, Hs.
  change (if 90 =? 0 then ?a else ?b) with b.
  change (if 29 =? 0 then ?a else ?b) with b.
  change (match B "clip.mp4" with [] => ?a | c :: s => ?b end)
    with (B "clip.mp4").
  match goal with
  | |- context [progress env _ ?x _] => set (cpn3 := x)
  end.
  destruct (progress_fields env (B "time=00:00:45.00") cpn3 (snd r))
    as (_ & _ & Kd & Ks & Kf & _).
  destruct (progress_first_sample env (B "time=00:00:45.00") cpn3 (snd r)
              _ _ _ _ position_line_matches Hp)
    as (pb & Kp & Kc & Kt & Ku & _).
  rewrite Kd, Ks, Kf. repeat split; try reflexivity.
  exists pb. rewrite Kp.
  assert (Kc' : current pb = 1305) by (rewrite Kc; reflexivity).
  assert (Kt' : total pb = 2610) by (rewrite Kt; reflexivity).
  assert (Kpc : percentage_of pb = 50%float).
  { unfold percentage_of. rewrite Kc', Kt'. vm_compute. reflexivity. }
  repeat split; assumption.
Qed.

(** ** The process supervisor *)

(** [main] once the set-up has succeeded. *)
Lemma main_after_setup env run :
  setup_ok run ->
  main env run
  = let notifier := fst (after_reading env run) in
    let w := snd (after_reading env run) in
    let useColors := supportsColor (goosWindows run) (stderrIsTerminal run) in
    match selected run with
    | FromSigChan _ =>
      {| exitStatus := 128 + signal_number SIGINT;
         world := snd (Fprint (exiting_message useColors) w);
         killed := true |}
    | FromDone =>
      match readEnd run with
      | ReadError err =>
        Exit 1 (Fprint (B "Error reading ffmpeg output: " ++ err ++ [LF])) w
      | EOF =>
        match waitResult run with
        | WaitExitError code =>
          Exit code (match GetStderrContent notifier with
                     | [] => ret tt
                     | _ => Fprint (GetStderrContent notifier)
                     end) w
        | WaitError err =>
          Exit 1 (Fprint (B "Error waiting for ffmpeg: " ++ err ++ [LF])) w
        | WaitNil =>
          {| exitStatus := 0; world := snd (Close env notifier w);
             killed := false |}
        end
      end
    end.
Proof.
  intros (Ha & H1 & H2 & H3). unfold main, after_reading, main_notifier.
  apply Nat.ltb_ge in Ha. rewrite Ha, H1, H2, H3.
  destruct (feed env (childStderr run) _ world0). reflexivity.
Qed.

(** The buffer holds every byte fed, in order. *)
Lemma ProcessChar_stderrBuffer env c cpn w :
  stderrBuffer (fst (ProcessChar env c cpn w)) = stderrBuffer cpn ++ [c].
Proof.
  destruct (is_terminator c) eqn:Ht.
  - rewrite (ProcessChar_terminator _ _ _ _ Ht). cbv zeta.
    match goal with
    | |- context [progress ?e ?l ?x ?w] =>
      destruct (progress_fields e l x w) as (_ & _ & _ & _ & _ & Hb & _)
    end.
    cbv zeta in Hb. rewrite Hb. reflexivity.
  - destruct (HasSuffix (lineAcc cpn ++ [c]) prompt_suffix) eqn:Hp.
    + rewrite (ProcessChar_prompt _ _ _ _ Hp). reflexivity.
    + rewrite (ProcessChar_plain _ _ _ _ Ht Hp). reflexivity.
Qed.

Lemma feed_stderrBuffer env bytes cpn w :
  stderrBuffer (fst (feed env bytes cpn w)) = stderrBuffer cpn ++ bytes.
Proof.
  revert cpn w. induction bytes as [|b bytes IH]; intros cpn w.
  - simpl. rewrite app_nil_r. reflexivity.
  - rewrite feed_cons, IH, ProcessChar_stderrBuffer, <- app_assoc.
    reflexivity.
Qed.

Lemma after_reading_buffer env run :
  GetStderrContent (fst (after_reading env run)) = childStderr run.
Proof.
  unfold GetStderrContent, after_reading. rewrite feed_stderrBuffer.
  reflexivity.
Qed.

(** C1. Once the reading loop has reached the end of the stream: if the
    wrapped process is reported to have exited with a failure status, the
    program writes the whole buffered diagnostic output, which is the
    bytes it read, in one write after everything it displayed, and exits
    with that status; if the wrapped process exited cleanly, the program
    exits with status zero, and all it writes after what it displayed is
    the closing of the bar, when there is one: the sequence that clears
    the line, the last frame and a line feed.  The buffer is not
    written. *)
Theorem C1_exit_status_and_replay env run :
  setup_ok run ->
  selected run = FromDone ->
  readEnd run = EOF ->
  let shown := snd (after_reading env run) in
  let notifier := fst (after_reading env run) in
  (forall code,
     waitResult run = WaitExitError code ->
     exitStatus (main env run) = code /\
     stderr (world (main env run))
     = stderr shown ++ match childStderr run with
                       | [] => []
                       | _ => [childStderr run]
                       end /\
     written (world (main env run)) = written shown ++ childStderr run) /\
  (waitResult run = WaitNil ->
     exitStatus (main env run) = 0 /\
     world (main env run) = snd (Close env notifier shown) /\
     stderr (world (main env run))
     = stderr shown
         ++ match pbar notifier with
            | Some pb =>
              [clear_line; frame_at env (set_current (total pb) pb) shown;
               [LF]]
            | None => []
            end).
Proof.
  intros Hs Hsel Hend shown notifier.
  rewrite (main_after_setup env run Hs), Hsel, Hend. cbv zeta.
  rewrite after_reading_buffer. fold shown. fold notifier.
  split.
  - intros code Hw. rewrite Hw. unfold Exit, written; simpl.
    destruct (childStderr run) as [|b bs].
    + simpl. rewrite !app_nil_r. auto.
    + simpl. rewrite concat_app. simpl. rewrite app_nil_r. auto.
  - intros Hw. rewrite Hw. cbn [exitStatus world].
    split; [reflexivity |]. split; [reflexivity |].
    unfold Close. destruct (pbar notifier) as [pb|].
    + unfold bind, ret. rewrite Finish_eq. reflexivity.
    + unfold ret. cbn [snd]. rewrite app_nil_r. reflexivity.
Qed.

(** A failing run, whose complaint is replayed, and a run that ends well
    after a duration line and a position line: its bar is closed and
    nothing else is written. *)
Lemma C1_witness :
  let run := sample_run FromDone (WaitExitError 1) in
  (setup_ok run /\ selected run = FromDone /\ readEnd run = EOF) /\
  exitStatus (main sample_env run) = 1 /\
  stderr (world (main sample_env run)) = [childStderr run] /\
  (setup_ok clean_run /\ selected clean_run = FromDone /\
   readEnd clean_run = EOF /\ waitResult clean_run = WaitNil) /\
  exitStatus (main sample_env clean_run) = 0 /\
  exists pb,
    pbar (fst (after_reading sample_env clean_run)) = Some pb /\
    stderr (world (main sample_env clean_run))
    = stderr (snd (after_reading sample_env clean_run))
        ++ [clear_line;
            frame_at sample_env (set_current (total pb) pb)
                     (snd (after_reading sample_env clean_run));
            [LF]].
Proof.
  cbv zeta.
  assert (Hs : forall wr, setup_ok (sample_run FromDone wr)).
  { intros wr. unfold setup_ok. simpl. repeat split; lia. }
  assert (Hc : setup_ok clean_run).
  { unfold setup_ok. simpl. repeat split; lia. }
  split; [repeat split; [apply Hs | ..]; reflexivity |].
  destruct (C1_exit_status_and_replay sample_env
              (sample_run FromDone (WaitExitError 1)) (Hs _) eq_refl eq_refl)
    as [H1 _].
  destruct (H1 1 eq_refl) as (Hc1 & Hw & _).
  destruct (C1_exit_status_and_replay sample_env clean_run Hc eq_refl eq_refl)
    as [_ H2].
  destruct (H2 eq_refl) as (Hc0 & _ & Hw0).
  split; [exact Hc1 |]. split; [rewrite Hw; reflexivity |].
  split; [split; [exact Hc | repeat split] |].
  split; [exact Hc0 |].
  destruct (pbar (fst (after_reading sample_env clean_run))) as [pb|] eqn:E;
    [| vm_compute in E; discriminate E].
  exists pb. split; [reflexivity | exact Hw0].
Defined.

(** The earlier variant of [main] propagates the status as well, but
    has no buffer to replay. *)
Lemma Legacy_main_no_replay :
  exitStatus (Legacy.main sample_env (sample_run FromDone (WaitExitError 1))) = 1
  /\ stderr (world (Legacy.main sample_env
                      (sample_run FromDone (WaitExitError 1)))) = [].
Proof. split; reflexivity. Qed.

(** C7. A signal taken from the channel makes the program kill the
    wrapped process and exit with status 130, that is 128 plus the number
    of the interrupt signal, whichever of the two subscribed signals it
    was: for the termination signal the status is not 128 + 15. *)
Theorem C7_signal_exit_status env run s :
  setup_ok run ->
  selected run = FromSigChan s ->
  killed (main env run) = true /\
  exitStatus (main env run) = 130 /\
  (s = SIGINT -> exitStatus (main env run) = 128 + signal_number s) /\
  (s = SIGTERM -> exitStatus (main env run) <> 128 + signal_number s).
Proof.
  intros Hs Hsel. rewrite (main_after_setup env run Hs), Hsel. simpl.
  repeat split; intros ->; simpl; lia.
Qed.

Lemma C7_witness :
  let run := sample_run (FromSigChan SIGTERM) WaitNil in
  (setup_ok run /\ selected run = FromSigChan SIGTERM) /\
  killed (main sample_env run) = true /\
  exitStatus (main sample_env run) = 130 /\
  exitStatus (main sample_env run) <> 128 + signal_number SIGTERM.
Proof.
  cbv zeta.
  assert (Hs : setup_ok (sample_run (FromSigChan SIGTERM) WaitNil)).
  { unfold setup_ok. simpl. repeat split; lia. }
  split; [split; [exact Hs | reflexivity] |].
  destruct (C7_signal_exit_status sample_env
              (sample_run (FromSigChan SIGTERM) WaitNil) SIGTERM Hs eq_refl)
    as (Hk & He & _ & Ht).
  split; [exact Hk |]. split; [exact He |]. exact (Ht eq_refl).
Defined.

(** ** The prompt forwarder *)

Lemma ReadString_line ln rest :
  ~ In LF ln -> ReadString LF (ln ++ LF :: rest) = (ln ++ [LF], true).
Proof.
  induction ln as [|c ln IH]; intros Hn; simpl.
  - reflexivity.
  - destruct (Ascii.eqb c LF) eqn:E.
    + apply Ascii.eqb_eq in E. exfalso. apply Hn. left. assumption.
    + rewrite IH; [reflexivity |]. intros Hin. apply Hn. right. assumption.
Qed.

Lemma ReadString_no_line input :
  ~ In LF input -> ReadString LF input = (input, false).
Proof.
  induction input as [|c input IH]; intros Hn; simpl.
  - reflexivity.
  - destruct (Ascii.eqb c LF) eqn:E.
    + apply Ascii.eqb_eq in E. exfalso. apply Hn. left. assumption.
    + rewrite IH; [reflexivity |]. intros Hin. apply Hn. right. assumption.
Qed.

(** C2. When a byte makes the line in progress end with the prompt
    suffix, the program writes the whole line in progress to the display
    (between color codes when colors are on), moves it to the history,
    empties the buffer and starts one forward.  The forward takes one
    line from the user's input, through its line feed, and writes exactly
    that line to the wrapped process's input; when the input ends or
    fails before a line feed, it writes nothing. *)
Theorem C2_prompt_echo_and_forward env c cpn w :
  HasSuffix (lineAcc cpn ++ [c]) prompt_suffix = true ->
  let prompt := lineAcc cpn ++ [c] in
  let r := ProcessChar env c cpn w in
  stderr (snd r) = stderr w ++ [echo_of cpn prompt] /\
  lines (fst r) = lines cpn ++ [prompt] /\
  lineAcc (fst r) = [] /\
  forwards (snd r) = S (forwards w) /\
  waitingForInput (fst r) = true /\
  forall userInput stdinWriter,
    (forall ln rest,
       userInput = ln ++ LF :: rest -> ~ In LF ln ->
       fst (forwardUserInput userInput stdinWriter (fst r))
       = stdinWriter ++ [ln ++ [LF]]) /\
    (~ In LF userInput ->
     forwardUserInput userInput stdinWriter (fst r) = (stdinWriter, fst r)).
Proof.
  intros H prompt r. subst r prompt.
  rewrite (ProcessChar_prompt _ _ _ _ H). cbv zeta. simpl.
  repeat split.
  - intros ln rest -> Hn. unfold forwardUserInput.
    rewrite (ReadString_line _ _ Hn). reflexivity.
  - intros Hn. unfold forwardUserInput.
    rewrite (ReadString_no_line _ Hn). reflexivity.
Qed.

(** The prompt scenario: "Overwrite? [y/N] " is echoed, and the answer
    "y" with its line feed reaches the wrapped process. *)
Lemma C2_witness :
  let cpn := with_lines [] (B "Overwrite? [y/N]") plain_notifier in
  let r := ProcessChar sample_env " " cpn world0 in
  HasSuffix (lineAcc cpn ++ [" "%char]) prompt_suffix = true /\
  stderr (snd r) = [B "Overwrite? [y/N] "] /\
  forwards (snd r) = 1%nat /\
  fst (forwardUserInput (B "y" ++ [LF]) [] (fst r)) = [B "y" ++ [LF]] /\
  fst (forwardUserInput (B "y") [] (fst r)) = [].
Proof.
  cbv zeta.
  destruct (C2_prompt_echo_and_forward sample_env " "
              (with_lines [] (B "Overwrite? [y/N]") plain_notifier) world0
              eq_refl) as (He & _ & _ & Hf & _ & Hfw).
  cbv zeta in He, Hf, Hfw.
  split; [reflexivity |]. split; [exact He |]. split; [exact Hf |].
  split.
  - destruct (Hfw (B "y" ++ [LF]) []) as [H1 _].
    apply (H1 (B "y") [] eq_refl).
    simpl. intros [E | [ ]]. discriminate E.
  - destruct (Hfw (B "y") []) as [_ H2].
    rewrite H2; [reflexivity |].
    simpl. intros [E | [ ]]. discriminate E.
Defined.

(** ** Render throttling *)

Lemma Sub_ge d t u :
  minDuration < d -> ~ (Sub t u < d) -> d <= t - u.
Proof. unfold Sub, minDuration, maxDuration. lia. Qed.

Lemma redraw_times_spaced env cs :
  forall pb w,
    updateDelay pb = 50 * Millisecond ->
    spaced (50 * Millisecond) (lastUpdate pb) (redraw_times env cs pb w).
Proof.
  induction cs as [|c cs IH]; intros pb w Hd; [exact I |].
  simpl redraw_times. rewrite Update_eq. cbv zeta. rewrite Hd.
  destruct (Sub (clock env (ticks w)) (lastUpdate pb) <? 50 * Millisecond)
    eqn:E.
  - simpl fst. simpl snd. rewrite Nat.ltb_irrefl. simpl.
    apply (IH (set_current c pb)). exact Hd.
  - rewrite render_eq. simpl fst. simpl snd. simpl stderr.
    replace (length (stderr w) <? length (stderr w ++ _))%nat with true.
    + simpl. split.
      * apply Sub_ge; [reflexivity |]. apply Z.ltb_ge in E.
        unfold Millisecond in *. lia.
      * apply (IH (set_lastUpdate (clock env (ticks w)) (set_current c pb))).
        exact Hd.
    + symmetry. apply Nat.ltb_lt. rewrite length_app. simpl. lia.
Qed.

(** C5. For a bar whose minimum interval is 50ms: whatever updates
    arrive, each redraw comes at least 50ms after the one before it; an
    update that arrives within 50ms of the last redraw stores the value
    and writes nothing; any other update redraws; and [Finish] sets the
    value to the total and redraws, whatever the time. *)
Theorem C5_render_throttling env pb w :
  updateDelay pb = 50 * Millisecond ->
  (forall cs,
     spaced (50 * Millisecond) (lastUpdate pb) (redraw_times env cs pb w)) /\
  (forall c,
     let now := clock env (ticks w) in
     let r := Update env c pb w in
     current (fst r) = c /\
     (Sub now (lastUpdate pb) < 50 * Millisecond ->
      stderr (snd r) = stderr w /\ lastUpdate (fst r) = lastUpdate pb) /\
     (50 * Millisecond <= Sub now (lastUpdate pb) ->
      stderr (snd r) = stderr w ++ [clear_line; frame_at env (fst r) (tick w)]
      /\ lastUpdate (fst r) = now)) /\
  (let r := Finish env pb w in
   current (fst r) = total pb /\
   stderr (snd r) = stderr w ++ [clear_line; frame_at env (fst r) w; [LF]]).
Proof.
  intros Hd. split; [| split].
  - intros cs. apply redraw_times_spaced. exact Hd.
  - intros c now r. subst r now. rewrite Update_eq. cbv zeta. rewrite Hd.
    destruct (Sub (clock env (ticks w)) (lastUpdate pb) <? 50 * Millisecond)
      eqn:E.
    + apply Z.ltb_lt in E. unfold fst, snd.
      split; [reflexivity |]. split; [intros _; split; reflexivity |].
      intros K. exfalso. lia.
    + apply Z.ltb_ge in E. rewrite render_eq. unfold fst, snd.
      split; [reflexivity |]. split; [intros K; exfalso; lia |].
      intros _. split; reflexivity.
  - rewrite Finish_eq. simpl. split; reflexivity.
Qed.

(** Three updates 20ms, 60ms and 80ms after the bar is made: the first
    and the third redraw, the second is throttled. *)
Lemma C5_witness :
  let r0 := NewProgressBar quick_env (B "clip.mp4") 90 (B "seconds") false
                           world0 in
  updateDelay (fst r0) = 50 * Millisecond /\
  redraw_times quick_env [10; 20; 30] (fst r0) (snd r0)
  = [63800000000020000000; 63800000000080000000] /\
  spaced (50 * Millisecond) (lastUpdate (fst r0))
         (redraw_times quick_env [10; 20; 30] (fst r0) (snd r0)).
Proof.
  cbv zeta. split; [reflexivity |]. split; [vm_compute; reflexivity |].
  apply (C5_render_throttling quick_env
           (fst (NewProgressBar quick_env (B "clip.mp4") 90 (B "seconds")
                                false world0))
           (snd (NewProgressBar quick_env (B "clip.mp4") 90 (B "seconds")
                                false world0))).
  reflexivity.
Defined.

(** ** Measuring the trailing information: [stripANSI] *)

Lemma ansiRe_needs_ESC c s : c <> ESC -> match_len ansiRe (c :: s) = None.
Proof.
  intros Hc. unfold match_len, ansiRe, RSeq. simpl.
  destruct (Ascii.eqb c ESC) eqn:E; [| reflexivity].
  apply Ascii.eqb_eq in E. contradiction.
Qed.

Lemma ansi_keeps repl c s :
  c <> ESC ->
  replace_from ansiRe repl 0 (c :: s) = c :: replace_from ansiRe repl 0 s.
Proof.
  intros Hc. change (replace_from ansiRe repl 0 (c :: s))
    with (match match_len ansiRe (c :: s) with
          | Some (S n) => repl ++ replace_from ansiRe repl n s
          | Some O => repl ++ c :: replace_from ansiRe repl 0 s
          | None => c :: replace_from ansiRe repl 0 s
          end).
  rewrite (ansiRe_needs_ESC _ _ Hc). reflexivity.
Qed.

Lemma ansi_drops_code k s :
  In k info_codes ->
  replace_from ansiRe [] 0 (k ++ s) = replace_from ansiRe [] 0 s.
Proof.
  intros [<- | [<- | [<- | [<- | []]]]]; reflexivity.
Qed.

Lemma unicodeRe_skips_ASCII c s :
  byte_code c < 128 -> match_len unicodeRe (c :: s) = None.
Proof.
  intros Hc. unfold match_len, unicodeRe. simpl.
  destruct (128 <=? byte_code c) eqn:E; [| reflexivity].
  apply Z.leb_le in E. lia.
Qed.

Lemma unicode_keeps repl c s :
  byte_code c < 128 ->
  replace_from unicodeRe repl 0 (c :: s)
  = c :: replace_from unicodeRe repl 0 s.
Proof.
  intros Hc. change (replace_from unicodeRe repl 0 (c :: s))
    with (match match_len unicodeRe (c :: s) with
          | Some (S n) => repl ++ replace_from unicodeRe repl n s
          | Some O => repl ++ c :: replace_from unicodeRe repl 0 s
          | None => c :: replace_from unicodeRe repl 0 s
          end).
  rewrite (unicodeRe_skips_ASCII _ _ Hc). reflexivity.
Qed.

Lemma unicode_blanks_bullet s :
  replace_from unicodeRe (B " ") 0 (bullet ++ s)
  = " "%char :: replace_from unicodeRe (B " ") 0 s.
Proof. reflexivity. Qed.

Lemma ansi_keeps_bullet s :
  replace_from ansiRe [] 0 (bullet ++ s)
  = bullet ++ replace_from ansiRe [] 0 s.
Proof. reflexivity. Qed.

Lemma ansi_info s : info s -> info0 (ReplaceAllString ansiRe s []).
Proof.
  unfold ReplaceAllString. induction 1 as [|c s [Hc Hn] _ IH|s _ IH|k s Hk _ IH].
  - constructor.
  - rewrite (ansi_keeps _ _ _ Hn). constructor; [split |]; assumption.
  - rewrite ansi_keeps_bullet. apply info0_bullet. assumption.
  - rewrite (ansi_drops_code _ _ Hk). assumption.
Qed.

Lemma unicode_info0 t :
  info0 t -> Forall plain (ReplaceAllString unicodeRe t (B " ")).
Proof.
  unfold ReplaceAllString. induction 1 as [|c s [Hc Hn] _ IH|s _ IH].
  - constructor.
  - rewrite (unicode_keeps _ _ _ Hc). constructor; [split |]; assumption.
  - rewrite unicode_blanks_bullet. constructor; [| assumption].
    split; [reflexivity | discriminate].
Qed.

(** On plain text, [stripANSI] changes nothing. *)
Lemma stripANSI_plain u : Forall plain u -> stripANSI u = u.
Proof.
  unfold stripANSI, ReplaceAllString.
  induction 1 as [|c u [Hc Hn] _ IH]; [reflexivity |].
  rewrite (ansi_keeps _ _ _ Hn), (unicode_keeps _ _ _ Hc), IH. reflexivity.
Qed.

(** On a trailing-info string, its result is plain text. *)
Lemma stripANSI_info s : info s -> Forall plain (stripANSI s).
Proof. intros H. apply unicode_info0, ansi_info, H. Qed.

Lemma info_of_plain u : Forall plain u -> info u.
Proof. induction 1; constructor; assumption. Qed.

Lemma info_app a b : info a -> info b -> info (a ++ b).
Proof.
  intros Ha Hb. induction Ha as [|c s Hc _ IH|s _ IH|k s Hk _ IH].
  - exact Hb.
  - rewrite <- app_comm_cons. apply info_plain; assumption.
  - rewrite <- app_assoc. apply info_bullet. assumption.
  - rewrite <- app_assoc. apply info_code; assumption.
Qed.

Ltac plain_chars :=
  repeat (apply Forall_cons; [split; [reflexivity | discriminate] |]);
  try apply Forall_nil.

Lemma uint_chars_plain u : Forall plain (uint_chars u).
Proof. induction u; simpl; plain_chars; assumption. Qed.

Lemma digits_of_plain n : Forall plain (digits_of n).
Proof. apply uint_chars_plain. Qed.

Lemma zero_pad_plain w s : Forall plain s -> Forall plain (zero_pad w s).
Proof.
  intros H. unfold zero_pad. apply Forall_app. split; [| assumption].
  induction (w - length s)%nat; simpl; plain_chars; assumption.
Qed.

Lemma fmt_d_plain n : Forall plain (fmt_d n).
Proof.
  unfold fmt_d. destruct (n <? 0); plain_chars; apply digits_of_plain.
Qed.

Lemma fmt_02d_plain n : Forall plain (fmt_02d n).
Proof.
  unfold fmt_02d.
  destruct (n <? 0); plain_chars; apply zero_pad_plain, digits_of_plain.
Qed.

Lemma Forall_firstn_plain k s : Forall plain s -> Forall plain (firstn k s).
Proof.
  intros H. revert k. induction H; intros [|k]; simpl; constructor; auto.
Qed.

Lemma Forall_skipn_plain k s : Forall plain s -> Forall plain (skipn k s).
Proof.
  intros H. revert k.
  induction H; intros [|k]; simpl; auto using Forall_nil, Forall_cons.
Qed.

Lemma fixed_point_plain prec n : Forall plain (fixed_point prec n).
Proof.
  unfold fixed_point.
  assert (H : Forall plain (zero_pad (S prec) (digits_of n)))
    by apply zero_pad_plain, digits_of_plain.
  destruct prec; [assumption |].
  apply Forall_app. split; [apply Forall_firstn_plain, H |].
  plain_chars. apply Forall_skipn_plain, H.
Qed.

Lemma fmt_f_plain prec f : Forall plain (fmt_f prec f).
Proof.
  unfold fmt_f. destruct (Prim2SF f) as [s|s| |s m e].
  - apply Forall_app. split; [destruct s; plain_chars |].
    apply fixed_point_plain.
  - destruct s; plain_chars.
  - plain_chars.
  - apply Forall_app. split; [destruct s; plain_chars |].
    apply fixed_point_plain.
Qed.

Lemma formatDurationSimple_plain env d :
  Forall plain (formatDurationSimple env d).
Proof.
  unfold formatDurationSimple. destruct (d <? 0); [plain_chars |].
  apply Forall_app. split; [apply fmt_02d_plain |].
  plain_chars. apply fmt_02d_plain.
Qed.

Lemma info_lit u : Forall plain u -> forall s, info s -> info (u ++ s).
Proof. intros Hu s Hs. apply info_app; [apply info_of_plain, Hu | exact Hs]. Qed.

(** The trailing information has that shape. *)
Lemma rightInfo_info env pb elapsed :
  bar_colors_ok pb -> info (rightInfo_of env pb elapsed).
Proof.
  intros Hc. unfold rightInfo_of.
  assert (Hplain : info
    (B " " ++ fmt_f 1 (percentage_of pb) ++ B "%"
       ++ B " " ++ bullet ++ B " "
       ++ fmt_d (current pb) ++ B "/" ++ fmt_d (total pb)
       ++ B " " ++ bullet ++ B " "
       ++ fmt_f 0 (rate_of pb elapsed) ++ B "fps"
       ++ B " " ++ bullet ++ B " ETA "
       ++ formatDurationSimple env (remaining_of env pb elapsed))).
  { repeat first
      [ apply info_bullet
      | apply info_lit;
        [first [ apply fmt_f_plain | apply fmt_d_plain
               | apply formatDurationSimple_plain | plain_chars ] |]
      | apply info_of_plain, formatDurationSimple_plain ]. }
  destruct (useColors pb); [| exact Hplain].
  destruct Hc as [-> | ->]; [exact Hplain |].
  cbv beta iota.
  repeat first
    [ apply info_bullet
    | apply info_code; [simpl; tauto |]
    | apply info_lit;
      [first [ apply fmt_f_plain | apply fmt_d_plain
             | apply formatDurationSimple_plain | plain_chars ] |] ].
  rewrite <- (app_nil_r (Reset NewColors)).
  apply info_code; [simpl; tauto | apply info_nil].
Qed.

(** C6. On the trailing information of any bar the program can have,
    stripping twice gives what stripping once gives. *)
Theorem C6_stripANSI_idempotent env pb elapsed :
  bar_colors_ok pb ->
  stripANSI (stripANSI (rightInfo_of env pb elapsed))
  = stripANSI (rightInfo_of env pb elapsed).
Proof.
  intros Hc. apply stripANSI_plain, stripANSI_info, rightInfo_info, Hc.
Qed.

Lemma NewProgressBar_colors_ok env d t u uc w :
  bar_colors_ok (fst (NewProgressBar env d t u uc w)).
Proof. destruct uc; [right | left]; reflexivity. Qed.

Lemma Update_colors_ok env c pb w :
  bar_colors_ok pb -> bar_colors_ok (fst (Update env c pb w)).
Proof.
  unfold bar_colors_ok.
  destruct (Update_sample env c pb w) as (_ & _ & _ & _ & _ & -> & _).
  tauto.
Qed.

Lemma Finish_colors_ok env pb w :
  bar_colors_ok pb -> bar_colors_ok (fst (Finish env pb w)).
Proof. rewrite Finish_eq. exact (fun H => H). Qed.

(** The colored bar of the frame-unit scenario, 100ms after its start:
    the stripped trailing information is plain text, 40 bytes long. *)
Lemma C6_witness :
  let pb := set_current 1305
              (fst (NewProgressBar sample_env (B "clip.mp4") 2610 (B "frames")
                                   true world0)) in
  let s := rightInfo_of sample_env pb 100000000 in
  bar_colors_ok pb /\
  stripANSI s = B " 50.0%   1305/2610   13050fps   ETA 00:00" /\
  stripANSI (stripANSI s) = stripANSI s.
Proof.
  cbv zeta. split; [right; reflexivity |].
  split; [vm_compute; reflexivity |].
  apply (C6_stripANSI_idempotent sample_env
           (set_current 1305
              (fst (NewProgressBar sample_env (B "clip.mp4") 2610 (B "frames")
                                   true world0)))
           100000000).
  right; reflexivity.
Defined.

(** Outside such strings stripping once may leave an escape sequence
    behind, which a second pass removes. *)
Lemma stripANSI_not_idempotent_in_general :
  let s := ESC :: ESC :: B "[0m[0m" in
  stripANSI s = ESC :: B "[0m" /\ stripANSI (stripANSI s) = [].
Proof. split; vm_compute; reflexivity. Qed.

(** ** The percentage across updates *)

(** C8, refuted as stated: with the total fixed at 90, the position
    lines 00:00:45 and then 00:00:30, both redrawn, take the percentage
    from 50 down to 33.3. *)
Lemma C8_counterexample :
  let r1 := feed sample_env backward_run_1 plain_notifier world0 in
  let r2 := feed sample_env backward_run_2 plain_notifier world0 in
  exists pb1 pb2,
    pbar (fst r1) = Some pb1 /\ pbar (fst r2) = Some pb2 /\
    total pb1 = 90 /\ total pb2 = 90 /\
    current pb1 = 45 /\ current pb2 = 30 /\
    fmt_f 1 (percentage_of pb1) = B "50.0" /\
    fmt_f 1 (percentage_of pb2) = B "33.3" /\
    (percentage_of pb2 <? percentage_of pb1)%float = true /\
    length (stderr (snd r1)) = 2%nat /\ length (stderr (snd r2)) = 4%nat.
Proof.
  cbv zeta.
  destruct (pbar (fst (feed sample_env backward_run_1 plain_notifier world0)))
    as [pb1|] eqn:E1; [| vm_compute in E1; discriminate E1].
  destruct (pbar (fst (feed sample_env backward_run_2 plain_notifier world0)))
    as [pb2|] eqn:E2; [| vm_compute in E2; discriminate E2].
  exists pb1, pb2.
  vm_compute in E1. vm_compute in E2.
  injection E1 as <-. injection E2 as <-.
  repeat split; vm_compute; reflexivity.
Qed.

(** ** Rounding to the nearest integer, ties to even *)

Lemma round_half_even_bounds a b :
  0 < b -> a / b <= round_half_even a b <= a / b + 1.
Proof.
  intros Hb. unfold round_half_even.
  destruct (2 * (a mod b) <? b); [lia |].
  destruct (b <? 2 * (a mod b)); [lia |].
  destruct (Z.even (a / b)); lia.
Qed.

Lemma round_half_even_scale a b c :
  0 < b -> 0 < c -> round_half_even (a * c) (b * c) = round_half_even a b.
Proof.
  intros Hb Hc. unfold round_half_even.
  rewrite Z.div_mul_cancel_r by lia.
  rewrite Z.mul_mod_distr_r by lia.
  replace (2 * (a mod b * c) <? b * c) with (2 * (a mod b) <? b).
  2:{ destruct (2 * (a mod b) <? b) eqn:E; symmetry.
      - apply Z.ltb_lt. apply Z.ltb_lt in E. nia.
      - apply Z.ltb_ge. apply Z.ltb_ge in E. nia. }
  replace (b * c <? 2 * (a mod b * c)) with (b <? 2 * (a mod b)).
  2:{ destruct (b <? 2 * (a mod b)) eqn:E; symmetry.
      - apply Z.ltb_lt. apply Z.ltb_lt in E. nia.
      - apply Z.ltb_ge. apply Z.ltb_ge in E. nia. }
  reflexivity.
Qed.

Lemma round_half_even_mono_num a1 a2 b :
  0 < b -> a1 <= a2 -> round_half_even a1 b <= round_half_even a2 b.
Proof.
  intros Hb Ha.
  assert (Hq : a1 / b <= a2 / b) by (apply Z.div_le_mono; lia).
  destruct (Z.eq_dec (a1 / b) (a2 / b)) as [E | N].
  - assert (Hr : a1 mod b <= a2 mod b).
    { pose proof (Z.div_mod a1 b). pose proof (Z.div_mod a2 b). nia. }
    unfold round_half_even. rewrite <- E.
    destruct (2 * (a1 mod b) <? b) eqn:E1;
      destruct (2 * (a2 mod b) <? b) eqn:E2;
      destruct (b <? 2 * (a1 mod b)) eqn:E3;
      destruct (b <? 2 * (a2 mod b)) eqn:E4;
      destruct (Z.even (a1 / b));
      rewrite ?Z.ltb_lt, ?Z.ltb_ge in *; lia.
  - pose proof (round_half_even_bounds a1 b Hb).
    pose proof (round_half_even_bounds a2 b Hb). lia.
Qed.

(** Monotone in the quotient [a / b]. *)
Lemma round_half_even_mono a1 b1 a2 b2 :
  0 < b1 -> 0 < b2 -> a1 * b2 <= a2 * b1 ->
  round_half_even a1 b1 <= round_half_even a2 b2.
Proof.
  intros H1 H2 H.
  rewrite <- (round_half_even_scale a1 b1 b2), <- (round_half_even_scale a2 b2 b1)
    by assumption.
  rewrite (Z.mul_comm b2 b1).
  apply round_half_even_mono_num; lia.
Qed.

Lemma round_half_even_exact q b : 0 < b -> round_half_even (q * b) b = q.
Proof.
  intros Hb. unfold round_half_even.
  rewrite Z.div_mul, Z.mod_mul by lia.
  replace (2 * 0 <? b) with true by (symmetry; apply Z.ltb_lt; lia).
  reflexivity.
Qed.

(** Between two multiples of [b], the rounding stays between their
    quotients. *)
Lemma round_half_even_range a b lo hi :
  0 < b -> lo * b <= a <= hi * b -> lo <= round_half_even a b <= hi.
Proof.
  intros Hb [Hl Hh]. split.
  - rewrite <- (round_half_even_exact lo b Hb).
    apply round_half_even_mono_num; assumption.
  - rewrite <- (round_half_even_exact hi b Hb).
    apply round_half_even_mono_num; assumption.
Qed.

(** ** The standard library's binary64 operations, on positive numbers *)

Lemma digits2_pos_bounds p :
  2 ^ (Zpos (digits2_pos p) - 1) <= Zpos p < 2 ^ Zpos (digits2_pos p).
Proof.
  induction p as [p IH | p IH |]; simpl digits2_pos;
    [| | simpl; lia];
    rewrite Pos2Z.inj_succ;
    replace (Z.succ (Zpos (digits2_pos p)) - 1)
      with (Z.succ (Zpos (digits2_pos p) - 1)) by lia;
    rewrite !Z.pow_succ_r by lia; lia.
Qed.

Lemma digits2_pos_unique p k :
  2 ^ (k - 1) <= Zpos p < 2 ^ k -> Zpos (digits2_pos p) = k.
Proof.
  intros [Hl Hh]. pose proof (digits2_pos_bounds p) as [Dl Dh].
  assert (Hk : 0 < k).
  { destruct (Z_lt_le_dec 0 k) as [|Hle]; [assumption |].
    destruct (Z.eq_dec k 0) as [-> | Hn]; [simpl in Hh; lia |].
    rewrite Z.pow_neg_r in Hh by lia. lia. }
  assert (H1 : Zpos (digits2_pos p) - 1 < k).
  { apply (Z.pow_lt_mono_r_iff 2); lia. }
  assert (H2 : k - 1 < Zpos (digits2_pos p)).
  { apply (Z.pow_lt_mono_r_iff 2); lia. }
  lia.
Qed.

Lemma shr_1_spec m r s :
  0 <= m ->
  shr_1 (Build_shr_record m r s)
  = Build_shr_record (m / 2) (Z.odd m) (r || s).
Proof.
  intros Hm. rewrite <- Z.div2_div.
  destruct m as [|[p|p|]|]; try reflexivity. lia.
Qed.

Lemma iter_pos_nat {A} (f : A -> A) p x :
  iter_pos f p x = Nat.iter (Pos.to_nat p) f x.
Proof.
  transitivity (Pos.iter f x p).
  - revert x. induction p as [p IH | p IH |]; intros x; simpl.
    + rewrite !IH, <- !Pos.iter_swap. reflexivity.
    + rewrite !IH. reflexivity.
    + reflexivity.
  - apply Pos2Nat.inj_iter.
Qed.

Lemma loc_code_cases N D :
  0 < D ->
  let R := N mod D in
  (R = 0 /\ loc_code N D = (false, false)) \/
  (0 < R /\ 2 * R < D /\ loc_code N D = (false, true)) \/
  (2 * R = D /\ loc_code N D = (true, false)) \/
  (D < 2 * R /\ loc_code N D = (true, true)).
Proof.
  intros HD. cbv zeta. pose proof (Z.mod_pos_bound N D HD) as HR.
  unfold loc_code. generalize dependent (N mod D). intros R HR.
  destruct (R =? 0) eqn:E0.
  - apply Z.eqb_eq in E0. left. auto.
  - apply Z.eqb_neq in E0. right.
    destruct (2 * R ?= D) eqn:C.
    + apply Z.compare_eq in C. right. left. auto.
    + change (2 * R < D) in C. left.
      split; [lia | split; [lia | reflexivity]].
    + change (2 * R > D) in C. right. right. split; [lia | reflexivity].
Qed.

Lemma shr_1_locates N D rec :
  0 <= N -> 0 < D -> locates N D rec -> locates N (D * 2) (shr_1 rec).
Proof.
  intros HN HD [Hm Hc]. destruct rec as [m r s]. simpl in Hm, Hc.
  assert (Hm0 : 0 <= m) by (subst m; apply Z.div_pos; lia).
  rewrite (shr_1_spec _ _ _ Hm0). unfold locates. simpl.
  split; [subst m; apply Z.div_div; lia |].
  assert (HR' : N mod (D * 2) = N mod D + D * (m mod 2)).
  { subst m. apply Z.rem_mul_r; lia. }
  rewrite Zmod_odd in HR'.
  pose proof (Z.mod_pos_bound N D HD) as HR.
  destruct (loc_code_cases N D HD) as [(R0 & C) | [(R0 & R1 & C) | [(R1 & C) | (R1 & C)]]];
    rewrite C in Hc; injection Hc as -> ->;
    destruct (loc_code_cases N (D * 2) ltac:(lia))
      as [(Q0 & C') | [(Q0 & Q1 & C') | [(Q1 & C') | (Q1 & C')]]];
    rewrite C'; destruct (Z.odd m); simpl; try reflexivity; lia.
Qed.

Lemma iter_shr_1_locates N D rec k :
  0 <= N -> 0 < D -> locates N D rec ->
  locates N (D * 2 ^ Z.of_nat k) (Nat.iter k shr_1 rec).
Proof.
  intros HN HD H. induction k as [|k IH].
  - simpl. rewrite Z.mul_1_r. exact H.
  - rewrite Nat2Z.inj_succ, Z.pow_succ_r by lia.
    replace (D * (2 * 2 ^ Z.of_nat k)) with (D * 2 ^ Z.of_nat k * 2) by lia.
    simpl Nat.iter. apply shr_1_locates; [assumption | | exact IH].
    apply Z.mul_pos_pos; [assumption | apply Z.pow_pos_nonneg; lia].
Qed.

(** The location [SFdiv] computes from a remainder. *)
Lemma new_location_locates N D :
  0 <= N -> 0 < D ->
  locates N D (shr_record_of_loc (N / D) (new_location D (N mod D))).
Proof.
  intros HN HD. pose proof (Z.mod_pos_bound N D HD) as HR.
  assert (Hloc : new_location D (N mod D)
                 = if N mod D =? 0 then loc_Exact
                   else loc_Inexact (2 * (N mod D) ?= D)).
  { unfold new_location. destruct (Z.even D) eqn:Ev; [reflexivity |].
    unfold new_location_odd. destruct (N mod D =? 0); [reflexivity |].
    f_equal.
    assert (Hodd : 2 * (N mod D) <> D).
    { intros E. rewrite <- E, Z.even_mul in Ev. discriminate Ev. }
    destruct (2 * (N mod D) + 1 ?= D) eqn:C; symmetry.
    - apply Z.compare_eq in C. apply Z.compare_lt_iff. lia.
    - change (2 * (N mod D) + 1 < D) in C. apply Z.compare_lt_iff. lia.
    - change (2 * (N mod D) + 1 > D) in C. apply Z.compare_gt_iff. lia. }
  rewrite Hloc. unfold locates, loc_code.
  destruct (N mod D =? 0); [split; reflexivity |].
  destruct (2 * (N mod D) ?= D); split; reflexivity.
Qed.

(** Rounding a located quotient is [round_half_even]. *)
Lemma round_nearest_even_locates N D rec :
  0 < D -> locates N D rec ->
  round_nearest_even (shr_m rec) (loc_of_shr_record rec)
  = round_half_even N D.
Proof.
  intros HD [Hm Hc]. destruct rec as [m r s]. simpl in Hm, Hc.
  unfold round_half_even. subst m.
  destruct (loc_code_cases N D HD)
    as [(R0 & C) | [(R0 & R1 & C) | [(R1 & C) | (R1 & C)]]];
    rewrite C in Hc; injection Hc as -> ->;
    cbv [shr_m loc_of_shr_record round_nearest_even].
  - replace (2 * (N mod D) <? D) with true
      by (symmetry; apply Z.ltb_lt; lia). reflexivity.
  - replace (2 * (N mod D) <? D) with true
      by (symmetry; apply Z.ltb_lt; lia). reflexivity.
  - replace (2 * (N mod D) <? D) with false
      by (symmetry; apply Z.ltb_ge; lia).
    replace (D <? 2 * (N mod D)) with false
      by (symmetry; apply Z.ltb_ge; lia).
    reflexivity.
  - replace (2 * (N mod D) <? D) with false
      by (symmetry; apply Z.ltb_ge; lia).
    replace (D <? 2 * (N mod D)) with true
      by (symmetry; apply Z.ltb_lt; lia).
    reflexivity.
Qed.

Lemma fexp_normal e :
  -1074 <= e - 53 -> fexp FloatOps.prec emax e = e - 53.
Proof. unfold fexp, SpecFloat.emin, FloatOps.prec, emax. lia. Qed.

Lemma pow2_pos k : 0 <= k -> 0 < 2 ^ k.
Proof. intros H. apply Z.pow_pos_nonneg; lia. Qed.

Lemma Zdigits2_unique m k :
  2 ^ (k - 1) <= m < 2 ^ k -> Zdigits2 m = k.
Proof.
  intros H. destruct m as [|p|p].
  - destruct (Z_lt_le_dec (k - 1) 0) as [Hn | Hp].
    + destruct (Z.eq_dec k 0) as [-> | Hk]; [reflexivity |].
      rewrite (Z.pow_neg_r 2 k) in H by lia. lia.
    + pose proof (pow2_pos (k - 1) Hp). lia.
  - apply digits2_pos_unique, H.
  - assert (0 <= 2 ^ (k - 1)) by (apply Z.pow_nonneg; lia). lia.
Qed.

(** The shift that brings a mantissa of [53 + n] bits down to 53. *)
Lemma shr_fexp_spec m E l n :
  0 <= n -> 2 ^ (52 + n) <= m < 2 ^ (53 + n) -> -1074 <= E + n ->
  shr_fexp FloatOps.prec emax m E l
  = (Nat.iter (Z.to_nat n) shr_1 (shr_record_of_loc m l), E + n).
Proof.
  intros Hn Hm HE. unfold shr_fexp.
  rewrite (Zdigits2_unique m (53 + n))
    by (replace (53 + n - 1) with (52 + n) by lia; exact Hm).
  rewrite fexp_normal by lia.
  replace (53 + n + E - 53 - E) with n by lia.
  unfold shr. destruct n as [|p|p]; [| | lia].
  - simpl. rewrite Z.add_0_r. reflexivity.
  - rewrite iter_pos_nat. reflexivity.
Qed.

(** The rounding step of the library's multiplication and division. *)
Lemma binary_round_aux_spec N D E n :
  0 < N -> 0 < D -> 0 <= n ->
  2 ^ (52 + n) <= N / D < 2 ^ (53 + n) ->
  -1074 <= E + n -> E + n + 1 <= 971 ->
  binary_round_aux FloatOps.prec emax false (N / D) E
                   (new_location D (N mod D))
  = finite_of (rounded N D E n).
Proof.
  intros HN HD Hn HM HE1 HE2.
  pose proof (pow2_pos n Hn) as Hp.
  unfold binary_round_aux.
  rewrite (shr_fexp_spec _ _ _ n Hn HM HE1).
  assert (Hloc : locates N (D * 2 ^ n)
            (Nat.iter (Z.to_nat n) shr_1
               (shr_record_of_loc (N / D) (new_location D (N mod D))))).
  { rewrite <- (Z2Nat.id n) at 1 by lia.
    apply iter_shr_1_locates; [lia | lia |].
    apply new_location_locates; lia. }
  rewrite (round_nearest_even_locates N (D * 2 ^ n) _ ltac:(nia) Hloc).
  unfold rounded.
  assert (Hb : 2 ^ 52 <= round_half_even N (D * 2 ^ n) <= 2 ^ 53).
  { apply round_half_even_range; [nia |].
    rewrite !Z.pow_add_r in HM by lia.
    pose proof (Z.div_mod N D ltac:(lia)) as Hdm.
    pose proof (Z.mod_pos_bound N D HD) as Hr.
    split; nia. }
  set (m1 := round_half_even N (D * 2 ^ n)) in *.
  destruct (m1 =? 2 ^ 53) eqn:E53.
  - apply Z.eqb_eq in E53. rewrite E53.
    rewrite (shr_fexp_spec (2 ^ 53) (E + n) loc_Exact 1)
      by (try lia; simpl; lia).
    simpl Nat.iter. unfold finite_of. simpl fst. simpl snd.
    replace (E + n + 1 <=? emax - FloatOps.prec) with true
      by (symmetry; apply Z.leb_le; unfold emax, FloatOps.prec; lia).
    reflexivity.
  - apply Z.eqb_neq in E53.
    rewrite (shr_fexp_spec m1 (E + n) loc_Exact 0)
      by (try lia; simpl; lia).
    simpl Nat.iter. rewrite Z.add_0_r.
    unfold finite_of. simpl fst. simpl snd.
    cbv [shr_record_of_loc shr_m].
    destruct m1 as [|p|p]; try (simpl in Hb; lia).
    replace (E + n <=? emax - FloatOps.prec) with true
      by (symmetry; apply Z.leb_le; unfold emax, FloatOps.prec; lia).
    reflexivity.
Qed.

(** ** Rounding to 53 bits preserves the order *)

Lemma rounded_normal N D E n :
  0 < D -> 0 <= n ->
  2 ^ (52 + n) * D <= N < 2 ^ (53 + n) * D ->
  let r := rounded N D E n in
  2 ^ 52 <= fst r < 2 ^ 53 /\ E + n <= snd r <= E + n + 1 /\
  (snd r = E + n + 1 -> fst r = 2 ^ 52).
Proof.
  intros HD Hn HN. pose proof (pow2_pos n Hn) as Hp.
  assert (Hb : 2 ^ 52 <= round_half_even N (D * 2 ^ n) <= 2 ^ 53).
  { apply round_half_even_range; [nia |].
    rewrite !Z.pow_add_r in HN by lia. split; nia. }
  unfold rounded. cbv zeta.
  destruct (round_half_even N (D * 2 ^ n) =? 2 ^ 53) eqn:E53; simpl.
  - lia.
  - apply Z.eqb_neq in E53. lia.
Qed.

Lemma rounded_mono D N1 E1 n1 N2 E2 n2 x1 x2 :
  0 < D -> 0 <= n1 -> 0 <= n2 -> 0 <= x1 -> 0 <= x2 ->
  2 ^ (52 + n1) * D <= N1 < 2 ^ (53 + n1) * D ->
  2 ^ (52 + n2) * D <= N2 < 2 ^ (53 + n2) * D ->
  E1 - x1 = E2 - x2 ->
  N1 * 2 ^ x1 <= N2 * 2 ^ x2 ->
  lex_le (rounded N1 D E1 n1) (rounded N2 D E2 n2).
Proof.
  intros HD Hn1 Hn2 Hx1 Hx2 HN1 HN2 HE Hle.
  pose proof (pow2_pos n1 Hn1) as Hp1. pose proof (pow2_pos n2 Hn2) as Hp2.
  pose proof (pow2_pos x1 Hx1) as Hq1. pose proof (pow2_pos x2 Hx2) as Hq2.
  (* the grids are ordered *)
  assert (Hg : n1 + x1 <= n2 + x2).
  { assert (H : 2 ^ (52 + n1 + x1) < 2 ^ (53 + n2 + x2)).
    { apply (Z.mul_lt_mono_pos_r D); [assumption |].
      replace (52 + n1 + x1) with (52 + n1 + x1) by lia.
      rewrite (Z.pow_add_r 2 (52 + n1) x1), (Z.pow_add_r 2 (53 + n2) x2)
        by lia.
      nia. }
    apply Z.pow_lt_mono_r_iff in H; lia. }
  destruct (rounded_normal N1 D E1 n1 HD Hn1 HN1) as (Hm1 & He1 & Hc1).
  destruct (rounded_normal N2 D E2 n2 HD Hn2 HN2) as (Hm2 & He2 & Hc2).
  destruct (Z.eq_dec (n1 + x1) (n2 + x2)) as [Heq | Hne].
  - (* the same grid *)
    assert (Hm : round_half_even N1 (D * 2 ^ n1)
                 <= round_half_even N2 (D * 2 ^ n2)).
    { apply round_half_even_mono; [nia | nia |].
      assert (HP : 2 ^ x1 * 2 ^ n1 = 2 ^ x2 * 2 ^ n2).
      { rewrite <- !Z.pow_add_r by lia. f_equal. lia. }
      assert (H : N1 * 2 ^ n2 * (2 ^ x1 * 2 ^ n1)
                  <= N2 * 2 ^ n1 * (2 ^ x1 * 2 ^ n1)).
      { replace (N1 * 2 ^ n2 * (2 ^ x1 * 2 ^ n1))
          with (N1 * 2 ^ x1 * (2 ^ n1 * 2 ^ n2)) by ring.
        replace (N2 * 2 ^ n1 * (2 ^ x1 * 2 ^ n1))
          with (N2 * 2 ^ x2 * (2 ^ n1 * 2 ^ n2)) by (rewrite HP; ring).
        apply Z.mul_le_mono_nonneg_r; [nia | exact Hle]. }
      apply Z.mul_le_mono_pos_r in H; [| nia].
      replace (N1 * (D * 2 ^ n2)) with (N1 * 2 ^ n2 * D) by ring.
      replace (N2 * (D * 2 ^ n1)) with (N2 * 2 ^ n1 * D) by ring.
      apply Z.mul_le_mono_nonneg_r; [lia | exact H]. }
    assert (Hb1 : round_half_even N1 (D * 2 ^ n1) <= 2 ^ 53).
    { apply round_half_even_range with (lo := 2 ^ 52); [nia |].
      rewrite !Z.pow_add_r in HN1 by lia. split; nia. }
    assert (Hb2 : round_half_even N2 (D * 2 ^ n2) <= 2 ^ 53).
    { apply round_half_even_range with (lo := 2 ^ 52); [nia |].
      rewrite !Z.pow_add_r in HN2 by lia. split; nia. }
    unfold lex_le, rounded in *. cbv zeta in *.
    destruct (round_half_even N1 (D * 2 ^ n1) =? 2 ^ 53) eqn:A1;
      destruct (round_half_even N2 (D * 2 ^ n2) =? 2 ^ 53) eqn:A2;
      rewrite ?Z.eqb_eq, ?Z.eqb_neq in *; simpl in *; lia.
  - (* a coarser grid for the second *)
    unfold lex_le. lia.
Qed.

(** ** Conversion, division, multiplication and comparison *)

Lemma Pos_iter_xO m k : Zpos (Pos.iter xO m k) = Zpos m * 2 ^ Zpos k.
Proof.
  rewrite Pos2Nat.inj_iter, <- (Z2Nat.id (Zpos k)) by lia.
  rewrite Z2Nat.inj_pos.
  induction (Pos.to_nat k) as [|j IH]; [simpl; lia |].
  rewrite Nat2Z.inj_succ, Z.pow_succ_r by lia.
  simpl nat_rect. rewrite Pos2Z.inj_xO, IH. ring.
Qed.

Lemma round_exact_spec m E :
  2 ^ 52 <= m < 2 ^ 53 -> -1074 <= E -> E + 1 <= 971 ->
  binary_round_aux FloatOps.prec emax false m E loc_Exact
  = finite_of (m, E).
Proof.
  intros Hm HE1 HE2.
  pose proof (binary_round_aux_spec m 1 E 0) as H.
  rewrite Z.div_1_r, Z.mod_1_r, Z.add_0_r in H.
  change (new_location 1 0) with loc_Exact in H.
  rewrite H by (try lia; simpl; lia).
  unfold rounded. rewrite Z.add_0_r.
  change (1 * 2 ^ 0) with 1.
  replace (round_half_even m 1) with m
    by (symmetry; rewrite <- (Z.mul_1_r m) at 1;
        apply round_half_even_exact; lia).
  replace (m =? 2 ^ 53) with false by (symmetry; apply Z.eqb_neq; lia).
  reflexivity.
Qed.

(** [float64(c)] for a positive integer of [d <= 53] bits. *)
Lemma binary_normalize_int c d :
  2 ^ (d - 1) <= c < 2 ^ d -> 0 < d <= 53 ->
  binary_normalize FloatOps.prec emax c 0 false
  = finite_of (c * 2 ^ (53 - d), d - 53).
Proof.
  intros Hc Hd.
  assert (Hpos : 0 < c) by (pose proof (pow2_pos (d - 1)); lia).
  destruct c as [|p|p]; try lia.
  unfold binary_normalize, binary_round.
  rewrite Z.add_0_r, (digits2_pos_unique p d Hc), fexp_normal by lia.
  assert (Hm : 2 ^ 52 <= Zpos p * 2 ^ (53 - d) < 2 ^ 53).
  { assert (A : 2 ^ (d - 1) * 2 ^ (53 - d) = 2 ^ 52)
      by (rewrite <- Z.pow_add_r by lia; f_equal; lia).
    assert (A' : 2 ^ d * 2 ^ (53 - d) = 2 ^ 53)
      by (rewrite <- Z.pow_add_r by lia; f_equal; lia).
    pose proof (pow2_pos (53 - d) ltac:(lia)).
    rewrite <- A, <- A'. nia. }
  unfold shl_align. rewrite Z.sub_0_r.
  destruct (d - 53) as [|q|q] eqn:Ed; try lia.
  - replace (53 - d) with 0 in * by lia. rewrite Z.mul_1_r in *.
    apply round_exact_spec; lia.
  - replace (53 - d) with (Zpos q) in * by lia.
    rewrite <- Pos_iter_xO in *.
    apply round_exact_spec; lia.
Qed.

(** Division of two positive numbers with full mantissas. *)
Lemma SFdiv_normal m1 e1 m2 e2 :
  2 ^ 52 <= m1 < 2 ^ 53 -> 2 ^ 52 <= m2 < 2 ^ 53 ->
  -1021 <= e1 - e2 <= 1022 ->
  let N := m1 * 2 ^ 53 in
  let n := if N / m2 <? 2 ^ 53 then 0 else 1 in
  (2 ^ (52 + n) * m2 <= N < 2 ^ (53 + n) * m2) /\
  SF64div (finite_of (m1, e1)) (finite_of (m2, e2))
  = finite_of (rounded N m2 (e1 - e2 - 53) n).
Proof.
  intros H1 H2 He N n.
  assert (HN : 0 < N) by (unfold N; lia).
  assert (Hq : 2 ^ 52 <= N / m2 < 2 ^ 54).
  { split.
    - apply Z.div_le_lower_bound; [lia |]. unfold N. nia.
    - apply Z.div_lt_upper_bound; [lia |]. unfold N. nia. }
  assert (Hn : 0 <= n <= 1) by (unfold n; destruct (N / m2 <? 2 ^ 53); lia).
  assert (HM : 2 ^ (52 + n) <= N / m2 < 2 ^ (53 + n)).
  { unfold n. destruct (N / m2 <? 2 ^ 53) eqn:C.
    - apply Z.ltb_lt in C. simpl. lia.
    - apply Z.ltb_ge in C. simpl. lia. }
  split.
  { pose proof (Z.div_mod N m2 ltac:(lia)) as Hdm.
    pose proof (Z.mod_pos_bound N m2 ltac:(lia)) as Hr. nia. }
  destruct m1 as [|p1|p1]; try lia. destruct m2 as [|p2|p2]; try lia.
  unfold SF64div, SFdiv, finite_of. simpl fst. simpl snd.
  rewrite !Pos2Z.id. unfold SFdiv_core_binary.
  rewrite (Zdigits2_unique (Zpos p1) 53), (Zdigits2_unique (Zpos p2) 53)
    by (simpl; lia).
  replace (53 + e1 - (53 + e2)) with (e1 - e2) by lia.
  rewrite fexp_normal by lia.
  replace (Z.min (e1 - e2 - 53) (e1 - e2)) with (e1 - e2 - 53) by lia.
  replace (e1 - e2 - (e1 - e2 - 53)) with 53 by lia.
  rewrite Z.shiftl_mul_pow2 by lia. fold N.
  assert (Hdiv : Z.div_eucl N (Zpos p2) = (N / Zpos p2, N mod Zpos p2)).
  { unfold Z.div, Z.modulo. destruct (Z.div_eucl N (Zpos p2)); reflexivity. }
  rewrite Hdiv. cbv beta iota.
  change (xorb false false) with false.
  apply binary_round_aux_spec; lia.
Qed.

(** Multiplication of two positive numbers with full mantissas. *)
Lemma SFmul_normal m1 e1 m2 e2 :
  2 ^ 52 <= m1 < 2 ^ 53 -> 2 ^ 52 <= m2 < 2 ^ 53 ->
  -1074 - 52 <= e1 + e2 -> e1 + e2 + 54 <= 971 ->
  let N := m1 * m2 in
  let n := if N <? 2 ^ 105 then 52 else 53 in
  (2 ^ (52 + n) * 1 <= N < 2 ^ (53 + n) * 1) /\
  SF64mul (finite_of (m1, e1)) (finite_of (m2, e2))
  = finite_of (rounded N 1 (e1 + e2) n).
Proof.
  intros H1 H2 He1 He2 N n.
  assert (HN : 2 ^ 104 <= N < 2 ^ 106).
  { unfold N. change (2 ^ 104) with (2 ^ 52 * 2 ^ 52).
    change (2 ^ 106) with (2 ^ 53 * 2 ^ 53). nia. }
  assert (Hn : 52 <= n <= 53) by (unfold n; destruct (N <? 2 ^ 105); lia).
  assert (HM : 2 ^ (52 + n) <= N < 2 ^ (53 + n)).
  { unfold n. destruct (N <? 2 ^ 105) eqn:C.
    - apply Z.ltb_lt in C. simpl. lia.
    - apply Z.ltb_ge in C. simpl. lia. }
  split; [lia |].
  destruct m1 as [|p1|p1]; try lia. destruct m2 as [|p2|p2]; try lia.
  unfold SF64mul, SFmul, finite_of. simpl fst. simpl snd.
  rewrite !Pos2Z.id. change (xorb false false) with false.
  rewrite Pos2Z.inj_mul. fold N.
  pose proof (binary_round_aux_spec N 1 (e1 + e2) n) as H.
  rewrite Z.div_1_r, Z.mod_1_r in H.
  change (new_location 1 0) with loc_Exact in H.
  apply H; lia.
Qed.

Lemma SFleb_lex x y :
  0 < fst x -> 0 < fst y -> lex_le x y ->
  SFleb (finite_of x) (finite_of y) = true.
Proof.
  destruct x as [m1 e1], y as [m2 e2]. simpl. intros H1 H2 Hle.
  destruct m1 as [|p1|p1]; try lia. destruct m2 as [|p2|p2]; try lia.
  unfold lex_le in Hle. simpl in Hle.
  unfold SFleb, SFcompare, finite_of. simpl fst. simpl snd.
  rewrite !Pos2Z.id.
  destruct (e1 ?= e2) eqn:C.
  - apply Z.compare_eq in C.
    change (Pos.compare_cont Eq p1 p2) with (Pos.compare p1 p2).
    destruct (Pos.compare p1 p2) eqn:Cp; try reflexivity.
    change (Zpos p1 > Zpos p2) in Cp. lia.
  - reflexivity.
  - change (e1 > e2) in C. lia.
Qed.

(** ** The percentage is monotone in the current value *)

Lemma int_pair_normal c :
  0 < c < 2 ^ 53 ->
  2 ^ 52 <= fst (int_pair c) < 2 ^ 53 /\ -52 <= snd (int_pair c) <= 0 /\
  binary_normalize FloatOps.prec emax c 0 false = finite_of (int_pair c).
Proof.
  intros Hc. unfold int_pair. cbv zeta.
  pose proof (Z.log2_spec c ltac:(lia)) as Hl.
  pose proof (Z.log2_nonneg c) as Hn.
  assert (Hd : Z.log2 c < 53) by (apply Z.log2_lt_pow2; lia).
  assert (Hcd : 2 ^ (Z.log2 c + 1 - 1) <= c < 2 ^ (Z.log2 c + 1)).
  { replace (Z.log2 c + 1 - 1) with (Z.log2 c) by lia.
    replace (Z.log2 c + 1) with (Z.succ (Z.log2 c)) by lia. exact Hl. }
  remember (Z.log2 c + 1) as d eqn:Ed.
  assert (A : 2 ^ (d - 1) * 2 ^ (53 - d) = 2 ^ 52)
    by (rewrite <- Z.pow_add_r by lia; f_equal; lia).
  assert (A' : 2 ^ d * 2 ^ (53 - d) = 2 ^ 53)
    by (rewrite <- Z.pow_add_r by lia; f_equal; lia).
  pose proof (pow2_pos (53 - d) ltac:(lia)).
  cbn [fst snd].
  split; [rewrite <- A, <- A'; nia |]. split; [lia |].
  apply binary_normalize_int; lia.
Qed.

Lemma valid_normal x :
  2 ^ 52 <= fst x < 2 ^ 53 -> -1074 <= snd x <= 971 ->
  valid_binary (finite_of x) = true.
Proof.
  destruct x as [m e]. simpl. intros Hm He.
  destruct m as [|p|p]; try lia.
  unfold finite_of, valid_binary, SpecFloat.valid_binary, bounded,
    canonical_mantissa.
  cbn [fst snd]. rewrite Pos2Z.id.
  rewrite (digits2_pos_unique p 53) by (simpl; lia).
  rewrite fexp_normal by lia.
  replace (53 + e - 53 =? e) with true by (symmetry; apply Z.eqb_eq; lia).
  replace (e <=? emax - FloatOps.prec) with true
    by (symmetry; apply Z.leb_le; unfold emax, FloatOps.prec; lia).
  reflexivity.
Qed.

Lemma Prim2SF_float_of_int c :
  0 < c < 2 ^ 53 -> Prim2SF (float_of_int c) = finite_of (int_pair c).
Proof.
  intros Hc. destruct (int_pair_normal c Hc) as (Hm & He & Hn).
  unfold float_of_int. rewrite Hn.
  apply Prim2SF_SF2Prim, valid_normal; lia.
Qed.

Lemma Prim2SF_float_of_0 : Prim2SF (float_of_int 0) = S754_zero false.
Proof. reflexivity. Qed.

Lemma Prim2SF_100 : Prim2SF 100%float = finite_of (100 * 2 ^ 46, -46).
Proof. reflexivity. Qed.

Lemma quotient_pair_spec c t :
  0 < c < 2 ^ 53 -> 0 < t < 2 ^ 53 ->
  let q := quotient_pair c t in
  2 ^ 52 <= fst q < 2 ^ 53 /\ -106 <= snd q <= 1 /\
  Prim2SF (float_of_int c / float_of_int t)%float = finite_of q.
Proof.
  intros Hc Ht.
  destruct (int_pair_normal c Hc) as (Hmc & Hec & _).
  destruct (int_pair_normal t Ht) as (Hmt & Het & _).
  rewrite div_spec, (Prim2SF_float_of_int c Hc), (Prim2SF_float_of_int t Ht).
  unfold quotient_pair. cbv zeta.
  destruct (int_pair c) as [mc ec], (int_pair t) as [mt et].
  cbn [fst snd] in *.
  destruct (SFdiv_normal mc ec mt et Hmc Hmt ltac:(lia)) as [Hb Hd].
  cbv zeta in Hb, Hd.
  set (N := mc * 2 ^ 53) in *.
  set (n := if N / mt <? 2 ^ 53 then 0 else 1) in *.
  assert (Hn : 0 <= n <= 1) by (unfold n; destruct (N / mt <? 2 ^ 53); lia).
  destruct (rounded_normal N mt (ec - et - 53) n ltac:(lia) ltac:(lia) Hb)
    as (Hm & He & _).
  split; [exact Hm |]. split; [lia | exact Hd].
Qed.

Lemma times_100_pair_spec q x :
  2 ^ 52 <= fst q < 2 ^ 53 -> -106 <= snd q <= 1 ->
  Prim2SF x = finite_of q ->
  0 < fst (times_100_pair q) /\
  Prim2SF (x * 100)%float = finite_of (times_100_pair q).
Proof.
  intros Hm He Hx. rewrite mul_spec, Hx, Prim2SF_100.
  destruct q as [m e]. cbn [fst snd] in *.
  destruct (SFmul_normal m e (100 * 2 ^ 46) (-46) Hm ltac:(simpl; lia)
                         ltac:(lia) ltac:(lia)) as [Hb Hd].
  cbv zeta in Hb, Hd. unfold times_100_pair. cbv zeta.
  cbn [fst snd].
  set (N := m * (100 * 2 ^ 46)) in *.
  set (n := if N <? 2 ^ 105 then 52 else 53) in *.
  assert (Hn : 52 <= n <= 53) by (unfold n; destruct (N <? 2 ^ 105); lia).
  destruct (rounded_normal N 1 (e + -46) n ltac:(lia) ltac:(lia) Hb)
    as (Hm' & _).
  split; [lia | exact Hd].
Qed.

Lemma quotient_pair_mono a b t :
  0 < a <= b -> b < 2 ^ 53 -> 0 < t < 2 ^ 53 ->
  lex_le (quotient_pair a t) (quotient_pair b t).
Proof.
  intros Hab Hb Ht.
  destruct (int_pair_normal a ltac:(lia)) as (Hma & Hea & _).
  destruct (int_pair_normal b ltac:(lia)) as (Hmb & Heb & _).
  destruct (int_pair_normal t Ht) as (Hmt & Het & _).
  unfold quotient_pair. cbv zeta.
  destruct (SFdiv_normal _ (snd (int_pair a)) _ (snd (int_pair t)) Hma Hmt
              ltac:(lia)) as [Ba _].
  destruct (SFdiv_normal _ (snd (int_pair b)) _ (snd (int_pair t)) Hmb Hmt
              ltac:(lia)) as [Bb _].
  cbv zeta in Ba, Bb.
  pose proof (Z.log2_nonneg a) as La. pose proof (Z.log2_nonneg b) as Lb.
  assert (Lab : Z.log2 a <= Z.log2 b) by (apply Z.log2_le_mono; lia).
  assert (La53 : Z.log2 a < 53) by (apply Z.log2_lt_pow2; lia).
  assert (Lb53 : Z.log2 b < 53) by (apply Z.log2_lt_pow2; lia).
  apply rounded_mono with (x1 := Z.log2 a) (x2 := Z.log2 b);
    try assumption; try lia.
  - match goal with |- 0 <= (if ?c then _ else _) => destruct c; lia end.
  - match goal with |- 0 <= (if ?c then _ else _) => destruct c; lia end.
  - unfold int_pair. cbn [fst snd]. lia.
  - unfold int_pair. cbn [fst snd].
    assert (Pa : 2 ^ (53 - (Z.log2 a + 1)) * 2 ^ 53 * 2 ^ Z.log2 a = 2 ^ 105)
      by (rewrite <- !Z.pow_add_r by lia; f_equal; lia).
    assert (Pb : 2 ^ (53 - (Z.log2 b + 1)) * 2 ^ 53 * 2 ^ Z.log2 b = 2 ^ 105)
      by (rewrite <- !Z.pow_add_r by lia; f_equal; lia).
    replace (a * 2 ^ (53 - (Z.log2 a + 1)) * 2 ^ 53 * 2 ^ Z.log2 a)
      with (a * (2 ^ (53 - (Z.log2 a + 1)) * 2 ^ 53 * 2 ^ Z.log2 a)) by ring.
    replace (b * 2 ^ (53 - (Z.log2 b + 1)) * 2 ^ 53 * 2 ^ Z.log2 b)
      with (b * (2 ^ (53 - (Z.log2 b + 1)) * 2 ^ 53 * 2 ^ Z.log2 b)) by ring.
    rewrite Pa, Pb. lia.
Qed.

Lemma times_100_pair_mono q1 q2 :
  2 ^ 52 <= fst q1 < 2 ^ 53 -> 2 ^ 52 <= fst q2 < 2 ^ 53 ->
  lex_le q1 q2 -> lex_le (times_100_pair q1) (times_100_pair q2).
Proof.
  destruct q1 as [m1 e1], q2 as [m2 e2]. cbn [fst snd].
  intros H1 H2 Hle. unfold lex_le in Hle. simpl in Hle.
  unfold times_100_pair. cbv zeta. cbn [fst snd].
  destruct (SFmul_normal m1 0 (100 * 2 ^ 46) 0 H1 ltac:(simpl; lia)
              ltac:(lia) ltac:(lia)) as [B1 _].
  destruct (SFmul_normal m2 0 (100 * 2 ^ 46) 0 H2 ltac:(simpl; lia)
              ltac:(lia) ltac:(lia)) as [B2 _].
  cbv zeta in B1, B2.
  apply rounded_mono with (x1 := 0) (x2 := e2 - e1);
    try assumption; try lia.
  - match goal with |- 0 <= (if ?c then _ else _) => destruct c; lia end.
  - match goal with |- 0 <= (if ?c then _ else _) => destruct c; lia end.
  - destruct Hle as [Hlt | [-> Hm]].
    + assert (P : 2 <= 2 ^ (e2 - e1)).
      { change 2 with (2 ^ 1) at 1. apply Z.pow_le_mono_r; lia. }
      simpl (2 ^ 0). nia.
    + replace (e2 - e2) with 0 by lia. simpl (2 ^ 0). nia.
Qed.

(** For a fixed positive total, the percentage the renderer computes
    does not decrease when the current value does not. *)
Lemma percentage_float_mono a b t :
  0 <= a <= b -> b < 2 ^ 53 -> 0 < t < 2 ^ 53 ->
  (percentage_float a t <=? percentage_float b t)%float = true.
Proof.
  intros Hab Hb Ht. unfold percentage_float. rewrite leb_spec.
  assert (Hzero : forall x, Prim2SF x = finite_of (int_pair t) ->
            Prim2SF (float_of_int 0 / x * 100)%float = S754_zero false).
  { intros x Hx. rewrite mul_spec, div_spec, Hx, Prim2SF_100. reflexivity. }
  assert (Hpos : forall c, 0 < c < 2 ^ 53 ->
            0 < fst (times_100_pair (quotient_pair c t)) /\
            Prim2SF (float_of_int c / float_of_int t * 100)%float
            = finite_of (times_100_pair (quotient_pair c t))).
  { intros c Hc.
    destruct (quotient_pair_spec c t Hc Ht) as (Hm & He & Hq).
    apply times_100_pair_spec; assumption. }
  destruct (Z.eq_dec b 0) as [Hb0 | Hb0].
  - assert (a = 0) by lia. subst a b.
    rewrite (Hzero _ (Prim2SF_float_of_int t Ht)). reflexivity.
  - destruct (Hpos b ltac:(lia)) as [Pb Eb]. rewrite Eb.
    destruct (Z.eq_dec a 0) as [-> | Ha0].
    + rewrite (Hzero _ (Prim2SF_float_of_int t Ht)).
      destruct (times_100_pair (quotient_pair b t)) as [[|p|p] e];
        simpl in Pb; try lia; reflexivity.
    + destruct (Hpos a ltac:(lia)) as [Pa Ea]. rewrite Ea.
      apply SFleb_lex; try assumption.
      destruct (quotient_pair_spec a t ltac:(lia) Ht) as (Hma & _).
      destruct (quotient_pair_spec b t ltac:(lia) Ht) as (Hmb & _).
      apply times_100_pair_mono; try assumption.
      apply quotient_pair_mono; lia.
Qed.

Lemma percentage_of_float pb :
  total pb <> 0 ->
  percentage_of pb = percentage_float (current pb) (total pb).
Proof.
  intros H. unfold percentage_of, percentage_float.
  apply Z.eqb_neq in H. rewrite H. reflexivity.
Qed.

(** C8, as amended.  For a fixed total, the percentage does not decrease
    from one update to the next when the value passed to the update (the
    reported position, scaled by the frame rate) does not decrease.  The
    renderer keeps whatever value the latest update brings, so a smaller
    value lowers the percentage. *)
Theorem C8_percentage_monotone_in_current env pb w c1 c2 :
  0 <= total pb < 2 ^ 53 -> 0 <= c1 <= c2 -> c2 < 2 ^ 53 ->
  let r1 := Update env c1 pb w in
  let r2 := Update env c2 (fst r1) (snd r1) in
  total (fst r1) = total pb /\ total (fst r2) = total pb /\
  current (fst r1) = c1 /\ current (fst r2) = c2 /\
  (percentage_of (fst r1) <=? percentage_of (fst r2))%float = true.
Proof.
  intros Ht Hc Hc2 r1 r2.
  destruct (Update_sample env c1 pb w) as (C1 & T1 & _).
  destruct (Update_sample env c2 (fst r1) (snd r1)) as (C2 & T2 & _).
  cbv zeta in C1, T1, C2, T2. fold r1 in C1, T1. fold r2 in C2, T2.
  rewrite T1 in T2.
  split; [exact T1 |]. split; [exact T2 |].
  split; [exact C1 |]. split; [exact C2 |].
  destruct (Z.eq_dec (total pb) 0) as [Hz | Hnz].
  - unfold percentage_of. rewrite T1, T2, Hz. reflexivity.
  - rewrite !percentage_of_float by congruence.
    rewrite C1, C2, T1, T2. apply percentage_float_mono; lia.
Qed.

Lemma C8_witness :
  let r0 := NewProgressBar sample_env (B "clip.mp4") 90 (B "seconds") false
                           world0 in
  let r1 := Update sample_env 30 (fst r0) (snd r0) in
  let r2 := Update sample_env 45 (fst r1) (snd r1) in
  (0 <= total (fst r0) < 2 ^ 53 /\ 0 <= 30 <= 45 /\ 45 < 2 ^ 53) /\
  total (fst r2) = 90 /\
  fmt_f 1 (percentage_of (fst r1)) = B "33.3" /\
  fmt_f 1 (percentage_of (fst r2)) = B "50.0" /\
  (percentage_of (fst r1) <=? percentage_of (fst r2))%float = true.
Proof.
  cbv zeta.
  split; [simpl; lia |].
  split; [reflexivity |].
  split; [vm_compute; reflexivity |].
  split; [vm_compute; reflexivity |].
  apply (C8_percentage_monotone_in_current sample_env
           (fst (NewProgressBar sample_env (B "clip.mp4") 90 (B "seconds")
                                false world0))
           (snd (NewProgressBar sample_env (B "clip.mp4") 90 (B "seconds")
                                false world0)) 30 45);
    simpl; lia.
Defined.

(** ** The variant without input forwarding *)

Lemma progress_stderrBuffer env ln b cpn w :
  progress env ln (with_stderrBuffer b cpn) w
  = (with_stderrBuffer b (fst (progress env ln cpn w)),
     snd (progress env ln cpn w)).
Proof.
  unfold progress.
  change (duration (with_stderrBuffer b cpn)) with (duration cpn).
  change (fps (with_stderrBuffer b cpn)) with (fps cpn).
  change (pbar (with_stderrBuffer b cpn)) with (pbar cpn).
  change (source (with_stderrBuffer b cpn)) with (source cpn).
  change (cpn_useColors (with_stderrBuffer b cpn)) with (cpn_useColors cpn).
  destruct (FindStringSubmatch progressRx 3 ln)
    as [[|m0 [|m1 [|m2 [|m3 [|? ?]]]]]|]; try reflexivity.
  destruct (0 <? fps cpn); unfold bind, ret;
    destruct (pbar cpn);
    repeat match goal with
           | |- context [NewProgressBar ?e ?d ?t ?u ?c ?w] =>
             destruct (NewProgressBar e d t u c w)
           | |- context [Update ?e ?c ?p ?w] => destruct (Update e c p w)
           end; reflexivity.
Qed.

Lemma Legacy_ProcessChar_terminator env c cpn w :
  is_terminator c = true ->
  Legacy.ProcessChar env c cpn w
  = let ln := lineAcc cpn in
    progress env ln
      (with_facts
         (if duration cpn =? 0 then getDuration ln else duration cpn)
         (match source cpn with [] => getSource ln | s => s end)
         (if fps cpn =? 0 then getFPS env ln else fps cpn)
         (with_lines (lines cpn ++ [ln]) [] cpn)) w.
Proof. intros H. unfold Legacy.ProcessChar. rewrite H. reflexivity. Qed.

Lemma Legacy_ProcessChar_prompt env c cpn w :
  HasSuffix (lineAcc cpn ++ [c]) prompt_suffix = true ->
  Legacy.ProcessChar env c cpn w
  = let prompt := lineAcc cpn ++ [c] in
    (with_lines (lines cpn ++ [prompt]) [] cpn,
     {| stderr := stderr w ++ [echo_of cpn prompt];
        ticks := ticks w; sizeQueries := sizeQueries w;
        forwards := forwards w |}).
Proof.
  intros H. unfold Legacy.ProcessChar, echo_of.
  rewrite (prompt_byte_not_terminator _ _ H). simpl.
  rewrite H. unfold bind, Fprint, ret, newline.
  destruct (cpn_useColors cpn), (cpn_colors cpn); destruct cpn; reflexivity.
Qed.

Lemma Legacy_ProcessChar_plain env c cpn w :
  is_terminator c = false ->
  HasSuffix (lineAcc cpn ++ [c]) prompt_suffix = false ->
  Legacy.ProcessChar env c cpn w
  = (with_lines (lines cpn) (lineAcc cpn ++ [c]) cpn, w).
Proof.
  intros H1 H2. unfold Legacy.ProcessChar. rewrite H1. simpl. rewrite H2.
  reflexivity.
Qed.

(** On everything the earlier variant has, the two variants of
    [ProcessChar] agree: same lines, same facts, same bar, same writes
    to the display, same use of the clock and of the terminal. *)
Lemma Legacy_ProcessChar_agrees env c cpn w :
  let r := ProcessChar env c cpn w in
  let r' := Legacy.ProcessChar env c cpn w in
  with_waitingForInput (waitingForInput cpn)
    (with_stderrBuffer (stderrBuffer cpn) (fst r)) = fst r' /\
  stderr (snd r) = stderr (snd r') /\
  ticks (snd r) = ticks (snd r') /\
  sizeQueries (snd r) = sizeQueries (snd r').
Proof.
  cbv zeta.
  destruct (is_terminator c) eqn:Ht.
  - rewrite (ProcessChar_terminator _ _ _ _ Ht),
      (Legacy_ProcessChar_terminator _ _ _ _ Ht).
    cbv zeta.
    change (with_facts ?d ?s ?f
              (with_lines ?l ?a (with_stderrBuffer ?b cpn)))
      with (with_stderrBuffer b (with_facts d s f (with_lines l a cpn))).
    rewrite progress_stderrBuffer. cbn [fst snd].
    match goal with
    | |- context [progress ?e ?l ?x ?w] =>
      destruct (progress_fields e l x w)
        as (_ & _ & _ & _ & _ & Hb & Hw & _);
      destruct (progress e l x w) as [cpn' w']
    end.
    cbn [fst snd] in *. simpl in Hb, Hw.
    repeat split.
    destruct cpn'; simpl in *. rewrite Hb, Hw. reflexivity.
  - destruct (HasSuffix (lineAcc cpn ++ [c]) prompt_suffix) eqn:Hp.
    + rewrite (ProcessChar_prompt _ _ _ _ Hp),
        (Legacy_ProcessChar_prompt _ _ _ _ Hp).
      destruct cpn; repeat split.
    + rewrite (ProcessChar_plain _ _ _ _ Ht Hp),
        (Legacy_ProcessChar_plain _ _ _ _ Ht Hp).
      destruct cpn; repeat split.
Qed.

(* ================================================================== *)
(** * Further properties of the renderer *)
(* ================================================================== *)

(** ** The description *)

(** X1.  The description shown left of the bar takes at most 30 bytes: a
    name of up to 30 bytes is shown as it is, a longer one is cut to its
    first 27 bytes followed by three dots; cutting twice changes nothing
    more. *)
Theorem handleFilename_at_most_30 filename :
  len (handleFilename filename) <= 30 /\
  (len filename <= 30 -> handleFilename filename = filename) /\
  (30 < len filename ->
   handleFilename filename = firstn 27 filename ++ B "..." /\
   len (handleFilename filename) = 30) /\
  handleFilename (handleFilename filename) = handleFilename filename.
Proof.
  unfold handleFilename, len.
  destruct (30 <? Z.of_nat (length filename)) eqn:E.
  - apply Z.ltb_lt in E.
    assert (L : length (firstn 27 filename ++ B "...") = 30%nat).
    { rewrite length_app, length_firstn.
      change (length (B "...")) with 3%nat. lia. }
    rewrite L.
    replace (30 <? Z.of_nat 30) with false by reflexivity.
    repeat split; try lia; reflexivity.
  - rewrite E. apply Z.ltb_ge in E.
    repeat split; try lia; reflexivity.
Qed.

(** ** The bar *)

Lemma map_constant {A C} (f : A -> C) c l :
  (forall x, In x l -> f x = c) -> map f l = repeat c (length l).
Proof.
  induction l as [|a l IH]; simpl; intros H; [reflexivity |].
  rewrite H by auto. f_equal. apply IH. auto.
Qed.

Lemma bar_cells_edge done edge rest filled total :
  0 <= filled < total ->
  bar_cells done edge rest filled total
  = cells filled done ++ edge ++ cells (total - filled - 1) rest.
Proof.
  intros H. unfold bar_cells, cells.
  set (f := fun i : nat => _).
  set (n := Z.to_nat filled). set (k := Z.to_nat (total - filled - 1)).
  replace (Z.to_nat total) with (n + S k)%nat by lia.
  assert (E1 : map f (seq 0 n) = repeat done n).
  { rewrite (map_constant f done); [rewrite length_seq; reflexivity |].
    intros x Hx. apply in_seq in Hx. unfold f.
    replace (Z.of_nat x <? filled) with true
      by (symmetry; apply Z.ltb_lt; lia).
    reflexivity. }
  assert (E2 : f n = edge).
  { unfold f. replace (Z.of_nat n) with filled by lia.
    rewrite Z.ltb_irrefl, Z.eqb_refl.
    replace (filled <? total) with true by (symmetry; apply Z.ltb_lt; lia).
    reflexivity. }
  assert (E3 : map f (seq (S n) k) = repeat rest k).
  { rewrite (map_constant f rest); [rewrite length_seq; reflexivity |].
    intros x Hx. apply in_seq in Hx. unfold f.
    replace (Z.of_nat x <? filled) with false
      by (symmetry; apply Z.ltb_ge; lia).
    replace (Z.of_nat x =? filled) with false
      by (symmetry; apply Z.eqb_neq; lia).
    reflexivity. }
  rewrite seq_app, map_app, concat_app, E1.
  cbn [seq map concat Nat.add]. rewrite E2, E3. reflexivity.
Qed.

Lemma bar_cells_full done edge rest filled total :
  total <= filled ->
  bar_cells done edge rest filled total = cells total done.
Proof.
  intros H. unfold bar_cells, cells.
  rewrite (map_constant _ done), length_seq; [reflexivity |].
  intros x Hx. apply in_seq in Hx.
  replace (Z.of_nat x <? filled) with true
    by (symmetry; apply Z.ltb_lt; lia).
  reflexivity.
Qed.

Lemma bar_cells_none done edge rest filled total :
  filled < 0 ->
  bar_cells done edge rest filled total = cells total rest.
Proof.
  intros H. unfold bar_cells, cells.
  rewrite (map_constant _ rest), length_seq; [reflexivity |].
  intros x Hx.
  replace (Z.of_nat x <? filled) with false
    by (symmetry; apply Z.ltb_ge; lia).
  replace (Z.of_nat x =? filled) with false
    by (symmetry; apply Z.eqb_neq; lia).
  reflexivity.
Qed.

(** X2.  The plain bar is a row of [total] cells.  Filled and unfilled cells
    are the same glyph; the only mark of the progress is the edge glyph,
    at cell [filled], and there is none when [filled] is negative or at
    least [total]. *)
Theorem buildSimpleBar_shape filled total :
  (total <= 0 -> buildSimpleBar filled total = []) /\
  (0 <= filled < total ->
   buildSimpleBar filled total
   = cells filled heavy_bar ++ half_bar
       ++ cells (total - filled - 1) heavy_bar) /\
  (0 < total -> filled < 0 \/ total <= filled ->
   buildSimpleBar filled total = cells total heavy_bar).
Proof.
  unfold buildSimpleBar. repeat split.
  - intros H. apply Z.leb_le in H. rewrite H. reflexivity.
  - intros H. replace (total <=? 0) with false
      by (symmetry; apply Z.leb_gt; lia).
    apply bar_cells_edge, H.
  - intros H [Hf | Hf];
      (replace (total <=? 0) with false by (symmetry; apply Z.leb_gt; lia)).
    + apply bar_cells_none, Hf.
    + apply bar_cells_full, Hf.
Qed.

(** X3.  The colored bar is a row of [total] cells: [filled] green ones, a
    green edge glyph at cell [filled], uncolored ones after it.  At or
    beyond [total] every cell is green and there is no edge; below zero
    no cell is colored. *)
Theorem buildRichBar_shape c filled total :
  (total <= 0 -> buildRichBar c filled total = []) /\
  (0 <= filled < total ->
   buildRichBar c filled total
   = cells filled (Green c ++ heavy_bar ++ Reset c)
       ++ (Green c ++ half_bar ++ Reset c)
       ++ cells (total - filled - 1) heavy_bar) /\
  (0 < total <= filled ->
   buildRichBar c filled total
   = cells total (Green c ++ heavy_bar ++ Reset c)) /\
  (0 < total -> filled < 0 ->
   buildRichBar c filled total = cells total heavy_bar).
Proof.
  unfold buildRichBar. repeat split.
  - intros H. apply Z.leb_le in H. rewrite H. reflexivity.
  - intros H. replace (total <=? 0) with false
      by (symmetry; apply Z.leb_gt; lia).
    apply bar_cells_edge, H.
  - intros H. replace (total <=? 0) with false
      by (symmetry; apply Z.leb_gt; lia).
    apply bar_cells_full. lia.
  - intros H Hf. replace (total <=? 0) with false
      by (symmetry; apply Z.leb_gt; lia).
    apply bar_cells_none, Hf.
Qed.

(** ** The width of what is shown *)

Lemma stripANSI_plain_cons c s :
  plain c -> stripANSI (c :: s) = c :: stripANSI s.
Proof.
  intros [Hc Hn]. unfold stripANSI, ReplaceAllString.
  rewrite (ansi_keeps _ _ _ Hn), (unicode_keeps _ _ _ Hc). reflexivity.
Qed.

Lemma stripANSI_glyph g s :
  In g glyphs -> stripANSI (g ++ s) = " "%char :: stripANSI s.
Proof. intros [<- | [<- | [<- | []]]]; reflexivity. Qed.

Lemma stripANSI_code k s :
  In k color_codes -> stripANSI (k ++ s) = stripANSI s.
Proof. intros [<- | [<- | [<- | [<- | [<- | []]]]]]; reflexivity. Qed.

(** [stripANSI] measures such a text: what it leaves has one byte for
    each column. *)
Lemma stripANSI_shown s n : shown s n -> len (stripANSI s) = n.
Proof.
  unfold len. induction 1 as [|c s n Hc _ IH|g s n Hg _ IH|k s n Hk _ IH].
  - reflexivity.
  - rewrite (stripANSI_plain_cons _ _ Hc). simpl length. lia.
  - rewrite (stripANSI_glyph _ _ Hg). simpl length. lia.
  - rewrite (stripANSI_code _ _ Hk). exact IH.
Qed.

Lemma shown_app a n b m : shown a n -> shown b m -> shown (a ++ b) (n + m).
Proof.
  intros Ha Hb. induction Ha as [|c s n Hc _ IH|g s n Hg _ IH|k s n Hk _ IH].
  - exact Hb.
  - rewrite <- app_comm_cons. replace (n + 1 + m) with (n + m + 1) by lia.
    apply shown_plain; assumption.
  - rewrite <- app_assoc. replace (n + 1 + m) with (n + m + 1) by lia.
    apply shown_glyph; assumption.
  - rewrite <- app_assoc. apply shown_code; assumption.
Qed.

Lemma shown_of_plain u : Forall plain u -> shown u (len u).
Proof.
  unfold len. induction 1 as [|c u Hc _ IH]; [constructor |].
  replace (Z.of_nat (length (c :: u))) with (Z.of_nat (length u) + 1)
    by (simpl length; lia).
  apply shown_plain; assumption.
Qed.

Lemma shown_of_info s : info s -> exists n, shown s n.
Proof.
  induction 1 as [|c s Hc _ [n IH]|s _ [n IH]|k s Hk _ [n IH]].
  - exists 0. constructor.
  - exists (n + 1). apply shown_plain; assumption.
  - exists (n + 1). apply shown_glyph; [left; reflexivity | assumption].
  - exists n. apply shown_code; [| assumption].
    unfold info_codes in Hk. unfold color_codes. simpl in *. tauto.
Qed.

Lemma shown_cells cell n :
  0 <= n -> shown cell 1 -> shown (cells n cell) n.
Proof.
  intros Hn Hc. unfold cells.
  rewrite <- (Z2Nat.id n Hn) at 2.
  induction (Z.to_nat n) as [|k IH]; [constructor |].
  cbn [repeat concat].
  replace (Z.of_nat (S k)) with (1 + Z.of_nat k) by lia.
  apply shown_app; assumption.
Qed.

Lemma shown_concat_map (f : nat -> str) l :
  (forall i, shown (f i) 1) ->
  shown (concat (map f l)) (Z.of_nat (length l)).
Proof.
  intros Hf. induction l as [|i l IH]; [constructor |].
  cbn [map concat].
  replace (Z.of_nat (length (i :: l))) with (1 + Z.of_nat (length l))
    by (simpl length; lia).
  apply shown_app; [apply Hf | exact IH].
Qed.

Lemma shown_bar_cells done edge rest filled total :
  shown done 1 -> shown edge 1 -> shown rest 1 -> 0 <= total ->
  shown (bar_cells done edge rest filled total) total.
Proof.
  intros Hd He Hr Ht. unfold bar_cells.
  replace total with (Z.of_nat (length (seq 0 (Z.to_nat total)))) at 2
    by (rewrite length_seq; lia).
  apply shown_concat_map. intros i.
  destruct (Z.of_nat i <? filled); [exact Hd |].
  destruct ((Z.of_nat i =? filled) && (filled <? total)); assumption.
Qed.

Lemma shown_heavy_bar : shown heavy_bar 1.
Proof.
  rewrite <- (app_nil_r heavy_bar).
  apply (shown_glyph heavy_bar [] 0); [simpl; tauto | constructor].
Qed.

Lemma shown_half_bar : shown half_bar 1.
Proof.
  rewrite <- (app_nil_r half_bar).
  apply (shown_glyph half_bar [] 0); [simpl; tauto | constructor].
Qed.

Lemma shown_green g :
  shown g 1 -> shown (Green NewColors ++ g ++ Reset NewColors) 1.
Proof.
  intros Hg. apply shown_code; [simpl; tauto |].
  change 1 with (1 + 0). apply shown_app; [exact Hg |].
  rewrite <- (app_nil_r (Reset NewColors)).
  apply shown_code; [simpl; tauto | constructor].
Qed.

Lemma shown_buildSimpleBar filled total :
  0 < total -> shown (buildSimpleBar filled total) total.
Proof.
  intros H. unfold buildSimpleBar.
  replace (total <=? 0) with false by (symmetry; apply Z.leb_gt; lia).
  apply shown_bar_cells;
    [apply shown_heavy_bar | apply shown_half_bar | apply shown_heavy_bar
    | lia].
Qed.

Lemma shown_buildRichBar filled total :
  0 < total -> shown (buildRichBar NewColors filled total) total.
Proof.
  intros H. unfold buildRichBar.
  replace (total <=? 0) with false by (symmetry; apply Z.leb_gt; lia).
  apply shown_bar_cells;
    [apply shown_green, shown_heavy_bar | apply shown_green, shown_half_bar
    | apply shown_heavy_bar | lia].
Qed.

(** The bar never has fewer than five cells. *)
Lemma spaceForBar_of_ge_5 termWidth leftSide rightInfo :
  5 <= spaceForBar_of termWidth leftSide rightInfo.
Proof.
  unfold spaceForBar_of. cbv zeta.
  set (a := wrap64 _). set (b := 80 - _ - 1 - _).
  destruct (a <? 5) eqn:E1; destruct (termWidth <? 20); cbn [orb];
    destruct (b <? 5) eqn:E2; lia.
Qed.

Lemma handleFilename_plain d : Forall plain d -> Forall plain (handleFilename d).
Proof.
  intros H. unfold handleFilename. destruct (30 <? len d); [| exact H].
  apply Forall_app. split; [apply Forall_firstn_plain, H | plain_chars].
Qed.

Lemma output_shown env pb termWidth elapsed :
  bar_colors_ok pb -> Forall plain (desc pb) ->
  shown (output_of env pb termWidth elapsed)
        (len (handleFilename (desc pb)) + 1
         + spaceForBar_of termWidth (handleFilename (desc pb))
                          (rightInfo_of env pb elapsed)
         + len (stripANSI (rightInfo_of env pb elapsed))).
Proof.
  intros Hc Hd. unfold output_of. cbv zeta.
  pose proof (spaceForBar_of_ge_5 termWidth (handleFilename (desc pb))
                (rightInfo_of env pb elapsed)) as H5.
  destruct (shown_of_info _ (rightInfo_info env pb elapsed Hc)) as [n Hn].
  rewrite (stripANSI_shown _ _ Hn).
  rewrite <- !Z.add_assoc.
  apply shown_app; [apply shown_of_plain, handleFilename_plain, Hd |].
  apply (shown_app (B " ") 1); [apply (shown_of_plain (B " ")); plain_chars |].
  apply shown_app; [| exact Hn].
  destruct (useColors pb); [| apply shown_buildSimpleBar; lia].
  destruct Hc as [-> | ->];
    [apply shown_buildSimpleBar | apply shown_buildRichBar]; lia.
Qed.

(** X4.  The width of the line [render] composes, measured the way [render]
    measures the trailing information: the description, one blank, a bar
    of at least five cells and the trailing information.  When the
    terminal is at least 20 columns wide and leaves room for five cells,
    the line is exactly as wide as the terminal.  On a terminal of fewer
    than 20 columns the line is laid out for 80 columns whatever the true
    width, and is 80 columns wide or more. *)
Theorem render_line_width env pb termWidth elapsed :
  bar_colors_ok pb -> Forall plain (desc pb) ->
  let leftSide := handleFilename (desc pb) in
  let rightInfo := rightInfo_of env pb elapsed in
  let width := len (stripANSI (output_of env pb termWidth elapsed)) in
  5 <= spaceForBar_of termWidth leftSide rightInfo /\
  width = len leftSide + 1 + spaceForBar_of termWidth leftSide rightInfo
          + len (stripANSI rightInfo) /\
  (20 <= termWidth < 2 ^ 63 ->
   5 <= termWidth - len leftSide - 1 - len (stripANSI rightInfo) ->
   width = termWidth) /\
  (termWidth < 20 ->
   width = Z.max 80 (len leftSide + 6 + len (stripANSI rightInfo))).
Proof.
  intros Hc Hd leftSide rightInfo width.
  assert (W : width = len leftSide + 1
                      + spaceForBar_of termWidth leftSide rightInfo
                      + len (stripANSI rightInfo)).
  { apply stripANSI_shown, output_shown; assumption. }
  split; [apply spaceForBar_of_ge_5 |].
  split; [exact W |].
  assert (Hl : 0 <= len leftSide) by (unfold len; lia).
  assert (Hr : 0 <= len (stripANSI rightInfo)) by (unfold len; lia).
  split.
  - intros Ht Hroom. rewrite W. unfold spaceForBar_of. cbv zeta.
    replace (wrap64 (termWidth - len leftSide - 1 - len (stripANSI rightInfo)))
      with (termWidth - len leftSide - 1 - len (stripANSI rightInfo))
      by (unfold wrap64; rewrite Z.mod_small; lia).
    replace (_ <? 5) with false by (symmetry; apply Z.ltb_ge; lia).
    replace (termWidth <? 20) with false by (symmetry; apply Z.ltb_ge; lia).
    simpl. lia.
  - intros Ht. rewrite W. unfold spaceForBar_of. cbv zeta.
    replace (termWidth <? 20) with true by (symmetry; apply Z.ltb_lt; lia).
    rewrite orb_true_r.
    destruct (_ <? 5) eqn:E; [apply Z.ltb_lt in E | apply Z.ltb_ge in E]; lia.
Qed.

(** The colored bar of the frame-unit scenario on a terminal of 60
    columns: the line takes 60 columns. *)
Lemma render_line_width_witness :
  let pb := set_current 1305
              (fst (NewProgressBar sample_env (B "clip.mp4") 2610 (B "frames")
                                   true world0)) in
  bar_colors_ok pb /\ Forall plain (desc pb) /\
  len (stripANSI (output_of sample_env pb 60 100000000)) = 60.
Proof.
  cbv zeta. split; [right; reflexivity |].
  split; [simpl; plain_chars |].
  destruct (render_line_width sample_env
              (set_current 1305
                 (fst (NewProgressBar sample_env (B "clip.mp4") 2610
                                      (B "frames") true world0)))
              60 100000000) as (_ & _ & H & _).
  - right; reflexivity.
  - simpl; plain_chars.
  - apply H; [lia | vm_compute; discriminate].
Defined.

(** ** [stripANSI] on any text *)

Lemma replace_from_cons r repl c s :
  replace_from r repl 0 (c :: s)
  = match match_len r (c :: s) with
    | Some (S n) => repl ++ replace_from r repl n s
    | Some O => repl ++ c :: replace_from r repl 0 s
    | None => c :: replace_from r repl 0 s
    end.
Proof. reflexivity. Qed.

Lemma replace_from_skip r repl n c s :
  replace_from r repl (S n) (c :: s) = replace_from r repl n s.
Proof. reflexivity. Qed.

Lemma match_len_unicodeRe c s :
  match_len unicodeRe (c :: s)
  = if 128 <=? byte_code c then Some (rune_width (c :: s)) else None.
Proof. reflexivity. Qed.

Lemma rune_width_pos c s : (1 <= rune_width (c :: s))%nat.
Proof.
  unfold rune_width.
  repeat match goal with
         | |- context [if ?b then _ else _] => destruct b
         | |- context [match ?l with [] => _ | _ :: _ => _ end] => destruct l
         end; lia.
Qed.

Lemma replace_unicode_ascii repl skip s :
  Forall is_ascii repl ->
  Forall is_ascii (replace_from unicodeRe repl skip s).
Proof.
  intros Hr. revert skip.
  induction s as [|c s IH]; intros skip; [constructor |].
  destruct skip as [|n]; [| rewrite replace_from_skip; apply IH].
  rewrite replace_from_cons, match_len_unicodeRe.
  pose proof (rune_width_pos c s) as Hw.
  destruct (128 <=? byte_code c) eqn:E.
  - destruct (rune_width (c :: s)) as [|n]; [lia |].
    apply Forall_app. split; [exact Hr | apply IH].
  - apply Z.leb_gt in E. constructor; [exact E | apply IH].
Qed.

Lemma replace_unicode_length repl skip s :
  (length repl <= 1)%nat ->
  (length (replace_from unicodeRe repl skip s) <= length s)%nat.
Proof.
  intros Hr. revert skip.
  induction s as [|c s IH]; intros skip; [simpl; lia |].
  destruct skip as [|n];
    [| specialize (IH n); rewrite replace_from_skip; simpl length; lia].
  rewrite replace_from_cons, match_len_unicodeRe.
  pose proof (rune_width_pos c s) as Hw.
  destruct (128 <=? byte_code c).
  - destruct (rune_width (c :: s)) as [|n]; [lia |].
    specialize (IH n). rewrite length_app. simpl length. lia.
  - specialize (IH 0%nat). simpl length. lia.
Qed.

Lemma replace_erase_length r skip s :
  (length (replace_from r [] skip s) <= length s)%nat.
Proof.
  revert skip. induction s as [|c s IH]; intros skip; [simpl; lia |].
  destruct skip as [|n];
    [| specialize (IH n); rewrite replace_from_skip; simpl length; lia].
  rewrite replace_from_cons.
  destruct (match_len r (c :: s)) as [[|n]|].
  - specialize (IH 0%nat). simpl length. lia.
  - specialize (IH n). simpl length. lia.
  - specialize (IH 0%nat). simpl length. lia.
Qed.

(** X5.  Whatever the text, what [stripANSI] leaves of it is 7-bit ASCII and
    is no longer than the text; a text of plain characters is left as it
    is. *)
Theorem stripANSI_ascii_no_longer s :
  Forall is_ascii (stripANSI s) /\
  len (stripANSI s) <= len s /\
  (Forall plain s -> stripANSI s = s).
Proof.
  unfold stripANSI, ReplaceAllString, len. split; [| split].
  - apply replace_unicode_ascii. repeat constructor.
  - pose proof (replace_unicode_length (B " ") 0
                  (replace_from ansiRe [] 0 s) (le_n 1)).
    pose proof (replace_erase_length ansiRe 0 s). lia.
  - apply stripANSI_plain.
Qed.

(* ================================================================== *)
(** * Further properties of the fact extractor *)
(* ================================================================== *)

(** ** Matching *)

Lemma rmatch_RLit {A} lit pos s cs (k : @cont A) :
  rmatch (RLit lit) pos s cs k
  = if HasPrefix s lit
    then k (pos + length lit)%nat (skipn (length lit) s) cs
    else None.
Proof.
  revert pos s. induction lit as [|c lit IH]; intros pos s.
  - simpl. rewrite Nat.add_0_r. destruct s; reflexivity.
  - destruct s as [|x s]; [reflexivity |].
    cbn [RLit rmatch HasPrefix length skipn].
    destruct (Ascii.eqb x c); [| reflexivity].
    rewrite IH. cbn [andb].
    replace (S pos + length lit)%nat with (pos + S (length lit))%nat by lia.
    reflexivity.
Qed.

Lemma rmatch_hms_tail {A} pos s cs (k : @cont A) :
  rmatch hms_tail pos s cs k
  = match hms_fields s with
    | Some _ =>
      k (11 + pos)%nat (skipn 11 s)
        ((3, (6 + pos, 8 + pos)) :: (2, (3 + pos, 5 + pos))
           :: (1, (pos, 2 + pos)) :: cs)%nat
    | None => None
    end.
Proof.
  unfold hms_tail, hms_fields.
  do 11 (destruct s as [|? s];
         [cbn [RSeq fold_right Rd2 Rd rmatch];
          repeat match goal with
                 | |- context [if ?b then _ else _] => destruct b
                 end; reflexivity |]).
  cbn [RSeq fold_right Rd2 Rd rmatch].
  repeat match goal with
         | |- context [is_digit ?a] =>
           destruct (is_digit a); [| reflexivity]
         | |- context [Ascii.eqb ?a ?b] =>
           destruct (Ascii.eqb a b); [| reflexivity]
         end.
  reflexivity.
Qed.

Lemma match_at_hms lit pos s :
  match_at (RCat (RLit lit) hms_tail) pos s
  = if HasPrefix s lit then
      match hms_fields (skipn (length lit) s) with
      | Some _ =>
        let p := (pos + length lit)%nat in
        Some ((11 + p)%nat,
              [(3, (6 + p, 8 + p)); (2, (3 + p, 5 + p)); (1, (p, 2 + p))]%nat)
      | None => None
      end
    else None.
Proof.
  unfold match_at. cbn [rmatch]. rewrite rmatch_RLit.
  destruct (HasPrefix s lit); [| reflexivity].
  rewrite rmatch_hms_tail. reflexivity.
Qed.

Lemma HasPrefix_app s p : HasPrefix s p = true -> s = p ++ skipn (length p) s.
Proof.
  revert s. induction p as [|c p IH]; intros s H; [reflexivity |].
  destruct s as [|x s]; [discriminate |].
  cbn [HasPrefix] in H. apply andb_true_iff in H. destruct H as [E H].
  apply Ascii.eqb_eq in E. subst x. cbn [length skipn app].
  f_equal. apply IH, H.
Qed.

Lemma HasPrefix_refl p s : HasPrefix (p ++ s) p = true.
Proof.
  induction p as [|c p IH]; [destruct s; reflexivity |].
  cbn [app HasPrefix]. rewrite Ascii.eqb_refl. exact IH.
Qed.

Lemma skipn_S_cons {A} (full : list A) pos c s :
  skipn pos full = c :: s -> skipn (S pos) full = s.
Proof.
  intros H. change (S pos) with (1 + pos)%nat.
  rewrite <- skipn_skipn, H. reflexivity.
Qed.

Lemma slice_skipn full q i j :
  slice full (i + q) (j + q) = slice (skipn q full) i j.
Proof.
  unfold slice. rewrite skipn_skipn. f_equal. lia.
Qed.

(** Where [FindStringSubmatch] finds a match, there is one. *)
Lemma find_from_sound r n full pos s ms :
  s = skipn pos full ->
  find_from r n full pos s = Some ms ->
  exists p e cs,
    match_at r p (skipn p full) = Some (e, cs) /\
    ms = slice full p e :: map (group_text full cs) (seq 1 n).
Proof.
  revert pos. induction s as [|c s IH]; intros pos Hs H; cbn [find_from] in H.
  - destruct (match_at r pos []) as [[e cs]|] eqn:E; [| discriminate].
    exists pos, e, cs. rewrite <- Hs. injection H as <-. auto.
  - destruct (match_at r pos (c :: s)) as [[e cs]|] eqn:E.
    + exists pos, e, cs. rewrite <- Hs. injection H as <-. auto.
    + apply (IH (S pos)); [| exact H].
      symmetry. apply (skipn_S_cons full pos c s). auto.
Qed.

Lemma two_digits_inv s :
  two_digits s = true ->
  exists a b, s = [a; b] /\ is_digit a = true /\ is_digit b = true.
Proof.
  destruct s as [|a [|b [|? ?]]]; try discriminate.
  cbn [two_digits]. intros H. apply andb_true_iff in H.
  exists a, b. tauto.
Qed.

Ltac digits H :=
  apply two_digits_inv in H;
  let a := fresh "a" in let b := fresh "b" in
  let Ha := fresh "Ha" in let Hb := fresh "Hb" in
  destruct H as (a & b & -> & Ha & Hb).

Lemma hms_fields_inv s h m sec :
  hms_fields s = Some (h, m, sec) ->
  two_digits h = true /\ two_digits m = true /\ two_digits sec = true /\
  exists g1 g2 rest,
    s = h ++ ":"%char :: m ++ ":"%char :: sec ++ "."%char :: g1 :: g2 :: rest.
Proof.
  unfold hms_fields.
  do 11 (destruct s as [|? s]; [discriminate |]).
  repeat match goal with
         | |- context [is_digit ?a] =>
           let E := fresh "E" in
           destruct (is_digit a) eqn:E; [| discriminate]
         | |- context [Ascii.eqb ?a ?b] =>
           let E := fresh "E" in
           destruct (Ascii.eqb a b) eqn:E;
           [apply Ascii.eqb_eq in E; subst a | discriminate]
         end.
  cbn [andb]. intros H. injection H as <- <- <-.
  cbn [two_digits].
  repeat match goal with
         | H : is_digit _ = true |- _ => rewrite H; clear H
         end.
  repeat split. do 3 eexists. reflexivity.
Qed.

Lemma hms_fields_intro h m sec g1 g2 rest :
  two_digits h = true -> two_digits m = true -> two_digits sec = true ->
  is_digit g1 = true -> is_digit g2 = true ->
  hms_fields (h ++ ":"%char :: m ++ ":"%char :: sec ++ "."%char
                :: g1 :: g2 :: rest)
  = Some (h, m, sec).
Proof.
  intros Hh Hm Hs H1 H2. digits Hh. digits Hm. digits Hs.
  cbn [app hms_fields].
  repeat match goal with
         | H : is_digit _ = true |- _ => rewrite H; clear H
         end.
  reflexivity.
Qed.

(** ** Two decimal digits *)

Lemma is_digit_cases c : is_digit c = true -> In c (B "0123456789").
Proof.
  destruct c as [[] [] [] [] [] [] [] []]; vm_compute; intros H;
    try discriminate H; tauto.
Qed.

Lemma Atoi_two_digits s :
  two_digits s = true -> Atoi s = pair_value s /\ 0 <= pair_value s <= 99.
Proof.
  intros H. apply two_digits_inv in H. destruct H as (a & b & -> & Ha & Hb).
  apply is_digit_cases in Ha, Hb. cbn [B list_ascii_of_string In] in Ha, Hb.
  repeat (destruct Ha as [<- | Ha]; [| try contradiction]);
    repeat (destruct Hb as [<- | Hb]; [| try contradiction]);
    (split; [reflexivity | cbv; split; discriminate]).
Qed.

(** On pairs of digits, [seconds] is the number of seconds of the time
    of day, and no overflow occurs. *)
Lemma seconds_two_digits h m s :
  two_digits h = true -> two_digits m = true -> two_digits s = true ->
  seconds h m s = 3600 * pair_value h + 60 * pair_value m + pair_value s /\
  0 <= seconds h m s <= 362439.
Proof.
  intros Hh Hm Hs. unfold seconds.
  destruct (Atoi_two_digits h Hh) as [-> Bh].
  destruct (Atoi_two_digits m Hm) as [-> Bm].
  destruct (Atoi_two_digits s Hs) as [-> Bs].
  assert (E : wrap64 ((pair_value h * 60 + pair_value m) * 60 + pair_value s)
              = 3600 * pair_value h + 60 * pair_value m + pair_value s).
  { unfold wrap64. rewrite Z.mod_small; lia. }
  rewrite E. lia.
Qed.

(** ** The two timestamp patterns *)

Lemma durationRx_eq : durationRx = RCat (RLit (B "Duration: ")) hms_tail.
Proof. reflexivity. Qed.

Lemma progressRx_eq : progressRx = RCat (RLit (B "time=")) hms_tail.
Proof. reflexivity. Qed.

Lemma skipn_length_app {A} (a b : list A) : skipn (length a) (a ++ b) = b.
Proof. induction a; [reflexivity | assumption]. Qed.

Lemma firstn_length_app {A} (a b : list A) : firstn (length a) (a ++ b) = a.
Proof. induction a; [reflexivity | simpl; f_equal; assumption]. Qed.

(** A match of a timestamp pattern: where it is and what it captures. *)
Lemma FindStringSubmatch_hms lit line ms :
  FindStringSubmatch (RCat (RLit lit) hms_tail) 3 line = Some ms ->
  exists pre h m s rest m0,
    line = pre ++ lit ++ h ++ ":"%char :: m ++ ":"%char :: s
               ++ "."%char :: rest /\
    two_digits h = true /\ two_digits m = true /\ two_digits s = true /\
    ms = [m0; h; m; s].
Proof.
  intros F. unfold FindStringSubmatch in F.
  destruct (find_from_sound _ _ line 0 line ms eq_refl F)
    as (p & e & cs & M & ->).
  rewrite match_at_hms in M.
  destruct (HasPrefix (skipn p line) lit) eqn:HP; [| discriminate].
  destruct (hms_fields (skipn (length lit) (skipn p line)))
    as [[[h m] s]|] eqn:HF; [| discriminate].
  cbv zeta in M. injection M as <- <-.
  destruct (hms_fields_inv _ _ _ _ HF) as (Hh & Hm & Hs & g1 & g2 & rest & E).
  exists (firstn p line), h, m, s, (g1 :: g2 :: rest),
    (slice line p (11 + (p + length lit))).
  split.
  - rewrite <- E, <- (HasPrefix_app _ _ HP). symmetry. apply firstn_skipn.
  - repeat split; try assumption.
    rewrite skipn_skipn, (Nat.add_comm (length lit) p) in E.
    cbn [seq map group_text cap_lookup Nat.eqb].
    set (q := (p + length lit)%nat) in *.
    pose proof (slice_skipn line q 0 2) as S1.
    pose proof (slice_skipn line q 3 5) as S2.
    pose proof (slice_skipn line q 6 8) as S3.
    cbn [Nat.add] in S1, S2, S3. rewrite S1, S2, S3, E.
    clear -Hh Hm Hs. digits Hh. digits Hm. digits Hs.
    reflexivity.
Qed.

Lemma HasPrefix_app_long a b p :
  (length p <= length a)%nat -> HasPrefix (a ++ b) p = HasPrefix a p.
Proof.
  revert a. induction p as [|c p IH]; intros [|x a] H;
    cbn [length] in H; try lia; cbn [app HasPrefix]; try reflexivity.
  - destruct b; reflexivity.
  - rewrite IH by lia. reflexivity.
Qed.

Lemma find_from_hit r n full pos s e cs :
  match_at r pos s = Some (e, cs) ->
  find_from r n full pos s
  = Some (slice full pos e :: map (group_text full cs) (seq 1 n)).
Proof. intros M. destruct s; cbn [find_from]; rewrite M; reflexivity. Qed.

(** The search skips a text in which the literal the pattern starts with
    does not occur. *)
Lemma find_from_first_after r lit n full pos pre X :
  first_after pre lit = true ->
  find_from (RCat (RLit lit) r) n full pos (pre ++ lit ++ X)
  = find_from (RCat (RLit lit) r) n full (pos + length pre) (lit ++ X).
Proof.
  revert pos. induction pre as [|c pre IH]; intros pos H.
  - rewrite Nat.add_0_r. reflexivity.
  - cbn [first_after] in H. apply andb_true_iff in H. destruct H as [H1 H2].
    apply negb_true_iff in H1.
    assert (M : match_at (RCat (RLit lit) r) pos ((c :: pre) ++ lit ++ X)
                = None).
    { unfold match_at. cbn [rmatch]. rewrite rmatch_RLit.
      rewrite app_assoc, HasPrefix_app_long, H1; [reflexivity |].
      rewrite length_app. lia. }
    cbn [app find_from] in *. rewrite M, IH by assumption.
    f_equal. cbn [length]. lia.
Qed.

Lemma FindStringSubmatch_hms_first lit pre h m s g1 g2 rest :
  first_after pre lit = true ->
  two_digits h = true -> two_digits m = true -> two_digits s = true ->
  is_digit g1 = true -> is_digit g2 = true ->
  FindStringSubmatch (RCat (RLit lit) hms_tail) 3
    (pre ++ lit ++ h ++ ":"%char :: m ++ ":"%char :: s
         ++ "."%char :: g1 :: g2 :: rest)
  = Some [lit ++ h ++ ":"%char :: m ++ ":"%char :: s ++ "."%char :: [g1; g2];
          h; m; s].
Proof.
  intros Hpre Hh Hm Hs H1 H2. unfold FindStringSubmatch.
  set (X := h ++ ":"%char :: m ++ ":"%char :: s ++ "."%char :: g1 :: g2 :: rest).
  rewrite (find_from_first_after _ _ _ _ _ _ _ Hpre). cbn [Nat.add].
  assert (F : hms_fields X = Some (h, m, s))
    by (apply hms_fields_intro; assumption).
  rewrite (find_from_hit _ _ _ _ _
             (11 + (length pre + length lit))%nat
             [(3, (6 + (length pre + length lit), 8 + (length pre + length lit)));
              (2, (3 + (length pre + length lit), 5 + (length pre + length lit)));
              (1, (length pre + length lit, 2 + (length pre + length lit)))]%nat).
  2: { rewrite match_at_hms, HasPrefix_refl, skipn_length_app, F.
       reflexivity. }
  set (q := (length pre + length lit)%nat).
  assert (E : skipn q (pre ++ lit ++ X) = X).
  { unfold q. rewrite app_assoc, <- length_app. apply skipn_length_app. }
  pose proof (slice_skipn (pre ++ lit ++ X) q 0 2) as S1.
  pose proof (slice_skipn (pre ++ lit ++ X) q 3 5) as S2.
  pose proof (slice_skipn (pre ++ lit ++ X) q 6 8) as S3.
  cbn [Nat.add] in S1, S2, S3.
  cbn [seq map group_text cap_lookup Nat.eqb Nat.add].
  rewrite S1, S2, S3, E.
  assert (S0 : slice (pre ++ lit ++ X) (length pre) (11 + q)
               = lit ++ firstn 11 X).
  { unfold slice, q. rewrite skipn_length_app.
    replace (11 + (length pre + length lit) - length pre)%nat
      with (length lit + 11)%nat by lia.
    rewrite firstn_app_2. reflexivity. }
  cbn [Nat.add] in S0. rewrite S0. unfold X.
  clear -Hh Hm Hs. digits Hh. digits Hm. digits Hs.
  reflexivity.
Qed.

(** ** The duration *)

Lemma getDuration_range line : 0 <= getDuration line <= 362439.
Proof.
  unfold getDuration. rewrite durationRx_eq.
  destruct (FindStringSubmatch _ 3 line) as [ms|] eqn:F; [| lia].
  destruct (FindStringSubmatch_hms _ _ _ F)
    as (pre & h & m & s & rest & m0 & E & Hh & Hm & Hs & ->).
  exact (proj2 (seconds_two_digits h m s Hh Hm Hs)).
Qed.

(** X6.  Whatever the line, the duration read from it lies between 0 and
    362439, the value of 99:99:99.  When it is not 0, the line holds the
    word [Duration: ] followed by a timestamp of two-digit fields, and
    the duration is the hours, minutes and seconds of that timestamp in
    seconds; the hundredths are dropped. *)
Theorem getDuration_sound line :
  0 <= getDuration line <= 362439 /\
  (getDuration line <> 0 ->
   exists pre h m s rest,
     line = pre ++ B "Duration: " ++ h ++ B ":" ++ m ++ B ":" ++ s
                ++ B "." ++ rest /\
     two_digits h = true /\ two_digits m = true /\ two_digits s = true /\
     getDuration line
     = 3600 * pair_value h + 60 * pair_value m + pair_value s).
Proof.
  unfold getDuration. rewrite durationRx_eq.
  destruct (FindStringSubmatch _ 3 line) as [ms|] eqn:F;
    [| split; [lia | congruence]].
  destruct (FindStringSubmatch_hms _ _ _ F)
    as (pre & h & m & s & rest & m0 & E & Hh & Hm & Hs & ->).
  destruct (seconds_two_digits h m s Hh Hm Hs) as [V R].
  split; [exact R |].
  intros _. exists pre, h, m, s, rest. auto.
Qed.

(** X7.  The duration of a line is read from the first [Duration: ] in it,
    when a timestamp follows: hours, minutes and seconds in seconds.
    Nothing restricts the minutes and the seconds to 59. *)
Theorem getDuration_first_timestamp pre h m s g1 g2 rest :
  first_after pre (B "Duration: ") = true ->
  two_digits h = true -> two_digits m = true -> two_digits s = true ->
  is_digit g1 = true -> is_digit g2 = true ->
  getDuration (pre ++ B "Duration: " ++ h ++ B ":" ++ m ++ B ":" ++ s
                   ++ B "." ++ g1 :: g2 :: rest)
  = 3600 * pair_value h + 60 * pair_value m + pair_value s.
Proof.
  intros Hpre Hh Hm Hs H1 H2. unfold getDuration. rewrite durationRx_eq.
  change (pre ++ B "Duration: " ++ h ++ B ":" ++ m ++ B ":" ++ s
              ++ B "." ++ g1 :: g2 :: rest)
    with (pre ++ B "Duration: " ++ h ++ ":"%char :: m ++ ":"%char :: s
              ++ "."%char :: g1 :: g2 :: rest).
  rewrite (FindStringSubmatch_hms_first _ _ _ _ _ _ _ _ Hpre Hh Hm Hs H1 H2).
  apply seconds_two_digits; assumption.
Qed.

(** The line ffmpeg prints for an input of 1 minute 30.45 seconds. *)
Lemma getDuration_first_timestamp_witness :
  first_after (B "  ") (B "Duration: ") = true /\
  getDuration (B "  Duration: 00:01:30.45, start: 0.000000, bitrate: 1205 kb/s")
  = 90.
Proof.
  split; [reflexivity |].
  exact (getDuration_first_timestamp
           (B "  ") (B "00") (B "01") (B "30") "4" "5"
           (B ", start: 0.000000, bitrate: 1205 kb/s")
           eq_refl eq_refl eq_refl eq_refl eq_refl eq_refl).
Defined.

(** ** The source name *)

(** The greedy star gives way to what follows it at the last place
    where that can match. *)
Lemma star_fails {A} p q t cs (K : @cont A) :
  (forall n u, HasPrefix u q = false -> K n u cs = None) ->
  Contains t q = false ->
  forall pos, star p pos t cs K = None.
Proof.
  intros HK. induction t as [|c t IH]; intros Hc pos.
  - cbn [star]. apply HK. cbn [Contains] in Hc.
    apply orb_false_iff in Hc. tauto.
  - cbn [Contains] in Hc. apply orb_false_iff in Hc. destruct Hc as [H1 H2].
    cbn [star]. rewrite (IH H2). destruct (p c); apply HK, H1.
Qed.

Lemma star_greedy {A} p q mid t cs (K : @cont A) a :
  (forall n u, HasPrefix u q = false -> K n u cs = None) ->
  forallb p mid = true ->
  Contains (tl t) q = false ->
  forall pos, K (pos + length mid)%nat t cs = Some a ->
  star p pos (mid ++ t) cs K = Some a.
Proof.
  intros HK Hmid Ht. induction mid as [|c mid IH]; intros pos Ha.
  - cbn [length app] in *. rewrite Nat.add_0_r in Ha.
    destruct t as [|c t]; [exact Ha |].
    cbn [star tl] in *. rewrite (star_fails p q t cs K HK Ht).
    destruct (p c); exact Ha.
  - cbn [forallb] in Hmid. apply andb_true_iff in Hmid.
    destruct Hmid as [Hc Hmid].
    cbn [app star]. rewrite Hc, (IH Hmid (S pos)); [reflexivity |].
    rewrite <- Ha. f_equal. cbn [length]. lia.
Qed.

Lemma star_sound {A} p s cs (K : @cont A) a :
  forall pos, star p pos s cs K = Some a ->
  exists mid t, s = mid ++ t /\ K (pos + length mid)%nat t cs = Some a.
Proof.
  induction s as [|c s IH]; intros pos H; cbn [star] in H.
  - exists [], []. rewrite Nat.add_0_r. auto.
  - assert (Here : K pos (c :: s) cs = Some a ->
                   exists mid t, c :: s = mid ++ t /\
                                 K (pos + length mid)%nat t cs = Some a).
    { intros E. exists [], (c :: s). rewrite Nat.add_0_r. auto. }
    destruct (p c); [| auto].
    destruct (star p (S pos) s cs K) as [a'|] eqn:E; [| auto].
    injection H as ->. destruct (IH _ E) as (mid & t & -> & HK).
    exists (c :: mid), t. split; [reflexivity |].
    rewrite <- HK. f_equal. cbn [length]. lia.
Qed.

Lemma star_ext {A} p s cs (K1 K2 : @cont A) :
  (forall n u c, K1 n u c = K2 n u c) ->
  forall pos, star p pos s cs K1 = star p pos s cs K2.
Proof.
  intros HK. induction s as [|c s IH]; intros pos; cbn [star].
  - apply HK.
  - rewrite IH, HK. reflexivity.
Qed.

Lemma match_at_sourceRx pos s :
  match_at sourceRx pos s
  = if HasPrefix s (B "from '") then
      star is_not_LF (pos + 6) (skipn 6 s) []
           (fun pos' s' cs' =>
              if HasPrefix s' (B "':")
              then Some ((pos' + 2)%nat, (1%nat, ((pos + 6)%nat, pos')) :: cs')
              else None)
    else None.
Proof.
  unfold match_at, sourceRx. cbn [RSeq fold_right rmatch].
  rewrite rmatch_RLit. destruct (HasPrefix s (B "from '")); [| reflexivity].
  cbn [length B list_ascii_of_string].
  apply star_ext. intros n u c.
  rewrite (rmatch_RLit (B "':")).
  cbn [B list_ascii_of_string length].
  destruct (HasPrefix u _); reflexivity.
Qed.

Lemma until_slash_app rn rd :
  (forall c, In c rn -> Ascii.eqb c "/" = false) ->
  match rd with [] => true | c :: _ => Ascii.eqb c "/" end = true ->
  until_slash (rn ++ rd) = rn.
Proof.
  intros Hn Hd. induction rn as [|c rn IH]; cbn [app until_slash].
  - destruct rd as [|c rd]; [reflexivity |].
    cbn [until_slash]. rewrite Hd. reflexivity.
  - rewrite (Hn c) by (left; reflexivity). f_equal.
    apply IH. intros x Hx. apply Hn. right. exact Hx.
Qed.

Lemma Base_name dir name :
  is_dir dir = true -> is_name name = true -> Base (dir ++ name) = name.
Proof.
  unfold is_dir, is_name. intros Hd Hn.
  apply andb_true_iff in Hn. destruct Hn as [Hne Hns].
  assert (Hslash : forall c, In c (rev name) -> Ascii.eqb c "/" = false).
  { intros c Hc. apply in_rev in Hc.
    rewrite forallb_forall in Hns. apply negb_true_iff, Hns, Hc. }
  destruct name as [|n0 name]; [discriminate |].
  unfold Base. destruct (dir ++ n0 :: name) eqn:E;
    [destruct dir; discriminate |].
  rewrite <- E, rev_app_distr.
  destruct (rev (n0 :: name)) as [|c rn] eqn:R.
  { apply (f_equal (@length ascii)) in R. rewrite length_rev in R.
    discriminate. }
  cbn [app drop_slashes]. rewrite (Hslash c) by (left; reflexivity).
  change (c :: rn ++ rev dir) with ((c :: rn) ++ rev dir).
  rewrite (until_slash_app _ _ Hslash Hd), <- R, rev_involutive.
  reflexivity.
Qed.

Lemma Base_not_empty path : Base path <> [].
Proof.
  unfold Base. destruct path; [discriminate |].
  destruct (rev _) eqn:E; [discriminate |].
  discriminate.
Qed.

Lemma FindStringSubmatch_sourceRx_first pre mid post :
  first_after pre (B "from '") = true ->
  forallb is_not_LF mid = true ->
  Contains post (B "':") = false ->
  FindStringSubmatch sourceRx 1 (pre ++ B "from '" ++ mid ++ B "':" ++ post)
  = Some [B "from '" ++ mid ++ B "':"; mid].
Proof.
  intros Hpre Hmid Hpost. unfold FindStringSubmatch.
  set (X := mid ++ B "':" ++ post).
  change sourceRx
    with (RCat (RLit (B "from '"))
               (RSeq [RGroup 1 (RStar is_not_LF); RLit (B "':")])).
  rewrite (find_from_first_after _ _ _ _ _ _ _ Hpre). cbn [Nat.add].
  set (p := length pre).
  rewrite (find_from_hit _ _ _ _ _ (p + 6 + length mid + 2)%nat
             [(1, (p + 6, p + 6 + length mid))]%nat).
  2: { change (RCat (RLit (B "from '"))
                    (RSeq [RGroup 1 (RStar is_not_LF); RLit (B "':")]))
         with sourceRx.
       rewrite match_at_sourceRx, HasPrefix_refl.
       change (skipn 6 (B "from '" ++ X)) with X. unfold X.
       apply (star_greedy is_not_LF (B "':")).
       - intros n u H. rewrite H. reflexivity.
       - exact Hmid.
       - cbn [tl app B list_ascii_of_string Contains HasPrefix].
         cbn [Contains] in Hpost. destruct post; exact Hpost.
       - rewrite HasPrefix_refl. reflexivity. }
  cbn [seq map group_text cap_lookup Nat.eqb].
  f_equal. f_equal.
  - unfold slice, p. rewrite skipn_length_app.
    replace (length pre + 6 + length mid + 2 - length pre)%nat
      with (length (B "from '" ++ mid ++ B "':")) by
      (rewrite !length_app; cbn [length B list_ascii_of_string]; lia).
    replace (B "from '" ++ X) with ((B "from '" ++ mid ++ B "':") ++ post)
      by (unfold X; rewrite <- !app_assoc; reflexivity).
    apply firstn_length_app.
  - f_equal. unfold slice, p.
    replace (length pre + 6)%nat with (length (pre ++ B "from '"))
      by (rewrite length_app; reflexivity).
    rewrite app_assoc, skipn_length_app.
    replace (length (pre ++ B "from '") + length mid
             - length (pre ++ B "from '"))%nat
      with (length mid) by lia.
    unfold X. apply firstn_length_app.
Qed.

(** X8.  The source name is read between the first [from '] of the line and
    the last quote followed by a colon: the quoted text may itself hold
    a quote and a colon.  Of that text the name after the last slash is
    kept, the slash being the path separator (as on Linux and macOS; a
    build for Windows splits at backslashes as well).  The result is
    never empty, even when the quoted text is: from such a line on, the
    source counts as known. *)
Theorem getSource_first_quote pre mid post :
  first_after pre (B "from '") = true ->
  forallb is_not_LF mid = true ->
  Contains post (B "':") = false ->
  let line := pre ++ B "from '" ++ mid ++ B "':" ++ post in
  getSource line = Base mid /\
  getSource line <> [] /\
  (forall dir name,
     mid = dir ++ name -> is_dir dir = true -> is_name name = true ->
     getSource line = name).
Proof.
  intros Hpre Hmid Hpost line.
  assert (E : getSource line = Base mid).
  { unfold getSource, line.
    rewrite (FindStringSubmatch_sourceRx_first _ _ _ Hpre Hmid Hpost).
    reflexivity. }
  rewrite E. split; [reflexivity |]. split; [apply Base_not_empty |].
  intros dir name -> Hd Hn. apply Base_name; assumption.
Qed.

(** The line ffmpeg prints for an input whose name holds a quote and a
    colon. *)
Lemma getSource_first_quote_witness :
  let pre := B "Input #0, mov,mp4,m4a,3gp,3g2,mj2, " in
  let mid := B "/home/me/my 'best': clip.mp4" in
  first_after pre (B "from '") = true /\
  forallb is_not_LF mid = true /\
  Contains [] (B "':") = false /\
  getSource (pre ++ B "from '" ++ mid ++ B "':" ++ [])
  = B "my 'best': clip.mp4".
Proof.
  cbv zeta.
  split; [reflexivity | split; [reflexivity | split; [reflexivity |]]].
  destruct (getSource_first_quote
              (B "Input #0, mov,mp4,m4a,3gp,3g2,mj2, ")
              (B "/home/me/my 'best': clip.mp4") []
              eq_refl eq_refl eq_refl) as (_ & _ & H).
  exact (H (B "/home/me/") (B "my 'best': clip.mp4")
           eq_refl eq_refl eq_refl).
Defined.

(** X9.  A line yields a source name only if it holds [from '] and, later, a
    quote followed by a colon; the name is then taken from a text
    between two such places. *)
Theorem getSource_sound line :
  getSource line <> [] ->
  exists pre mid post,
    line = pre ++ B "from '" ++ mid ++ B "':" ++ post /\
    getSource line = Base mid.
Proof.
  unfold getSource.
  destruct (FindStringSubmatch sourceRx 1 line) as [ms|] eqn:F;
    [| congruence].
  intros _. unfold FindStringSubmatch in F.
  destruct (find_from_sound _ _ line 0 line ms eq_refl F)
    as (p & e & cs & M & ->).
  rewrite match_at_sourceRx in M.
  destruct (HasPrefix (skipn p line) (B "from '")) eqn:HP; [| discriminate].
  destruct (star_sound _ _ _ _ _ _ M) as (mid & t & E & K).
  destruct (HasPrefix t (B "':")) eqn:HQ; [| discriminate].
  injection K as <- <-.
  exists (firstn p line), mid, (skipn 2 t).
  assert (L : line = firstn p line ++ B "from '" ++ mid ++ B "':" ++ skipn 2 t).
  { rewrite <- (HasPrefix_app _ _ HQ : t = B "':" ++ skipn 2 t), <- E.
    rewrite <- (HasPrefix_app _ _ HP : _ = B "from '" ++ skipn 6 _).
    symmetry. apply firstn_skipn. }
  split; [exact L |].
  cbn [seq map group_text cap_lookup Nat.eqb].
  replace (slice line (p + 6) (p + 6 + length mid)) with mid; [reflexivity |].
  unfold slice. rewrite (Nat.add_comm p 6), <- skipn_skipn, E.
  replace (6 + p + length mid - (6 + p))%nat with (length mid) by lia.
  symmetry. apply firstn_length_app.
Qed.

Lemma getSource_sound_witness :
  getSource (B "from 'a.mp4':") <> [] /\
  exists pre mid post,
    B "from 'a.mp4':" = pre ++ B "from '" ++ mid ++ B "':" ++ post /\
    getSource (B "from 'a.mp4':") = Base mid.
Proof.
  split; [vm_compute; discriminate |].
  apply (getSource_sound (B "from 'a.mp4':")). vm_compute. discriminate.
Defined.

(** ** The frame rate *)

Lemma rmatch_decimal {A} pos s cs (K : @cont A) :
  rmatch (RSeq [Rd2; RChar "."; Rd2]) pos s cs K
  = if decimal_shape s then K (5 + pos)%nat (skipn 5 s) cs else None.
Proof.
  unfold decimal_shape.
  do 5 (destruct s as [|? s];
        [cbn [RSeq fold_right Rd2 Rd rmatch];
         repeat match goal with
                | |- context [if ?b then _ else _] => destruct b
                end; reflexivity |]).
  cbn [RSeq fold_right Rd2 Rd rmatch].
  repeat match goal with
         | |- context [is_digit ?a] =>
           destruct (is_digit a); [| reflexivity]
         | |- context [Ascii.eqb ?a ?b] =>
           destruct (Ascii.eqb a b); [| reflexivity]
         end.
  reflexivity.
Qed.

Lemma rmatch_integer {A} pos s cs (K : @cont A) :
  rmatch Rd2 pos s cs K
  = if integer_shape s then K (2 + pos)%nat (skipn 2 s) cs else None.
Proof.
  unfold integer_shape.
  do 2 (destruct s as [|? s];
        [cbn [Rd2 Rd rmatch];
         repeat match goal with
                | |- context [if ?b then _ else _] => destruct b
                end; reflexivity |]).
  cbn [Rd2 Rd rmatch].
  repeat match goal with
         | |- context [is_digit ?a] =>
           destruct (is_digit a); [| reflexivity]
         end.
  reflexivity.
Qed.

Lemma match_at_fpsRx pos s :
  match_at fpsRx pos s
  = if decimal_shape s && HasPrefix (skipn 5 s) (B " fps")
    then Some ((9 + pos)%nat, [(1%nat, (pos, (5 + pos)%nat))])
    else if integer_shape s && HasPrefix (skipn 2 s) (B " fps")
         then Some ((6 + pos)%nat, [(1%nat, (pos, (2 + pos)%nat))])
         else None.
Proof.
  unfold match_at, fpsRx.
  change (RSeq [RGroup 1 (RAlt (RSeq [Rd2; RChar "."; Rd2]) Rd2);
                RLit (B " fps")])
    with (RCat (RGroup 1 (RAlt (RSeq [Rd2; RChar "."; Rd2]) Rd2))
               (RCat (RLit (B " fps")) REmpty)).
  cbn [rmatch]. rewrite rmatch_decimal, rmatch_integer.
  rewrite !(rmatch_RLit (B " fps")).
  cbn [B list_ascii_of_string length].
  destruct (decimal_shape s); cbn [andb].
  - destruct (HasPrefix (skipn 5 s) _).
    + f_equal. f_equal. lia.
    + destruct (integer_shape s); cbn [andb]; [| reflexivity].
      destruct (HasPrefix (skipn 2 s) _); [| reflexivity].
      f_equal. f_equal. lia.
  - destruct (integer_shape s); cbn [andb]; [| reflexivity].
    destruct (HasPrefix (skipn 2 s) _); [| reflexivity].
    f_equal. f_equal. lia.
Qed.

Lemma converts_to_sound g v inv :
  converts_to g v = true ->
  match ParseFloat g with
  | Some f => int_of_float inv f
  | None => 0
  end = v.
Proof.
  unfold converts_to, int_of_float.
  destruct (ParseFloat g) as [f|]; [| discriminate].
  destruct (trunc_float f) as [z|]; [| discriminate].
  intros H. apply andb_true_iff in H. destruct H as [H1 H2].
  rewrite H2. apply Z.eqb_eq, H1.
Qed.

(** All the numerals the frame-rate pattern can capture, converted. *)
Lemma decimal_numerals_convert :
  forallb (fun a => forallb (fun b => forallb (fun c => forallb (fun d =>
    converts_to [a; b; "."%char; c; d] (pair_value [a; b]))
    decimal_digits) decimal_digits) decimal_digits) decimal_digits = true.
Proof. vm_compute. reflexivity. Qed.

Lemma integer_numerals_convert :
  forallb (fun a => forallb (fun b =>
    converts_to [a; b] (pair_value [a; b]))
    decimal_digits) decimal_digits = true.
Proof. vm_compute. reflexivity. Qed.

Lemma fps_value_decimal inv a b c d :
  is_digit a = true -> is_digit b = true ->
  is_digit c = true -> is_digit d = true ->
  match ParseFloat [a; b; "."%char; c; d] with
  | Some f => int_of_float inv f
  | None => 0
  end = pair_value [a; b].
Proof.
  intros Ha Hb Hc Hd. apply converts_to_sound.
  pose proof decimal_numerals_convert as H.
  rewrite forallb_forall in H.
  specialize (H a (is_digit_cases a Ha)). rewrite forallb_forall in H.
  specialize (H b (is_digit_cases b Hb)). rewrite forallb_forall in H.
  specialize (H c (is_digit_cases c Hc)). rewrite forallb_forall in H.
  exact (H d (is_digit_cases d Hd)).
Qed.

Lemma fps_value_integer inv a b :
  is_digit a = true -> is_digit b = true ->
  match ParseFloat [a; b] with
  | Some f => int_of_float inv f
  | None => 0
  end = pair_value [a; b].
Proof.
  intros Ha Hb. apply converts_to_sound.
  pose proof integer_numerals_convert as H.
  rewrite forallb_forall in H.
  specialize (H a (is_digit_cases a Ha)). rewrite forallb_forall in H.
  exact (H b (is_digit_cases b Hb)).
Qed.

Lemma pair_value_range a b :
  is_digit a = true -> is_digit b = true -> 0 <= pair_value [a; b] <= 99.
Proof.
  intros Ha Hb. apply (Atoi_two_digits [a; b]).
  cbn [two_digits]. rewrite Ha, Hb. reflexivity.
Qed.

Lemma decimal_shape_inv s :
  decimal_shape s = true ->
  exists a b c d rest,
    s = a :: b :: "."%char :: c :: d :: rest /\
    is_digit a = true /\ is_digit b = true /\
    is_digit c = true /\ is_digit d = true.
Proof.
  unfold decimal_shape.
  destruct s as [|a [|b [|p [|c [|d rest]]]]]; try discriminate.
  intros H.
  apply andb_true_iff in H. destruct H as [H Hd].
  apply andb_true_iff in H. destruct H as [H Hc].
  apply andb_true_iff in H. destruct H as [H Hp].
  apply andb_true_iff in H. destruct H as [Ha Hb].
  apply Ascii.eqb_eq in Hp. subst p. exists a, b, c, d, rest.
  repeat split; assumption.
Qed.

Lemma integer_shape_inv s :
  integer_shape s = true ->
  exists a b rest, s = a :: b :: rest /\
                   is_digit a = true /\ is_digit b = true.
Proof.
  unfold integer_shape. destruct s as [|a [|b rest]]; try discriminate.
  intros H. apply andb_true_iff in H. exists a, b, rest. tauto.
Qed.

Lemma getFPS_read line :
  (forall env, getFPS env line = 0) \/
  exists pre a b rest,
    line = pre ++ [a; b] ++ rest /\
    is_digit a = true /\ is_digit b = true /\
    (HasPrefix rest (B " fps") = true \/
     exists c d, is_digit c = true /\ is_digit d = true /\
                 HasPrefix rest ("."%char :: c :: d :: B " fps") = true) /\
    forall env, getFPS env line = pair_value [a; b].
Proof.
  unfold getFPS.
  destruct (FindStringSubmatch fpsRx 1 line) as [ms|] eqn:F;
    [| left; reflexivity].
  right. unfold FindStringSubmatch in F.
  destruct (find_from_sound _ _ line 0 line ms eq_refl F)
    as (p & e & cs & M & ->).
  rewrite match_at_fpsRx in M.
  cbn [seq map group_text cap_lookup Nat.eqb].
  assert (L : line = firstn p line ++ skipn p line)
    by (symmetry; apply firstn_skipn).
  destruct (decimal_shape (skipn p line)
            && HasPrefix (skipn 5 (skipn p line)) (B " fps")) eqn:D.
  - injection M as <- <-. cbn [cap_lookup Nat.eqb].
    apply andb_true_iff in D. destruct D as [D1 D2].
    destruct (decimal_shape_inv _ D1)
      as (a & b & c & d & rest & E & Ha & Hb & Hc & Hd).
    assert (G : group_text line [(1%nat, (p, (5 + p)%nat))] 1
                = [a; b; "."%char; c; d]).
    { cbn [group_text cap_lookup Nat.eqb].
      transitivity (slice (skipn p line) 0 5);
        [exact (slice_skipn line p 0 5) | rewrite E; reflexivity]. }
    cbn [Nat.add] in G.
    exists (firstn p line), a, b, ("."%char :: c :: d :: rest).
    rewrite E in L, D2. cbn [skipn] in D2.
    split; [exact L |]. split; [exact Ha |]. split; [exact Hb |]. split.
    + right. exists c, d. repeat split; try assumption.
      cbn [HasPrefix]. rewrite !Ascii.eqb_refl. exact D2.
    + intros env. rewrite !G. apply fps_value_decimal; assumption.
  - destruct (integer_shape (skipn p line)
              && HasPrefix (skipn 2 (skipn p line)) (B " fps")) eqn:I;
      [| discriminate].
    injection M as <- <-. cbn [cap_lookup Nat.eqb].
    apply andb_true_iff in I. destruct I as [I1 I2].
    destruct (integer_shape_inv _ I1) as (a & b & rest & E & Ha & Hb).
    assert (G : group_text line [(1%nat, (p, (2 + p)%nat))] 1 = [a; b]).
    { cbn [group_text cap_lookup Nat.eqb].
      transitivity (slice (skipn p line) 0 2);
        [exact (slice_skipn line p 0 2) | rewrite E; reflexivity]. }
    cbn [Nat.add] in G.
    exists (firstn p line), a, b, rest.
    rewrite E in L, I2. cbn [skipn] in I2.
    split; [exact L |]. split; [exact Ha |]. split; [exact Hb |]. split.
    + left. exact I2.
    + intros env. rewrite !G. apply fps_value_integer; assumption.
Qed.

Lemma getFPS_range env line : 0 <= getFPS env line <= 99.
Proof.
  destruct (getFPS_read line)
    as [Z0 | (pre & a & b & rest & _ & Ha & Hb & _ & V)].
  - rewrite (Z0 env). lia.
  - rewrite (V env). apply pair_value_range; assumption.
Qed.

(** X10.  Whatever the line and the machine, the frame rate read from the line
    lies between 0 and 99.  When it is not 0, the line holds two digits
    followed by [ fps] or by a point, two more digits and [ fps], and the
    frame rate is the number the two digits spell: the decimals are
    cut off, not rounded. *)
Theorem getFPS_sound env line :
  0 <= getFPS env line <= 99 /\
  (forall env', getFPS env' line = getFPS env line) /\
  (getFPS env line <> 0 ->
   exists pre a b rest,
     line = pre ++ [a; b] ++ rest /\
     is_digit a = true /\ is_digit b = true /\
     (HasPrefix rest (B " fps") = true \/
      exists c d, is_digit c = true /\ is_digit d = true /\
                  HasPrefix rest ("."%char :: c :: d :: B " fps") = true) /\
     getFPS env line = pair_value [a; b]).
Proof.
  split; [apply getFPS_range |].
  destruct (getFPS_read line)
    as [Z0 | (pre & a & b & rest & E & Ha & Hb & Hs & V)].
  - split; [intros env'; rewrite (Z0 env), (Z0 env'); reflexivity |].
    intros H. elim H. apply Z0.
  - split; [intros env'; rewrite (V env), (V env'); reflexivity |].
    intros _. exists pre, a, b, rest.
    split; [exact E |]. split; [exact Ha |]. split; [exact Hb |].
    split; [exact Hs | apply V].
Qed.

Lemma rate_here_value inv s :
  rate_here s = true ->
  match match_at fpsRx 0 s with
  | Some (e, cs) =>
    match ParseFloat (group_text s cs 1) with
    | Some f => int_of_float inv f
    | None => 0
    end = pair_value (firstn 2 s)
  | None => False
  end.
Proof.
  unfold rate_here. intros H. rewrite match_at_fpsRx.
  destruct (decimal_shape s && HasPrefix (skipn 5 s) (B " fps")) eqn:D.
  - apply andb_true_iff in D. destruct D as [D _].
    destruct (decimal_shape_inv _ D)
      as (a & b & c & d & rest & -> & Ha & Hb & Hc & Hd).
    apply (fps_value_decimal inv a b c d); assumption.
  - cbn [orb] in H. rewrite H. apply andb_true_iff in H. destruct H as [I _].
    destruct (integer_shape_inv _ I) as (a & b & rest & -> & Ha & Hb).
    apply (fps_value_integer inv a b); assumption.
Qed.

Lemma no_rate_here pos s : rate_here s = false -> match_at fpsRx pos s = None.
Proof.
  unfold rate_here. intros H. apply orb_false_iff in H. destruct H as [D I].
  rewrite match_at_fpsRx, D, I. reflexivity.
Qed.

(** The captured text does not depend on where in the line the match
    stands. *)
Lemma match_at_fpsRx_shift full pos s :
  s = skipn pos full ->
  match match_at fpsRx pos s, match_at fpsRx 0 s with
  | Some (_, cs), Some (_, cs0) => group_text full cs 1 = group_text s cs0 1
  | None, None => True
  | _, _ => False
  end.
Proof.
  intros ->. rewrite !match_at_fpsRx.
  destruct (decimal_shape _ && _).
  - cbn [group_text cap_lookup Nat.eqb]. rewrite Nat.add_0_r.
    exact (slice_skipn full pos 0 5).
  - destruct (integer_shape _ && _); [| exact I].
    cbn [group_text cap_lookup Nat.eqb]. rewrite Nat.add_0_r.
    exact (slice_skipn full pos 0 2).
Qed.

Lemma find_from_first_rate inv full pos s :
  s = skipn pos full ->
  match find_from fpsRx 1 full pos s with
  | Some [_; m1] =>
    match ParseFloat m1 with
    | Some f => int_of_float inv f
    | None => 0
    end
  | _ => 0
  end
  = match first_rate s with
    | Some t => pair_value (firstn 2 t)
    | None => 0
    end.
Proof.
  revert pos. induction s as [|c s IH]; intros pos Hs.
  - cbn [find_from first_rate].
    pose proof (match_at_fpsRx_shift full pos [] Hs) as Sh.
    destruct (rate_here []) eqn:R.
    + pose proof (rate_here_value inv [] R) as V.
      destruct (match_at fpsRx 0 []) as [[e0 cs0]|]; [| contradiction].
      destruct (match_at fpsRx pos []) as [[e cs]|]; [| contradiction].
      cbn [seq map]. rewrite Sh. exact V.
    + rewrite (no_rate_here pos [] R). reflexivity.
  - cbn [find_from first_rate].
    pose proof (match_at_fpsRx_shift full pos (c :: s) Hs) as Sh.
    destruct (rate_here (c :: s)) eqn:R.
    + pose proof (rate_here_value inv (c :: s) R) as V.
      destruct (match_at fpsRx 0 (c :: s)) as [[e0 cs0]|]; [| contradiction].
      destruct (match_at fpsRx pos (c :: s)) as [[e cs]|]; [| contradiction].
      cbn [seq map]. rewrite Sh. exact V.
    + rewrite (no_rate_here pos (c :: s) R).
      apply IH. symmetry. apply (skipn_S_cons full pos c s). auto.
Qed.

(** X11.  The frame rate is read at the first place of the line where a
    rate stands, that is two digits followed by [ fps], or by a point,
    two more digits and [ fps]: it is the number the two digits at that
    place spell, and 0 when there is no such place.  So the place need not
    be at the first [ fps] of the line, digits further to the left are not
    part of the number, and of a decimal rate with one digit before the
    point the decimals are read. *)
Theorem getFPS_first_rate env line :
  getFPS env line
  = match first_rate line with
    | Some t => pair_value (firstn 2 t)
    | None => 0
    end /\
  getFPS env (B "Stream #0:0: Video: h264, 29.97 fps, 30 tbr") = 29 /\
  getFPS env (B "Stream #0:0: Video: h264, 120 fps, 120 tbr") = 20 /\
  getFPS env (B "Stream #0:0: Video: h264, 5 fps, 30 fps") = 30 /\
  getFPS env (B "Stream #0:0: Video: h264, 1.25 fps") = 25.
Proof.
  assert (G : forall l, getFPS env l
                        = match first_rate l with
                          | Some t => pair_value (firstn 2 t)
                          | None => 0
                          end).
  { intros l. unfold getFPS, FindStringSubmatch.
    apply (find_from_first_rate (convInvalid env) l 0 l). reflexivity. }
  split; [apply G |].
  repeat split; rewrite G; reflexivity.
Qed.

(* ================================================================== *)
(** * Further properties of the notifier *)
(* ================================================================== *)

(** ** What a position line does to the bar *)

Lemma progress_no_match env ln cpn w :
  FindStringSubmatch progressRx 3 ln = None ->
  progress env ln cpn w = (cpn, w).
Proof. intros H. unfold progress. rewrite H. reflexivity. Qed.

Lemma progress_next_sample env ln cpn w m0 m1 m2 m3 pb0 :
  FindStringSubmatch progressRx 3 ln = Some [m0; m1; m2; m3] ->
  pbar cpn = Some pb0 ->
  exists pb,
    pbar (fst (progress env ln cpn w)) = Some pb /\
    current pb
    = (if 0 <? fps cpn then wrap64 (seconds m1 m2 m3 * fps cpn)
       else seconds m1 m2 m3) /\
    same_frame pb0 pb.
Proof.
  intros Hm Hp. unfold progress. rewrite Hm, Hp.
  destruct (0 <? fps cpn); unfold bind, ret; simpl;
    match goal with
    | |- context [Update ?e ?c ?p ?w] =>
      destruct (Update_sample e c p w)
        as (Hc & Ht & Hu & Hd & Hy & Hk & Hs & Hst);
      destruct (Update e c p w) as [pb' w'] eqn:HU
    end; simpl in *; exists pb'; unfold same_frame;
    repeat split; assumption.
Qed.

Lemma progressRx_captures ln ms :
  FindStringSubmatch progressRx 3 ln = Some ms ->
  exists m0 h m s,
    ms = [m0; h; m; s] /\ two_digits h = true /\ two_digits m = true /\
    two_digits s = true /\ In "="%char ln.
Proof.
  rewrite progressRx_eq. intros F.
  destruct (FindStringSubmatch_hms _ _ _ F)
    as (pre & h & m & s & rest & m0 & E & Hh & Hm & Hs & ->).
  exists m0, h, m, s. repeat split; try assumption.
  rewrite E. apply in_or_app. right. cbn. tauto.
Qed.

(** ** The facts and the bar stay in range *)

Lemma wrap64_small z : - 2 ^ 63 <= z < 2 ^ 63 -> wrap64 z = z.
Proof. intros H. unfold wrap64. rewrite Z.mod_small; lia. Qed.

Lemma progress_in_bounds env ln cpn w :
  in_bounds cpn -> in_bounds (fst (progress env ln cpn w)).
Proof.
  intros (Hd & Hf & Hb).
  destruct (FindStringSubmatch progressRx 3 ln) as [ms|] eqn:F;
    [| rewrite (progress_no_match _ _ _ _ F); exact (conj Hd (conj Hf Hb))].
  destruct (progressRx_captures _ _ F) as (m0 & h & m & s & -> & Hh & Hm & Hs & _).
  destruct (seconds_two_digits h m s Hh Hm Hs) as [_ Hsec].
  destruct (progress_fields env ln cpn w) as (_ & _ & Kd & _ & Kf & _).
  cbv zeta in Kd, Kf.
  assert (Hcur : 0 <= (if 0 <? fps cpn then wrap64 (seconds h m s * fps cpn)
                       else seconds h m s) <= 35881461).
  { destruct (0 <? fps cpn) eqn:E; [| lia].
    rewrite wrap64_small; nia. }
  unfold in_bounds. rewrite Kd, Kf.
  split; [exact Hd |]. split; [exact Hf |].
  destruct (pbar cpn) as [pb0|] eqn:P.
  - destruct (progress_next_sample env ln cpn w _ _ _ _ pb0 F P)
      as (pb & -> & Kc & Kt & _).
    rewrite Kc, Kt. split; [tauto | exact Hcur].
  - destruct (progress_first_sample env ln cpn w _ _ _ _ F P)
      as (pb & -> & Kc & Kt & _).
    rewrite Kc, Kt. split; [| exact Hcur].
    destruct ((0 <? fps cpn) && (0 <? duration cpn)) eqn:E; [| lia].
    rewrite wrap64_small; nia.
Qed.

Lemma ProcessChar_in_bounds env c cpn w :
  in_bounds cpn -> in_bounds (fst (ProcessChar env c cpn w)).
Proof.
  intros H. destruct (is_terminator c) eqn:Ht.
  - rewrite (ProcessChar_terminator _ _ _ _ Ht). cbv zeta.
    apply progress_in_bounds.
    destruct H as (Hd & Hf & Hb). unfold in_bounds. cbn -[Z.le].
    split; [| split; [| exact Hb]].
    + destruct (duration cpn =? 0); [apply getDuration_range | exact Hd].
    + destruct (fps cpn =? 0); [apply getFPS_range | exact Hf].
  - destruct (HasSuffix (lineAcc cpn ++ [c]) prompt_suffix) eqn:Hp.
    + rewrite (ProcessChar_prompt _ _ _ _ Hp). exact H.
    + rewrite (ProcessChar_plain _ _ _ _ Ht Hp). exact H.
Qed.

(** X12.  Whatever the wrapped process writes, the facts and the bar stay in
    range: the duration is at most 362439 seconds, the frame rate at
    most 99, the total and the current value of the bar at most
    35881461, their product.  So no integer of the progress model ever
    overflows, and every total is far below 2^53. *)
Theorem feed_in_bounds env bytes fileSupportsColor useColors w :
  in_bounds (fst (feed env bytes
                       (NewColoredProgressNotifier fileSupportsColor useColors)
                       w)).
Proof.
  assert (G : forall cpn w, in_bounds cpn ->
                            in_bounds (fst (feed env bytes cpn w))).
  { induction bytes as [|b bytes IH]; intros cpn w' H; [exact H |].
    rewrite feed_cons. apply IH, ProcessChar_in_bounds, H. }
  apply G. unfold in_bounds. cbn. lia.
Qed.

(** ** The bar is made once *)

Lemma same_frame_refl pb : same_frame pb pb.
Proof. unfold same_frame. repeat split. Qed.

Lemma same_frame_trans a b c : same_frame a b -> same_frame b c -> same_frame a c.
Proof.
  unfold same_frame. intros (H1 & H2 & H3 & H4 & H5 & H6 & H7)
                            (K1 & K2 & K3 & K4 & K5 & K6 & K7).
  repeat split; congruence.
Qed.

Lemma progress_same_frame env ln cpn w pb :
  pbar cpn = Some pb ->
  exists pb', pbar (fst (progress env ln cpn w)) = Some pb' /\
              same_frame pb pb'.
Proof.
  intros P.
  destruct (FindStringSubmatch progressRx 3 ln) as [ms|] eqn:F.
  - destruct (progressRx_captures _ _ F) as (m0 & h & m & s & -> & _).
    destruct (progress_next_sample env ln cpn w _ _ _ _ pb F P)
      as (pb' & E & _ & S).
    exists pb'. auto.
  - rewrite (progress_no_match _ _ _ _ F). exists pb.
    split; [exact P | apply same_frame_refl].
Qed.

Lemma ProcessChar_same_frame env c cpn w pb :
  pbar cpn = Some pb ->
  exists pb', pbar (fst (ProcessChar env c cpn w)) = Some pb' /\
              same_frame pb pb'.
Proof.
  intros P. destruct (is_terminator c) eqn:Ht.
  - rewrite (ProcessChar_terminator _ _ _ _ Ht). cbv zeta.
    apply progress_same_frame. exact P.
  - exists pb. split; [| apply same_frame_refl].
    destruct (HasSuffix (lineAcc cpn ++ [c]) prompt_suffix) eqn:Hp.
    + rewrite (ProcessChar_prompt _ _ _ _ Hp). exact P.
    + rewrite (ProcessChar_plain _ _ _ _ Ht Hp). exact P.
Qed.

(** X13.  Once the bar exists it is never made anew: whatever bytes follow,
    there is still a bar, and its total, description, unit, start time,
    colors and minimum delay are what they were.  So a duration or a
    source name learned after the bar was made changes neither its total
    nor its description, and a frame rate learned later changes neither
    its unit nor its total.  The current value and the time of the last
    redraw are not among the fields kept. *)
Theorem feed_keeps_the_bar env bytes cpn w pb :
  pbar cpn = Some pb ->
  exists pb', pbar (fst (feed env bytes cpn w)) = Some pb' /\
              same_frame pb pb'.
Proof.
  revert cpn w pb. induction bytes as [|b bytes IH]; intros cpn w pb P.
  - exists pb. split; [exact P | apply same_frame_refl].
  - rewrite feed_cons.
    destruct (ProcessChar_same_frame env b cpn w pb P) as (pb1 & P1 & S1).
    destruct (IH _ (snd (ProcessChar env b cpn w)) pb1 P1) as (pb2 & P2 & S2).
    exists pb2. split; [exact P2 | exact (same_frame_trans _ _ _ S1 S2)].
Qed.

(** A position line that comes before the duration line creates a bar
    with total 0; the duration line that follows sets the duration to
    90, and the total of the bar stays 0. *)
Lemma feed_keeps_the_bar_witness :
  let r0 := feed sample_env (line (B "time=00:00:10.00"))
                 plain_notifier world0 in
  let later := line (B "Duration: 00:01:30.00")
               ++ line (B "time=00:00:20.00") in
  let r1 := feed sample_env later (fst r0) (snd r0) in
  exists pb pb',
    pbar (fst r0) = Some pb /\ total pb = 0 /\
    pbar (fst r1) = Some pb' /\ same_frame pb pb' /\
    duration (fst r1) = 90.
Proof.
  cbv zeta.
  destruct (pbar (fst (feed sample_env (line (B "time=00:00:10.00"))
                            plain_notifier world0))) as [pb|] eqn:E;
    [| vm_compute in E; discriminate E].
  destruct (feed_keeps_the_bar sample_env
              (line (B "Duration: 00:01:30.00") ++ line (B "time=00:00:20.00"))
              _ (snd (feed sample_env (line (B "time=00:00:10.00"))
                           plain_notifier world0)) pb E)
    as (pb' & E' & S).
  exists pb, pb'. split; [reflexivity |]. split.
  - vm_compute in E. injection E as <-. reflexivity.
  - split; [exact E' |]. split; [exact S |]. vm_compute. reflexivity.
Defined.

(** ** The sample a position line yields *)

Lemma progress_first_start env ln cpn w m0 m1 m2 m3 :
  FindStringSubmatch progressRx 3 ln = Some [m0; m1; m2; m3] ->
  pbar cpn = None ->
  exists pb,
    pbar (fst (progress env ln cpn w)) = Some pb /\
    startTime pb = clock env (ticks w) /\
    (50 * Millisecond <= clock env (S (ticks w)) ->
     exists frame,
       stderr (snd (progress env ln cpn w))
       = stderr w ++ [clear_line; frame]).
Proof.
  intros Hm Hp. unfold progress. rewrite Hm, Hp.
  destruct (0 <? fps cpn); unfold bind, NewProgressBar, Now, ret;
    simpl;
    match goal with
    | |- context [Update ?e ?c ?p ?w] =>
      destruct (Update_sample e c p w) as (_ & _ & _ & _ & _ & _ & _ & Hst);
      pose proof (Update_eq e c p w) as HU;
      destruct (Update e c p w) as [pb' w'] eqn:E
    end;
    cbv zeta in Hst, HU;
    cbn [fst snd startTime lastUpdate updateDelay ticks tick set_current
         set_lastUpdate] in Hst, HU |- *;
    (exists pb'; split; [reflexivity |]; split; [exact Hst |];
     intros Hclock;
     match type of HU with
     | context [Sub ?x 0 <? ?d] =>
       replace (Sub x 0 <? d) with false in HU
         by (symmetry; apply Z.ltb_ge;
             unfold Sub, minDuration, maxDuration, Millisecond in *; lia)
     end;
     cbv beta iota zeta in HU; rewrite render_eq in HU;
     cbn [snd] in HU; injection HU as _ ->;
     eexists; reflexivity).
Qed.

Lemma terminator_facts_in_bounds env cpn ln ls acc buf :
  in_bounds cpn ->
  in_bounds
    (with_facts
       (if duration cpn =? 0 then getDuration ln else duration cpn)
       (match source cpn with [] => getSource ln | s => s end)
       (if fps cpn =? 0 then getFPS env ln else fps cpn)
       (with_lines ls acc (with_stderrBuffer buf cpn))).
Proof.
  intros (Hd & Hf & Hb). unfold in_bounds. cbn -[Z.le].
  split; [| split; [| exact Hb]].
  - destruct (duration cpn =? 0); [apply getDuration_range | exact Hd].
  - destruct (fps cpn =? 0); [apply getFPS_range | exact Hf].
Qed.

(** X14.  What the line feed or carriage return after a position line does.
    The position is read from the first [time=] of the line, as hours,
    minutes and seconds in seconds, and multiplied by the frame rate when
    one is known; the facts the line itself carries count.  A bar that
    exists keeps its total, unit and description and takes the position
    as its current value.  Otherwise a bar is made: its total is the
    duration, in the same unit as the position (0 when no duration is
    known), its description the source name or [Processing], its start
    the time of this byte; and its first frame is drawn at once. *)
Theorem position_line_sample env c cpn w pre h m s g1 g2 rest :
  is_terminator c = true ->
  lineAcc cpn = pre ++ B "time=" ++ h ++ B ":" ++ m ++ B ":" ++ s
                    ++ B "." ++ g1 :: g2 :: rest ->
  first_after pre (B "time=") = true ->
  two_digits h = true -> two_digits m = true -> two_digits s = true ->
  is_digit g1 = true -> is_digit g2 = true ->
  in_bounds cpn ->
  let r := ProcessChar env c cpn w in
  let cpn' := fst r in
  let secs := 3600 * pair_value h + 60 * pair_value m + pair_value s in
  let scale := if 0 <? fps cpn' then fps cpn' else 1 in
  exists pb,
    pbar cpn' = Some pb /\
    current pb = secs * scale /\
    match pbar cpn with
    | Some pb0 => same_frame pb0 pb
    | None =>
      total pb = duration cpn' * scale /\
      unit_ pb = (if 0 <? fps cpn' then B "frames" else B "seconds") /\
      desc pb = match source cpn' with [] => B "Processing" | n => n end /\
      startTime pb = clock env (ticks w) /\
      (50 * Millisecond <= clock env (S (ticks w)) ->
       exists frame, stderr (snd r) = stderr w ++ [clear_line; frame])
    end.
Proof.
  intros Ht Hl Hpre Hh Hm Hs H1 H2 Hb r cpn' secs scale.
  subst r cpn' scale. rewrite (ProcessChar_terminator _ _ _ _ Ht). cbv zeta.
  set (ln := lineAcc cpn).
  match goal with
  | |- context [progress env ln ?x w] => set (cpn2 := x)
  end.
  assert (B2 : in_bounds cpn2) by (apply terminator_facts_in_bounds, Hb).
  assert (F : FindStringSubmatch progressRx 3 ln
              = Some [B "time=" ++ h ++ ":"%char :: m ++ ":"%char :: s
                        ++ "."%char :: [g1; g2]; h; m; s]).
  { unfold ln. rewrite Hl, progressRx_eq.
    apply (FindStringSubmatch_hms_first (B "time=")); assumption. }
  destruct (seconds_two_digits h m s Hh Hm Hs) as [Esec Rsec].
  destruct (progress_fields env ln cpn2 w) as (_ & _ & Kd & Ks & Kf & _).
  cbv zeta in Kd, Ks, Kf. rewrite Kd, Ks, Kf.
  destruct B2 as (Bd & Bf & _).
  assert (Ecur : (if 0 <? fps cpn2 then wrap64 (seconds h m s * fps cpn2)
                  else seconds h m s)
                 = secs * (if 0 <? fps cpn2 then fps cpn2 else 1)).
  { unfold secs. rewrite <- Esec.
    destruct (0 <? fps cpn2); [rewrite wrap64_small; nia | lia]. }
  assert (P2 : pbar cpn2 = pbar cpn) by reflexivity.
  destruct (pbar cpn) as [pb0|] eqn:P.
  - destruct (progress_next_sample env ln cpn2 w _ _ _ _ pb0 F P2)
      as (pb & E & Kc & S).
    exists pb. rewrite Kc, Ecur. auto.
  - destruct (progress_first_sample env ln cpn2 w _ _ _ _ F P2)
      as (pb & E & Kc & Kt & Ku & Kn).
    destruct (progress_first_start env ln cpn2 w _ _ _ _ F P2)
      as (pb' & E' & Kst & Kdraw).
    rewrite E in E'. injection E' as <-.
    exists pb. rewrite Kc, Ecur, Kt, Ku, Kn.
    split; [exact E |]. split; [reflexivity |].
    split; [| split; [reflexivity | split; [reflexivity |
                                            split; [exact Kst | exact Kdraw]]]].
    destruct (0 <? fps cpn2) eqn:E1; cbn [andb]; [| lia].
    destruct (0 <? duration cpn2) eqn:E2; [rewrite wrap64_small; nia | lia].
Qed.

(** A progress line of ffmpeg that arrives before any frame rate is
    known: the two digits in front of [ fps], the end of the frame
    count, become the frame rate, and the position of 10 seconds becomes
    500 frames. *)
Lemma position_line_sample_witness :
  let ln := B "frame=  250 fps= 25 q=28.0 size=    1024kB time=00:00:10.00 bitrate= 838.9kbits/s" in
  let cpn := with_lines [] ln plain_notifier in
  let r := ProcessChar sample_env LF cpn world0 in
  in_bounds cpn /\
  fps (fst r) = 50 /\
  exists pb,
    pbar (fst r) = Some pb /\ current pb = 500 /\ total pb = 0 /\
    unit_ pb = B "frames" /\ desc pb = B "Processing".
Proof.
  cbv zeta.
  assert (Hb : in_bounds
                 (with_lines [] (B "frame=  250 fps= 25 q=28.0 size=    1024kB time=00:00:10.00 bitrate= 838.9kbits/s")
                             plain_notifier)).
  { unfold in_bounds. cbn. lia. }
  split; [exact Hb |]. split; [vm_compute; reflexivity |].
  destruct (position_line_sample sample_env LF
              (with_lines [] (B "frame=  250 fps= 25 q=28.0 size=    1024kB time=00:00:10.00 bitrate= 838.9kbits/s")
                          plain_notifier)
              world0
              (B "frame=  250 fps= 25 q=28.0 size=    1024kB ")
              (B "00") (B "00") (B "10") "0" "0"
              (B " bitrate= 838.9kbits/s")
              eq_refl eq_refl eq_refl eq_refl eq_refl eq_refl eq_refl eq_refl
              Hb)
    as (pb & E & Kc & Kt & Ku & Kn & _).
  exists pb. split; [exact E |].
  split; [rewrite Kc; vm_compute; reflexivity |].
  split; [rewrite Kt; vm_compute; reflexivity |].
  split; [rewrite Ku; vm_compute; reflexivity |].
  rewrite Kn. vm_compute. reflexivity.
Defined.

(** ** The line accumulator loses nothing *)

Lemma ProcessChar_lines env c cpn w :
  let cpn' := fst (ProcessChar env c cpn w) in
  (is_terminator c = true /\
   lines cpn' = lines cpn ++ [lineAcc cpn] /\ lineAcc cpn' = []) \/
  (is_terminator c = false /\
   lines cpn' = lines cpn ++ [lineAcc cpn ++ [c]] /\ lineAcc cpn' = []) \/
  (is_terminator c = false /\
   lines cpn' = lines cpn /\ lineAcc cpn' = lineAcc cpn ++ [c]).
Proof.
  cbv zeta. destruct (is_terminator c) eqn:Ht.
  - left. rewrite (ProcessChar_terminator _ _ _ _ Ht). cbv zeta.
    match goal with
    | |- context [progress ?e ?l ?x ?w] =>
      destruct (progress_fields e l x w) as (Hl & Ha & _)
    end.
    cbv zeta in Hl, Ha. rewrite Hl, Ha. auto.
  - right. destruct (HasSuffix (lineAcc cpn ++ [c]) prompt_suffix) eqn:Hp.
    + left. rewrite (ProcessChar_prompt _ _ _ _ Hp). auto.
    + right. rewrite (ProcessChar_plain _ _ _ _ Ht Hp). auto.
Qed.

(** X15.  The accumulator loses no byte and splits at every terminator: the
    lines of the history and the line in progress, put end to end, are
    the bytes received without the carriage returns and line feeds; the
    history only grows, and no line in it holds a terminator. *)
Theorem feed_splits_lines env bytes cpn w :
  forallb in_line (lineAcc cpn) = true ->
  let cpn' := fst (feed env bytes cpn w) in
  concat (lines cpn') ++ lineAcc cpn'
  = concat (lines cpn) ++ lineAcc cpn ++ filter in_line bytes /\
  forallb in_line (lineAcc cpn') = true /\
  exists new,
    lines cpn' = lines cpn ++ new /\
    Forall (fun l => forallb in_line l = true) new.
Proof.
  cbv zeta. revert cpn w.
  induction bytes as [|b bytes IH]; intros cpn w Hacc.
  - cbn [feed ret fst filter]. rewrite app_nil_r.
    split; [reflexivity |]. split; [exact Hacc |].
    exists []. rewrite app_nil_r. auto.
  - rewrite feed_cons.
    set (cpn1 := fst (ProcessChar env b cpn w)).
    set (w1 := snd (ProcessChar env b cpn w)).
    destruct (ProcessChar_lines env b cpn w)
      as [(Ht & Hl & Ha) | [(Ht & Hl & Ha) | (Ht & Hl & Ha)]];
      fold cpn1 in Hl, Ha.
    + destruct (IH cpn1 w1) as (E & A & new & L & N);
        [rewrite Ha; reflexivity |].
      split; [| split; [exact A |]].
      * rewrite E, Hl, Ha. cbn [filter]. unfold in_line at 2.
        rewrite Ht. cbn [negb].
        rewrite concat_app. cbn [concat app].
        rewrite app_nil_r, <- !app_assoc. reflexivity.
      * exists (lineAcc cpn :: new).
        split; [rewrite L, Hl, <- app_assoc; reflexivity |].
        constructor; assumption.
    + destruct (IH cpn1 w1) as (E & A & new & L & N);
        [rewrite Ha; reflexivity |].
      split; [| split; [exact A |]].
      * rewrite E, Hl, Ha. cbn [filter]. unfold in_line at 2.
        rewrite Ht. cbn [negb].
        rewrite concat_app. cbn [concat app].
        rewrite app_nil_r, <- !app_assoc. reflexivity.
      * exists ((lineAcc cpn ++ [b]) :: new).
        split; [rewrite L, Hl, <- app_assoc; reflexivity |].
        constructor; [| exact N].
        rewrite forallb_app, Hacc. cbn [forallb]. unfold in_line.
        rewrite Ht. reflexivity.
    + destruct (IH cpn1 w1) as (E & A & new & L & N).
      { rewrite Ha, forallb_app, Hacc. cbn [forallb]. unfold in_line.
        rewrite Ht. reflexivity. }
      split; [| split; [exact A |]].
      * rewrite E, Hl, Ha. cbn [filter]. unfold in_line at 2.
        rewrite Ht. cbn [negb]. rewrite <- !app_assoc. reflexivity.
      * exists new. rewrite L, Hl. auto.
Qed.

Lemma feed_splits_lines_witness :
  let bytes := B "Overwrite? [y/N] y" ++ [CR; LF] ++ B "frame=1" in
  let cpn' := fst (feed sample_env bytes plain_notifier world0) in
  forallb in_line (lineAcc plain_notifier) = true /\
  lines cpn' = [B "Overwrite? [y/N] "; B "y"; []] /\
  lineAcc cpn' = B "frame=1" /\
  concat (lines cpn') ++ lineAcc cpn'
  = concat (lines plain_notifier) ++ lineAcc plain_notifier
      ++ filter in_line bytes.
Proof.
  cbv zeta. split; [reflexivity |].
  split; [vm_compute; reflexivity |]. split; [vm_compute; reflexivity |].
  apply (feed_splits_lines sample_env
           (B "Overwrite? [y/N] y" ++ [CR; LF] ++ B "frame=1")
           plain_notifier world0).
  reflexivity.
Defined.

(** ** What reaches the terminal *)

Lemma progress_frame_written env ln cpn w :
  stderr (snd (progress env ln cpn w)) = stderr w \/
  (FindStringSubmatch progressRx 3 ln <> None /\
   exists pb,
     pbar (fst (progress env ln cpn w)) = Some pb /\
     stderr (snd (progress env ln cpn w))
     = stderr w ++ [clear_line;
                    frame_at env pb (match pbar cpn with
                                     | Some _ => tick w
                                     | None => tick (tick w)
                                     end)]).
Proof.
  unfold progress.
  destruct (FindStringSubmatch progressRx 3 ln)
    as [[|m0 [|m1 [|m2 [|m3 [|? ?]]]]]|]; try (left; reflexivity).
  destruct (0 <? fps cpn); unfold bind, NewProgressBar, Now, ret;
    destruct (pbar cpn) as [pb0|]; simpl;
    match goal with
    | |- context [Update ?e ?c ?p ?w] =>
      pose proof (Update_eq e c p w) as HU;
      destruct (Update e c p w) as [pb' w'] eqn:E
    end;
    cbv zeta in HU;
    match type of HU with
    | context [if ?b then _ else _] => destruct b
    end;
    try (injection HU as -> ->; left; reflexivity);
    rewrite render_eq in HU; injection HU as -> ->;
    right; (split; [discriminate |]);
    eexists; (split; [reflexivity |]); reflexivity.
Qed.

Lemma ProcessChar_byte_writes env c cpn w :
  exists items,
    stderr (snd (ProcessChar env c cpn w)) = stderr w ++ items /\
    byte_writes env c cpn w (fst (ProcessChar env c cpn w)) items.
Proof.
  destruct (is_terminator c) eqn:Ht.
  - rewrite (ProcessChar_terminator _ _ _ _ Ht). cbv zeta.
    match goal with
    | |- context [progress ?e ?l ?x ?w] =>
      destruct (progress_frame_written e l x w) as [E | (M & pb & Hp & E)]
    end.
    + exists []. rewrite app_nil_r. split; [exact E |].
      apply writes_nothing. left. exact Ht.
    + eexists. split; [exact E |].
      apply (writes_frame env c cpn w _ pb); [exact Ht | exact M | exact Hp].
  - destruct (HasSuffix (lineAcc cpn ++ [c]) prompt_suffix) eqn:Hp.
    + rewrite (ProcessChar_prompt _ _ _ _ Hp). cbv zeta. cbn [fst snd stderr].
      eexists. split; [reflexivity |].
      apply (writes_echo env c cpn w _ Ht Hp).
    + rewrite (ProcessChar_plain _ _ _ _ Ht Hp).
      exists []. rewrite app_nil_r. split; [reflexivity |].
      apply writes_nothing. right. exact Hp.
Qed.

(** X16.  The notifier only adds to the terminal stream, and what it adds
    is, byte by byte of its input: for a byte that completes the prompt
    suffix on the line in progress, the echo of that line; for a carriage
    return or line feed that ends a line carrying a position, nothing or
    the sequence that clears the line followed by one frame of the
    notifier's own bar as that line leaves it, at the terminal width and
    clock reading of the redraw; for every other byte, nothing.  No other
    text of the wrapped process reaches the terminal. *)
Theorem feed_writes_frames_and_echoes env bytes cpn w :
  exists items,
    stderr (snd (feed env bytes cpn w)) = stderr w ++ items /\
    notifier_writes env cpn w bytes items.
Proof.
  revert cpn w. induction bytes as [|b bytes IH]; intros cpn w.
  - exists []. rewrite app_nil_r. split; [reflexivity | constructor].
  - rewrite feed_cons.
    destruct (ProcessChar_byte_writes env b cpn w) as (i1 & E1 & N1).
    destruct (IH (fst (ProcessChar env b cpn w))
                 (snd (ProcessChar env b cpn w))) as (i2 & E2 & N2).
    exists (i1 ++ i2). rewrite E2, E1, <- app_assoc.
    split; [reflexivity |].
    apply writes_byte; assumption.
Qed.

Lemma quiet_no_position ln :
  forallb quiet ln = true -> FindStringSubmatch progressRx 3 ln = None.
Proof.
  intros H. destruct (FindStringSubmatch progressRx 3 ln) as [ms|] eqn:F;
    [| reflexivity].
  destruct (progressRx_captures _ _ F) as (_ & _ & _ & _ & _ & _ & _ & _ & I).
  rewrite forallb_forall in H. specialize (H _ I). discriminate H.
Qed.

Lemma quiet_no_prompt s :
  forallb quiet s = true -> HasSuffix s prompt_suffix = false.
Proof.
  intros H. destruct (HasSuffix s prompt_suffix) eqn:E; [| reflexivity].
  unfold HasSuffix in E. apply HasPrefix_app in E.
  assert (I : In "]"%char s).
  { apply in_rev. rewrite E. apply in_or_app. left. cbn. tauto. }
  rewrite forallb_forall in H. specialize (H _ I). discriminate H.
Qed.

Lemma ProcessChar_silent env c cpn w :
  forallb quiet (lineAcc cpn) = true -> quiet c = true ->
  snd (ProcessChar env c cpn w) = w /\
  pbar (fst (ProcessChar env c cpn w)) = pbar cpn /\
  forallb quiet (lineAcc (fst (ProcessChar env c cpn w))) = true.
Proof.
  intros Ha Hc.
  assert (Hac : forallb quiet (lineAcc cpn ++ [c]) = true)
    by (rewrite forallb_app, Ha; cbn [forallb]; rewrite Hc; reflexivity).
  destruct (is_terminator c) eqn:Ht.
  - rewrite (ProcessChar_terminator _ _ _ _ Ht). cbv zeta.
    rewrite (progress_no_match _ _ _ _ (quiet_no_position _ Ha)).
    repeat split.
  - rewrite (ProcessChar_plain _ _ _ _ Ht (quiet_no_prompt _ Hac)).
    repeat split. exact Hac.
Qed.

(** X17.  Bytes that hold neither an equals sign nor a closing bracket are
    swallowed: nothing is written, neither the clock nor the terminal is
    consulted, no goroutine is started, and the bar, if any, is left as
    it is. *)
Theorem feed_silent env bytes cpn w :
  forallb quiet (lineAcc cpn) = true -> forallb quiet bytes = true ->
  snd (feed env bytes cpn w) = w /\
  pbar (fst (feed env bytes cpn w)) = pbar cpn.
Proof.
  revert cpn w. induction bytes as [|b bytes IH]; intros cpn w Ha Hb;
    [split; reflexivity |].
  cbn [forallb] in Hb. apply andb_true_iff in Hb. destruct Hb as [Hb Hbs].
  rewrite feed_cons.
  destruct (ProcessChar_silent env b cpn w Ha Hb) as (E1 & E2 & E3).
  destruct (IH _ (snd (ProcessChar env b cpn w)) E3 Hbs) as (K1 & K2).
  rewrite K1, K2, E1, E2. split; reflexivity.
Qed.

(** The banner of ffmpeg leaves no trace on the terminal. *)
Lemma feed_silent_witness :
  let banner :=
    line (B "ffmpeg version 6.0 Copyright (c) 2000-2023 the FFmpeg developers")
    ++ line (B "  built with gcc 12 (Debian 12.2.0-14)") in
  forallb quiet (lineAcc plain_notifier) = true /\
  forallb quiet banner = true /\
  snd (feed sample_env banner plain_notifier world0) = world0.
Proof.
  cbv zeta. split; [reflexivity | split; [reflexivity |]].
  apply (feed_silent sample_env
           (line (B "ffmpeg version 6.0 Copyright (c) 2000-2023 the FFmpeg developers")
            ++ line (B "  built with gcc 12 (Debian 12.2.0-14)"))
           plain_notifier world0); reflexivity.
Defined.

(* ================================================================== *)
(** * Further properties of the supervisor *)
(* ================================================================== *)

(** ** Failures of the wrapper's own *)


(** ** The two variants *)

Lemma render_earlier env pb w :
  render env pb (earlier_world w)
  = (tt, earlier_world (snd (render env pb w))).
Proof. rewrite !render_eq. reflexivity. Qed.

Lemma Update_earlier env c pb w :
  Update env c pb (earlier_world w)
  = (fst (Update env c pb w), earlier_world (snd (Update env c pb w))).
Proof.
  rewrite !Update_eq. cbv zeta.
  change (ticks (earlier_world w)) with (ticks w).
  destruct (Sub (clock env (ticks w)) (lastUpdate pb) <? updateDelay pb);
    [reflexivity |].
  change (tick (earlier_world w)) with (earlier_world (tick w)).
  rewrite render_earlier. reflexivity.
Qed.

Lemma Finish_earlier env pb w :
  Finish env pb (earlier_world w)
  = (fst (Finish env pb w), earlier_world (snd (Finish env pb w))).
Proof. rewrite !Finish_eq. reflexivity. Qed.

Lemma progress_earlier env ln cpn w :
  progress env ln (earlier_view cpn) (earlier_world w)
  = (earlier_view (fst (progress env ln cpn w)),
     earlier_world (snd (progress env ln cpn w))).
Proof.
  unfold progress.
  change (duration (earlier_view cpn)) with (duration cpn).
  change (fps (earlier_view cpn)) with (fps cpn).
  change (pbar (earlier_view cpn)) with (pbar cpn).
  change (source (earlier_view cpn)) with (source cpn).
  change (cpn_useColors (earlier_view cpn)) with (cpn_useColors cpn).
  destruct (FindStringSubmatch progressRx 3 ln)
    as [[|m0 [|m1 [|m2 [|m3 [|? ?]]]]]|]; try reflexivity.
  destruct (0 <? fps cpn); unfold NewProgressBar, Now, bind, ret;
    destruct (pbar cpn); cbn [fst snd];
    try (set (w1 := {| stderr := stderr w; ticks := S (ticks w);
                       sizeQueries := sizeQueries w;
                       forwards := forwards w |});
         change {| stderr := stderr (earlier_world w);
                   ticks := S (ticks (earlier_world w));
                   sizeQueries := sizeQueries (earlier_world w);
                   forwards := forwards (earlier_world w) |}
           with (earlier_world w1);
         change (ticks (earlier_world w)) with (ticks w));
    rewrite Update_earlier;
    match goal with
    | |- context [Update ?e ?c ?p ?w] => destruct (Update e c p w)
    end; reflexivity.
Qed.

Lemma ProcessChar_earlier env c cpn w :
  Legacy.ProcessChar env c (earlier_view cpn) (earlier_world w)
  = (earlier_view (fst (ProcessChar env c cpn w)),
     earlier_world (snd (ProcessChar env c cpn w))).
Proof.
  destruct (is_terminator c) eqn:Ht.
  - rewrite (ProcessChar_terminator _ _ _ _ Ht),
      (Legacy_ProcessChar_terminator _ _ _ _ Ht).
    cbv zeta.
    change (lineAcc (earlier_view cpn)) with (lineAcc cpn).
    change (duration (earlier_view cpn)) with (duration cpn).
    change (source (earlier_view cpn)) with (source cpn).
    change (fps (earlier_view cpn)) with (fps cpn).
    change (lines (earlier_view cpn)) with (lines cpn).
    match goal with
    | |- _ = (earlier_view (fst (progress ?e ?l ?x ?w)), _) =>
      rewrite <- (progress_earlier e l x w)
    end.
    reflexivity.
  - change (HasSuffix (lineAcc cpn ++ [c]) prompt_suffix)
      with (HasSuffix (lineAcc (earlier_view cpn) ++ [c]) prompt_suffix).
    destruct (HasSuffix (lineAcc (earlier_view cpn) ++ [c]) prompt_suffix)
      eqn:Hp.
    + rewrite (Legacy_ProcessChar_prompt _ _ _ _ Hp).
      change (lineAcc (earlier_view cpn)) with (lineAcc cpn) in Hp.
      rewrite (ProcessChar_prompt _ _ _ _ Hp). reflexivity.
    + rewrite (Legacy_ProcessChar_plain _ _ _ _ Ht Hp).
      change (lineAcc (earlier_view cpn)) with (lineAcc cpn) in Hp.
      rewrite (ProcessChar_plain _ _ _ _ Ht Hp). reflexivity.
Qed.

Lemma feed_earlier env bytes cpn w :
  Legacy.feed env bytes (earlier_view cpn) (earlier_world w)
  = (earlier_view (fst (feed env bytes cpn w)),
     earlier_world (snd (feed env bytes cpn w))).
Proof.
  revert cpn w. induction bytes as [|b bytes IH]; intros cpn w;
    [reflexivity |].
  rewrite feed_cons. cbn [Legacy.feed]. unfold bind.
  rewrite ProcessChar_earlier, IH. reflexivity.
Qed.

(** X19.  The variant without input forwarding is the later variant
    without the buffer, the flag and the goroutines: fed the same bytes
    from the same state, it ends with the same lines, facts and bar, has
    written the same to the terminal and has read the clock and asked the
    terminal as often. *)
Theorem earlier_variant_feed env bytes cpn w :
  let r := feed env bytes cpn w in
  let r' := Legacy.feed env bytes (earlier_view cpn) (earlier_world w) in
  lines (fst r') = lines (fst r) /\
  lineAcc (fst r') = lineAcc (fst r) /\
  duration (fst r') = duration (fst r) /\
  source (fst r') = source (fst r) /\
  fps (fst r') = fps (fst r) /\
  started (fst r') = started (fst r) /\
  pbar (fst r') = pbar (fst r) /\
  stderr (snd r') = stderr (snd r) /\
  ticks (snd r') = ticks (snd r) /\
  sizeQueries (snd r') = sizeQueries (snd r).
Proof.
  cbv zeta. rewrite feed_earlier. cbn [fst snd].
  repeat split; reflexivity.
Qed.

Lemma Close_earlier env cpn w :
  snd (Close env (earlier_view cpn) (earlier_world w))
  = earlier_world (snd (Close env cpn w)).
Proof.
  unfold Close. change (pbar (earlier_view cpn)) with (pbar cpn).
  destruct (pbar cpn) as [pb|]; [| reflexivity].
  unfold bind, ret. rewrite Finish_earlier.
  destruct (Finish env pb w). reflexivity.
Qed.

(** X20.  A run ends the same way in both variants, with the same status and
    the same writes, but for the one write the later variant adds when
    the wrapped process has failed: the replay of its diagnostic
    output. *)
Theorem earlier_variant_main env run :
  stdinPipeError run = None ->
  let out := main env run in
  let out' := Legacy.main env run in
  exitStatus out' = exitStatus out /\
  killed out' = killed out /\
  ticks (world out') = ticks (world out) /\
  sizeQueries (world out') = sizeQueries (world out) /\
  exists replay,
    stderr (world out) = stderr (world out') ++ replay /\
    (replay = [] \/
     replay = [childStderr run] /\ exists code,
       waitResult run = WaitExitError code).
Proof.
  intros H2. cbv zeta. unfold main, Legacy.main. rewrite H2.
  assert (E0 : forall l : list str,
             exists replay,
               l = l ++ replay /\
               (replay = [] \/
                replay = [childStderr run] /\ exists code,
                  waitResult run = WaitExitError code))
    by (intros l; exists []; rewrite app_nil_r; auto).
  destruct (length (osArgs run) <? 2)%nat;
    [do 4 (split; [reflexivity |]); apply E0 |].
  destruct (stderrPipeError run);
    [do 4 (split; [reflexivity |]); apply E0 |].
  destruct (startError run);
    [do 4 (split; [reflexivity |]); apply E0 |].
  set (cpn0 := NewColoredProgressNotifier _ _).
  pose proof (feed_earlier env (childStderr run) cpn0 world0) as F.
  change (earlier_view cpn0) with cpn0 in F.
  change (earlier_world world0) with world0 in F.
  pose proof (feed_stderrBuffer env (childStderr run) cpn0 world0) as Hbuf.
  rewrite F.
  destruct (feed env (childStderr run) cpn0 world0) as [cpn w].
  cbn [fst snd] in *.
  destruct (selected run).
  - do 4 (split; [reflexivity |]). apply E0.
  - destruct (readEnd run).
    + destruct (waitResult run) as [|code|err].
      * cbn [exitStatus killed world]. rewrite Close_earlier.
        do 4 (split; [reflexivity |]). apply E0.
      * unfold GetStderrContent. rewrite Hbuf.
        unfold cpn0 at 1. cbn [stderrBuffer NewColoredProgressNotifier app].
        destruct (childStderr run) as [|b bs] eqn:Hc.
        -- do 4 (split; [reflexivity |]). apply E0.
        -- do 4 (split; [reflexivity |]).
           exists [b :: bs]. split; [reflexivity |].
           right. split; [reflexivity | exists code; reflexivity].
      * do 4 (split; [reflexivity |]). apply E0.
    + do 4 (split; [reflexivity |]). apply E0.
Qed.

(** A run in which ffmpeg fails: the earlier variant shows nothing of
    its complaint, the later one replays it. *)
Lemma earlier_variant_main_witness :
  let run := sample_run FromDone (WaitExitError 1) in
  stdinPipeError run = None /\
  exitStatus (Legacy.main sample_env run) = 1 /\
  stderr (world (Legacy.main sample_env run)) = [] /\
  stderr (world (main sample_env run))
  = [line (B "in.mp4: No such file or directory")] /\
  exitStatus (Legacy.main sample_env run) = exitStatus (main sample_env run).
Proof.
  cbv zeta. split; [reflexivity |].
  split; [vm_compute; reflexivity |].
  split; [vm_compute; reflexivity |].
  split; [vm_compute; reflexivity |].
  apply (earlier_variant_main sample_env
           (sample_run FromDone (WaitExitError 1)) eq_refl).
Defined.

(* ================================================================== *)
(** * Further properties of the figures shown *)
(* ================================================================== *)

(** ** The percentage of a finished bar *)

Lemma quotient_pair_self t :
  0 < t < 2 ^ 53 -> quotient_pair t t = (2 ^ 52, -52).
Proof.
  intros Ht. destruct (int_pair_normal t Ht) as (Hm & He & _).
  unfold quotient_pair. cbv zeta.
  destruct (int_pair t) as [m e]. cbn [fst snd] in *.
  assert (Q : m * 2 ^ 53 / m = 2 ^ 53) by (apply Z.div_mul_cancel_l || (rewrite Z.mul_comm; apply Z.div_mul; lia)).
  rewrite Q. change (2 ^ 53 <? 2 ^ 53) with false. cbv iota.
  unfold rounded.
  replace (m * 2 ^ 53) with (2 ^ 52 * (m * 2 ^ 1)) by ring.
  rewrite round_half_even_exact by lia.
  change (2 ^ 52 =? 2 ^ 53) with false. cbv iota.
  f_equal. lia.
Qed.

Lemma float_self_quotient t :
  0 < t < 2 ^ 53 -> (float_of_int t / float_of_int t)%float = 1%float.
Proof.
  intros Ht. apply Prim2SF_inj.
  destruct (quotient_pair_spec t t Ht Ht) as (_ & _ & E).
  rewrite E, (quotient_pair_self t Ht). reflexivity.
Qed.

(** X21.  [Finish] sets the current value to the total, so that the closing
    frame shows exactly 100.0% when a total is known.  When none is, the
    total being 0, the closing frame shows 0.0%: a run whose duration
    was never learned ends on an empty bar. *)
Theorem Finish_percentage env pb w :
  let pb' := fst (Finish env pb w) in
  current pb' = total pb /\ total pb' = total pb /\
  (0 < total pb < 2 ^ 53 ->
   percentage_of pb' = 100%float /\
   fmt_f 1 (percentage_of pb') = B "100.0") /\
  (total pb = 0 ->
   percentage_of pb' = 0%float /\ fmt_f 1 (percentage_of pb') = B "0.0").
Proof.
  cbv zeta. rewrite Finish_eq. cbn [fst].
  split; [reflexivity |]. split; [reflexivity |].
  unfold percentage_of. cbn [total current set_current]. split.
  - intros Ht. replace (total pb =? 0) with false
      by (symmetry; apply Z.eqb_neq; lia).
    rewrite (float_self_quotient _ Ht).
    split; vm_compute; reflexivity.
  - intros ->. split; vm_compute; reflexivity.
Qed.

(** ** The rate when no time has passed *)

(** X22.  The rate is the current value divided by the elapsed seconds, and
    nothing guards the division: in a frame drawn at the very instant
    the bar was made, a positive value is shown at the rate [+Inf] and the
    value 0 at the rate [NaN]. *)
Theorem rate_without_elapsed_time pb :
  Seconds 0 = 0%float /\
  (0 < current pb < 2 ^ 53 -> fmt_f 0 (rate_of pb 0) = B "+Inf") /\
  (current pb = 0 -> fmt_f 0 (rate_of pb 0) = B "NaN").
Proof.
  split; [reflexivity |].
  assert (S0 : Prim2SF (Seconds 0) = S754_zero false) by reflexivity.
  split.
  - intros Hc. unfold rate_of, fmt_f.
    rewrite div_spec, (Prim2SF_float_of_int _ Hc), S0.
    destruct (int_pair_normal _ Hc) as (Hm & _).
    destruct (int_pair (current pb)) as [m e]. cbn [fst] in Hm.
    destruct m as [|p|p]; try lia. reflexivity.
  - intros H. unfold rate_of. rewrite H. vm_compute. reflexivity.
Qed.

(** ** Addition of binary64 numbers, and the whole seconds of a duration *)

(** Rounding an integer mantissa of [53 + n] bits. *)
Lemma binary_round_wide p e n :
  0 <= n -> 2 ^ (52 + n) <= Zpos p < 2 ^ (53 + n) ->
  -1074 <= e + n -> e + n + 1 <= 971 ->
  binary_round FloatOps.prec emax false p e
  = finite_of (rounded (Zpos p) 1 e n).
Proof.
  intros Hn Hp He1 He2. unfold binary_round.
  rewrite (digits2_pos_unique p (53 + n))
    by (replace (53 + n - 1) with (52 + n) by lia; exact Hp).
  rewrite fexp_normal by lia.
  unfold shl_align.
  replace (53 + n + e - 53 - e) with n by lia.
  assert (E : match n with
              | Zneg d => (Pos.iter xO p d, 53 + n + e - 53)
              | _ => (p, e)
              end = (p, e)) by (destruct n; [reflexivity | reflexivity | lia]).
  rewrite E.
  pose proof (binary_round_aux_spec (Zpos p) 1 e n) as H.
  rewrite Z.div_1_r, Z.mod_1_r in H.
  change (new_location 1 0) with loc_Exact in H.
  apply H; lia.
Qed.

(** The sum of two positive numbers with full mantissas, the second of
    the smaller exponent. *)
Lemma SFadd_normal m1 e1 m2 e2 n :
  2 ^ 52 <= m1 < 2 ^ 53 -> 2 ^ 52 <= m2 < 2 ^ 53 -> e2 <= e1 ->
  0 <= n ->
  2 ^ (52 + n) <= m1 * 2 ^ (e1 - e2) + m2 < 2 ^ (53 + n) ->
  -1074 <= e2 + n -> e2 + n + 1 <= 971 ->
  SF64add (finite_of (m1, e1)) (finite_of (m2, e2))
  = finite_of (rounded (m1 * 2 ^ (e1 - e2) + m2) 1 e2 n).
Proof.
  intros H1 H2 He Hn HS HE1 HE2.
  destruct m1 as [|p1|p1]; try lia. destruct m2 as [|p2|p2]; try lia.
  unfold SF64add, SFadd, finite_of. cbn [fst snd]. rewrite !Pos2Z.id.
  replace (Z.min e1 e2) with e2 by lia.
  unfold shl_align. rewrite Z.sub_diag. cbn [fst cond_Zopp].
  assert (A : Zpos (fst match e2 - e1 with
                        | Zneg d => (Pos.iter xO p1 d, e2)
                        | _ => (p1, e1)
                        end) = Zpos p1 * 2 ^ (e1 - e2)).
  { destruct (e2 - e1) as [|d|d] eqn:Ed; try lia.
    - replace (e1 - e2) with 0 by lia. cbn [fst]. lia.
    - cbn [fst]. rewrite Pos_iter_xO. f_equal. f_equal. lia. }
  rewrite A.
  pose proof (pow2_pos (e1 - e2) ltac:(lia)) as Hp.
  destruct (Zpos p1 * 2 ^ (e1 - e2) + Zpos p2) as [|s|s] eqn:Es; try lia.
  unfold binary_normalize. apply binary_round_wide; lia.
Qed.

Lemma trunc_finite m e q :
  0 < m -> e < 0 -> q * 2 ^ (- e) <= m < (q + 1) * 2 ^ (- e) ->
  forall x, Prim2SF x = finite_of (m, e) -> trunc_float x = Some q.
Proof.
  intros Hm He Hq x Hx. unfold trunc_float. rewrite Hx.
  unfold finite_of. cbn [fst snd].
  replace (0 <=? e) with false by (symmetry; apply Z.leb_gt; lia).
  rewrite Z2Pos.id by lia. f_equal.
  pose proof (pow2_pos (- e) ltac:(lia)) as Hp.
  symmetry. apply Z.div_unique with (r := m - q * 2 ^ (- e)); lia.
Qed.

Lemma trunc_float_of_int c :
  0 <= c < 2 ^ 53 -> trunc_float (float_of_int c) = Some c.
Proof.
  intros Hc. destruct (Z.eq_dec c 0) as [-> | Hn]; [reflexivity |].
  assert (Hc' : 0 < c < 2 ^ 53) by lia.
  pose proof (Prim2SF_float_of_int c Hc') as Hx.
  destruct (int_pair_normal c Hc') as (Hm & He & _).
  unfold trunc_float. rewrite Hx. unfold finite_of, int_pair in *.
  cbv zeta in *. cbn [fst snd] in *.
  set (d := Z.log2 c + 1) in *.
  pose proof (pow2_pos (53 - d) ltac:(lia)) as Hp.
  rewrite Z2Pos.id by lia.
  destruct (0 <=? d - 53) eqn:E.
  - apply Z.leb_le in E. replace (d - 53) with 0 by lia.
    replace (53 - d) with 0 by lia. f_equal. lia.
  - replace (- (d - 53)) with (53 - d) by lia.
    rewrite Z.div_mul by lia. reflexivity.
Qed.

(** The largest fraction of a second a duration can hold. *)
Lemma largest_fraction :
  quotient_pair 999999999 1000000000 = (9007199245733793, -53).
Proof. vm_compute. reflexivity. Qed.

Lemma fraction_bound r :
  0 < r < 1000000000 ->
  let f := quotient_pair r 1000000000 in
  2 ^ 52 <= fst f < 2 ^ 53 /\ -106 <= snd f <= -53 /\
  (snd f = -53 -> fst f <= 2 ^ 53 - 2 ^ 22) /\
  Prim2SF (float_of_int r / float_of_int 1000000000)%float = finite_of f.
Proof.
  intros Hr f.
  destruct (quotient_pair_spec r 1000000000 ltac:(lia) ltac:(lia))
    as (Hm & He & Hx).
  fold f in Hm, He, Hx.
  pose proof (quotient_pair_mono r 999999999 1000000000
                ltac:(lia) ltac:(lia) ltac:(lia)) as Hle.
  fold f in Hle. rewrite largest_fraction in Hle.
  unfold lex_le in Hle. cbn [fst snd] in Hle.
  split; [exact Hm |]. split; [lia |]. split; [| exact Hx].
  intros E. lia.
Qed.

(** The whole seconds of a duration of less than 2^22 seconds (48 days):
    the sum of the seconds and of the fraction never reaches the next
    second. *)
Lemma Seconds_trunc d :
  0 <= d < 2 ^ 22 * Second ->
  trunc_float (Seconds d) = Some (d / Second).
Proof.
  intros Hd. unfold Seconds.
  rewrite Z.quot_div_nonneg, Z.rem_mod_nonneg by (unfold Second in *; lia).
  set (q := d / Second). set (r := d mod Second).
  assert (Hq : 0 <= q < 2 ^ 22).
  { unfold q. split; [apply Z.div_pos; unfold Second; lia |].
    apply Z.div_lt_upper_bound; unfold Second in *; lia. }
  assert (Hr : 0 <= r < 1000000000)
    by (unfold r; apply Z.mod_pos_bound; reflexivity).
  change (float_of_int 1000000000) with (float_of_int 1000000000).
  destruct (Z.eq_dec r 0) as [Hr0 | Hr0].
  - (* no fraction *)
    rewrite Hr0.
    assert (Z0 : Prim2SF (float_of_int 0 / float_of_int 1000000000)%float
                 = S754_zero false) by reflexivity.
    destruct (Z.eq_dec q 0) as [-> | Hq0]; [reflexivity |].
    assert (Hq' : 0 < q < 2 ^ 53) by lia.
    assert (E : (float_of_int q
                 + float_of_int 0 / float_of_int 1000000000)%float
                = float_of_int q).
    { apply Prim2SF_inj.
      rewrite add_spec, Z0, (Prim2SF_float_of_int q Hq').
      destruct (int_pair_normal q Hq') as (Hm & _).
      destruct (int_pair q) as [m e]. cbn [fst] in Hm.
      destruct m as [|p|p]; try lia. reflexivity. }
    rewrite E. apply trunc_float_of_int. lia.
  - (* a fraction *)
    destruct (fraction_bound r ltac:(lia)) as (Hmf & Hef & Htop & Hf).
    cbv zeta in Hmf, Hef, Htop, Hf.
    destruct (quotient_pair r 1000000000) as [mf ef] eqn:Ef.
    cbn [fst snd] in Hmf, Hef, Htop.
    destruct (Z.eq_dec q 0) as [-> | Hq0].
    + (* less than a second *)
      apply (trunc_finite mf ef 0); [lia | lia | |].
      * pose proof (Z.pow_le_mono_r 2 53 (- ef) ltac:(lia) ltac:(lia)). lia.
      * rewrite add_spec, Hf. unfold finite_of. cbn [fst snd].
        destruct mf as [|p|p]; try lia. reflexivity.
    + assert (Hq' : 0 < q < 2 ^ 53) by lia.
      destruct (int_pair_normal q Hq') as (Hmq & Heq & _).
      pose proof (Prim2SF_float_of_int q Hq') as Hxq.
      unfold int_pair in Hmq, Heq, Hxq. cbv zeta in Hmq, Heq, Hxq.
      cbn [fst snd] in Hmq, Heq.
      set (dq := Z.log2 q + 1) in *.
      assert (Hdq : 1 <= dq <= 22).
      { unfold dq. pose proof (Z.log2_nonneg q).
        assert (Z.log2 q < 22) by (apply Z.log2_lt_pow2; lia). lia. }
      assert (Hq1 : q + 1 <= 2 ^ dq).
      { pose proof (Z.log2_spec q ltac:(lia)) as [_ Hs].
        unfold dq. replace (Z.log2 q + 1) with (Z.succ (Z.log2 q)) by lia.
        lia. }
      set (eq := dq - 53) in *. set (mq := q * 2 ^ (53 - dq)) in *.
      set (n := eq - ef).
      assert (Hn : 1 <= n) by (unfold n, eq; lia).
      pose proof (pow2_pos n ltac:(lia)) as Hpn.
      pose proof (pow2_pos (53 - dq) ltac:(lia)) as Hpq.
      assert (Hunit : 2 ^ (53 - dq) * 2 ^ n = 2 ^ (- ef)).
      { rewrite <- Z.pow_add_r by lia. f_equal. unfold n, eq. lia. }
      assert (Htop53 : (q + 1) * 2 ^ (53 - dq) <= 2 ^ 53).
      { replace (2 ^ 53) with (2 ^ dq * 2 ^ (53 - dq))
          by (rewrite <- Z.pow_add_r by lia; f_equal; lia).
        apply Z.mul_le_mono_nonneg_r; lia. }
      (* the fraction stays one unit of the seconds below a second *)
      assert (Hfrac : mf <= (2 ^ (53 - dq) - 1) * 2 ^ n).
      { destruct (Z.eq_dec ef (-53)) as [E53 | N53].
        - specialize (Htop E53).
          assert (Hn' : n = dq) by (unfold n, eq; lia).
          assert (H22 : 2 ^ dq <= 2 ^ 22)
            by (apply Z.pow_le_mono_r; lia).
          assert (H53 : 2 ^ (53 - dq) * 2 ^ dq = 2 ^ 53)
            by (rewrite <- Z.pow_add_r by lia; f_equal; lia).
          rewrite Hn'. lia.
        - assert (H54 : 2 ^ 54 <= 2 ^ (- ef))
            by (apply Z.pow_le_mono_r; lia).
          assert (Hhalf : 2 * 2 ^ n <= 2 ^ (53 - dq) * 2 ^ n).
          { apply Z.mul_le_mono_nonneg_r; [lia |].
            change 2 with (2 ^ 1) at 1. apply Z.pow_le_mono_r; lia. }
          change (2 ^ 54) with (2 * 2 ^ 53) in H54. nia. }
      assert (HS : 2 ^ (52 + n) <= mq * 2 ^ (eq - ef) + mf < 2 ^ (53 + n)).
      { fold n. rewrite !Z.pow_add_r by lia. unfold mq in *. nia. }
      pose proof (SFadd_normal mq eq mf ef n Hmq Hmf ltac:(unfold eq; lia)
                    ltac:(lia) HS ltac:(unfold n, eq; lia)
                    ltac:(unfold n, eq; lia)) as Hadd.
      fold n in Hadd. unfold rounded in Hadd.
      assert (Hround : mq <= round_half_even (mq * 2 ^ n + mf) (1 * 2 ^ n)
                       <= mq + 2 ^ (53 - dq) - 1).
      { apply round_half_even_range; [lia |]. unfold mq in *. nia. }
      set (m' := round_half_even (mq * 2 ^ n + mf) (1 * 2 ^ n)) in *.
      assert (Hm53 : m' < 2 ^ 53) by (unfold mq in *; lia).
      replace (m' =? 2 ^ 53) with false in Hadd
        by (symmetry; apply Z.eqb_neq; lia).
      replace (ef + n) with eq in Hadd by (unfold n; lia).
      apply (trunc_finite m' eq q); [lia | unfold eq; lia | |].
      * replace (- eq) with (53 - dq) by (unfold eq; lia).
        unfold mq in *. lia.
      * rewrite add_spec, Hxq, Hf. exact Hadd.
Qed.

(** ** Exact products and quotients, and the filled part of the bar *)

Lemma int_pair_unique m e c :
  0 < c < 2 ^ 53 -> 2 ^ 52 <= m < 2 ^ 53 -> e <= 0 -> m = c * 2 ^ (- e) ->
  (m, e) = int_pair c.
Proof.
  intros Hc Hm He E. unfold int_pair. cbv zeta.
  pose proof (Z.log2_spec c ltac:(lia)) as [Hl Hh].
  pose proof (Z.log2_nonneg c) as Hn.
  set (d := Z.log2 c + 1).
  replace (Z.succ (Z.log2 c)) with d in Hh by (unfold d; lia).
  replace (Z.log2 c) with (d - 1) in Hl by (unfold d; lia).
  pose proof (pow2_pos (- e) ltac:(lia)) as Hp.
  assert (H1 : d - 1 - e < 53).
  { apply (Z.pow_lt_mono_r_iff 2); [lia | lia |].
    replace (d - 1 - e) with (d - 1 + - e) by lia.
    rewrite Z.pow_add_r by (unfold d; lia). nia. }
  assert (H2 : 52 < d - e).
  { apply (Z.pow_lt_mono_r_iff 2); [lia | unfold d; lia |].
    replace (d - e) with (d + - e) by lia.
    rewrite Z.pow_add_r by (unfold d; lia). nia. }
  assert (Hd : - e = 53 - d) by lia.
  rewrite E, Hd. f_equal. lia.
Qed.

Lemma float_of_int_100 : float_of_int 100 = 100%float.
Proof. reflexivity. Qed.

Lemma times_100_exact s :
  0 < s < 2 ^ 46 ->
  (float_of_int s * 100)%float = float_of_int (100 * s).
Proof.
  intros Hs. apply Prim2SF_inj.
  assert (Hs' : 0 < s < 2 ^ 53) by lia.
  assert (Hc : 0 < 100 * s < 2 ^ 53) by lia.
  destruct (int_pair_normal s Hs') as (Hm & He & _).
  destruct (times_100_pair_spec (int_pair s) (float_of_int s) Hm
              ltac:(lia) (Prim2SF_float_of_int s Hs')) as [_ Hx].
  rewrite Hx, (Prim2SF_float_of_int _ Hc). f_equal.
  unfold times_100_pair. cbv zeta.
  unfold int_pair in Hm, He |- * at 1 2 3. cbv zeta in Hm, He |- *.
  cbn [fst snd] in Hm, He |- *.
  set (d := Z.log2 s + 1) in *.
  assert (Hd : 1 <= d <= 46).
  { unfold d. pose proof (Z.log2_nonneg s).
    assert (Z.log2 s < 46) by (apply Z.log2_lt_pow2; lia). lia. }
  set (N := s * 2 ^ (53 - d) * (100 * 2 ^ 46)).
  set (n := if N <? 2 ^ 105 then 52 else 53).
  assert (Hn : 52 <= n <= 53) by (unfold n; destruct (N <? 2 ^ 105); lia).
  assert (HN : 2 ^ (52 + n) <= N < 2 ^ (53 + n)).
  { assert (HN' : 2 ^ 104 <= N < 2 ^ 106).
    { unfold N. change (2 ^ 104) with (2 ^ 52 * 2 ^ 52).
      change (2 ^ 106) with (2 ^ 53 * 2 ^ 53). nia. }
    unfold n. destruct (N <? 2 ^ 105) eqn:C;
      [apply Z.ltb_lt in C | apply Z.ltb_ge in C]; simpl; lia. }
  pose proof (pow2_pos n ltac:(lia)) as Hpn.
  set (K := 100 * s * 2 ^ (99 - d - n)).
  assert (HK : N = K * (1 * 2 ^ n)).
  { unfold N, K. rewrite Z.mul_1_l.
    replace (100 * s * 2 ^ (99 - d - n) * 2 ^ n)
      with (100 * s * (2 ^ (99 - d - n) * 2 ^ n)) by ring.
    rewrite <- Z.pow_add_r by lia.
    replace (99 - d - n + n) with (53 - d + 46) by lia.
    rewrite Z.pow_add_r by lia. ring. }
  unfold rounded. rewrite HK, round_half_even_exact by lia.
  assert (HKr : 2 ^ 52 <= K < 2 ^ 53).
  { rewrite HK, Z.mul_1_l, !Z.pow_add_r in HN by lia. nia. }
  replace (K =? 2 ^ 53) with false by (symmetry; apply Z.eqb_neq; lia).
  apply int_pair_unique; [lia | exact HKr | lia |].
  unfold K. f_equal. f_equal. lia.
Qed.

Lemma div_100_exact s :
  0 < s < 2 ^ 46 ->
  (float_of_int (100 * s) / 100)%float = float_of_int s.
Proof.
  intros Hs. apply Prim2SF_inj. rewrite <- float_of_int_100.
  assert (Hs' : 0 < s < 2 ^ 53) by lia.
  assert (Hc : 0 < 100 * s < 2 ^ 53) by lia.
  destruct (quotient_pair_spec (100 * s) 100 Hc ltac:(lia)) as (Hm & He & Hx).
  cbv zeta in Hm, He, Hx.
  rewrite Hx, (Prim2SF_float_of_int _ Hs'). f_equal.
  destruct (int_pair_normal _ Hc) as (Hmc & Hec & _).
  revert Hm He. unfold quotient_pair. cbv zeta.
  change (int_pair 100) with (100 * 2 ^ 46, -46).
  assert (EP : int_pair (100 * s) =
               (100 * s * 2 ^ (53 - (Z.log2 (100 * s) + 1)),
                Z.log2 (100 * s) + 1 - 53)) by reflexivity.
  rewrite EP in Hmc, Hec |- *. clear EP. cbn [fst snd] in Hmc, Hec |- *.
  set (d := Z.log2 (100 * s) + 1) in *.
  assert (Hd : 1 <= d <= 53) by lia.
  pose proof (pow2_pos (53 - d) ltac:(lia)) as Hpd.
  set (N := 100 * s * 2 ^ (53 - d) * 2 ^ 53).
  set (D := 100 * 2 ^ 46).
  set (Q := s * 2 ^ (60 - d)).
  assert (HQ : N = Q * D).
  { unfold N, Q, D.
    replace (60 - d) with (53 - d + 7) by lia.
    rewrite Z.pow_add_r by lia. change (2 ^ 53) with (2 ^ 7 * 2 ^ 46). ring. }
  assert (HND : N / D = Q) by (rewrite HQ; apply Z.div_mul; unfold D; lia).
  rewrite HND.
  set (n := if Q <? 2 ^ 53 then 0 else 1).
  assert (Hn : 0 <= n <= 1) by (unfold n; destruct (Q <? 2 ^ 53); lia).
  pose proof (pow2_pos n ltac:(lia)) as Hpn.
  set (K := s * 2 ^ (60 - d - n)).
  assert (HK : N = K * (D * 2 ^ n)).
  { rewrite HQ. unfold Q, K.
    replace (60 - d) with (60 - d - n + n) at 1 by lia.
    rewrite Z.pow_add_r by lia. ring. }
  unfold rounded. rewrite HK, round_half_even_exact by (unfold D; lia).
  intros Hm He.
  destruct (K =? 2 ^ 53) eqn:EK; cbn [fst snd] in Hm, He.
  - apply Z.eqb_eq in EK. exfalso.
    (* K = 2^53 would make the quotient 2^53 * 2^n *)
    assert (HQK : Q = K * 2 ^ n).
    { unfold Q, K. replace (60 - d) with (60 - d - n + n) at 1 by lia.
      rewrite Z.pow_add_r by lia. ring. }
    assert (Hb : 2 ^ 52 * 2 ^ n <= Q < 2 ^ 53 * 2 ^ n).
    { unfold n. destruct (Q <? 2 ^ 53) eqn:C;
        [apply Z.ltb_lt in C | apply Z.ltb_ge in C];
        change (2 ^ 0) with 1; change (2 ^ 1) with 2.
      - split; [| lia]. unfold Q.
        assert (2 ^ 7 <= 2 ^ (60 - d)) by (apply Z.pow_le_mono_r; lia).
        replace (60 - d) with (53 - d + 7) by lia.
        rewrite Z.pow_add_r by lia. change (2 ^ 7) with 128 in *. nia.
      - split; [lia |]. unfold Q.
        replace (60 - d) with (53 - d + 7) by lia.
        rewrite Z.pow_add_r by lia. change (2 ^ 7) with 128 in *. nia. }
    nia.
  - apply int_pair_unique; [lia | exact Hm | lia |].
    unfold K. f_equal. f_equal. lia.
Qed.

(** ** The remaining time as minutes and seconds *)

(** X23.  [formatDurationSimple] shows a duration as the minutes and seconds
    of its whole seconds: below 2^22 seconds (48 days) the conversion
    through floating-point seconds never rounds up to the next second.
    The minutes are not reduced to hours, so that they take more than two
    digits from 100 minutes on, and a negative duration is shown as
    00:00. *)
Theorem formatDurationSimple_minutes_seconds env d :
  (d < 0 -> formatDurationSimple env d = B "00:00") /\
  (0 <= d < 2 ^ 22 * Second ->
   formatDurationSimple env d
   = fmt_02d (d / Second / 60) ++ B ":" ++ fmt_02d (d / Second mod 60)) /\
  formatDurationSimple env (59 * Second + 999999999) = B "00:59" /\
  formatDurationSimple env (7200 * Second) = B "120:00".
Proof.
  assert (G : forall d, 0 <= d < 2 ^ 22 * Second ->
     formatDurationSimple env d
     = fmt_02d (d / Second / 60) ++ B ":" ++ fmt_02d (d / Second mod 60)).
  { clear d. intros d Hd. unfold formatDurationSimple.
    replace (d <? 0) with false by (symmetry; apply Z.ltb_ge; lia).
    cbv zeta. unfold int_of_float. rewrite (Seconds_trunc d Hd).
    assert (Hq : 0 <= d / Second < 2 ^ 22).
    { unfold Second in *.
      split; [apply Z.div_pos; lia |].
      apply Z.div_lt_upper_bound; lia. }
    replace (in_int64 (d / Second)) with true
      by (symmetry; unfold in_int64; apply andb_true_iff; split;
          [apply Z.leb_le | apply Z.ltb_lt]; lia).
    rewrite Z.quot_div_nonneg, Z.rem_mod_nonneg by lia. reflexivity. }
  split.
  - intros Hd. unfold formatDurationSimple.
    replace (d <? 0) with true by (symmetry; apply Z.ltb_lt; lia).
    reflexivity.
  - split; [exact (G d) |].
    split; rewrite G by (vm_compute; split; [discriminate | reflexivity]);
      reflexivity.
Qed.

(** ** The bar at both ends of a run *)

Lemma float_zero_quotient t :
  0 < t < 2 ^ 53 -> (float_of_int 0 / float_of_int t * 100)%float = 0%float.
Proof.
  intros Ht. apply Prim2SF_inj.
  rewrite mul_spec, div_spec, (Prim2SF_float_of_int _ Ht).
  destruct (int_pair_normal _ Ht) as (Hm & _).
  destruct (int_pair t) as [m e]. cbn [fst] in Hm.
  destruct m as [|p|p]; try lia. reflexivity.
Qed.

Lemma filled_at_100 env s :
  0 < s < 2 ^ 46 ->
  int_of_float (convInvalid env) (float_of_int s * 100 / 100)%float = s.
Proof.
  intros Hs. rewrite (times_100_exact s Hs), (div_100_exact s Hs).
  unfold int_of_float. rewrite trunc_float_of_int by lia.
  replace (in_int64 s) with true
    by (symmetry; unfold in_int64; apply andb_true_iff; split;
        [apply Z.leb_le | apply Z.ltb_lt]; lia).
  reflexivity.
Qed.

Lemma filled_at_0 env s :
  0 < s < 2 ^ 53 ->
  int_of_float (convInvalid env) (float_of_int s * 0 / 100)%float = 0.
Proof.
  intros Hs.
  assert (E : (float_of_int s * 0 / 100)%float = 0%float).
  { apply Prim2SF_inj.
    rewrite div_spec, mul_spec, (Prim2SF_float_of_int _ Hs).
    destruct (int_pair_normal _ Hs) as (Hm & _).
    destruct (int_pair s) as [m e]. cbn [fst] in Hm.
    destruct m as [|p|p]; try lia. reflexivity. }
  rewrite E. reflexivity.
Qed.

(** X24.  At both ends of a run the bar is exact, the rounding of the
    percentage notwithstanding: when the current value equals the total
    every cell of the bar is filled and no edge glyph is drawn, and when
    it is zero the edge glyph stands on the first cell, all the others
    being empty. *)
Theorem bar_at_both_ends env pb termWidth elapsed :
  let leftSide := handleFilename (desc pb) in
  let rightInfo := rightInfo_of env pb elapsed in
  let space := spaceForBar_of termWidth leftSide rightInfo in
  let paint glyph :=
    match useColors pb, colors pb with
    | true, Some c => Green c ++ glyph ++ Reset c
    | _, _ => glyph
    end in
  space < 2 ^ 46 -> 0 < total pb < 2 ^ 53 ->
  (current pb = total pb ->
   output_of env pb termWidth elapsed
   = leftSide ++ B " " ++ cells space (paint heavy_bar) ++ rightInfo) /\
  (current pb = 0 ->
   output_of env pb termWidth elapsed
   = leftSide ++ B " "
       ++ (paint half_bar ++ cells (space - 1) heavy_bar) ++ rightInfo).
Proof.
  intros leftSide rightInfo space paint Hs Ht.
  pose proof (spaceForBar_of_ge_5 termWidth leftSide rightInfo) as H5.
  fold space in H5.
  assert (Hz : (total pb =? 0) = false) by (apply Z.eqb_neq; lia).
  assert (Hp : (space <=? 0) = false) by (apply Z.leb_gt; lia).
  split; intros Hc; unfold output_of; cbv zeta;
    fold leftSide; fold rightInfo; fold space;
    unfold percentage_of; rewrite Hz, Hc.
  - rewrite (float_self_quotient _ Ht).
    change (1 * 100)%float with 100%float.
    rewrite filled_at_100 by lia.
    unfold paint, buildRichBar, buildSimpleBar. rewrite Hp.
    destruct (useColors pb); [destruct (colors pb) |];
      rewrite bar_cells_full by lia; reflexivity.
  - rewrite (float_zero_quotient _ Ht), filled_at_0 by lia.
    unfold paint, buildRichBar, buildSimpleBar. rewrite Hp.
    destruct (useColors pb); [destruct (colors pb) |];
      rewrite bar_cells_edge by lia;
      replace (space - 0 - 1) with (space - 1) by lia; reflexivity.
Qed.

(** The bar of the frame-unit scenario on a terminal of 60 columns, at
    its last frame. *)
Lemma bar_at_both_ends_witness :
  let pb := set_current 2610
              (fst (NewProgressBar sample_env (B "clip.mp4") 2610 (B "frames")
                                   false world0)) in
  let rightInfo := rightInfo_of sample_env pb 100000000 in
  let space := spaceForBar_of 60 (handleFilename (desc pb)) rightInfo in
  space < 2 ^ 46 /\ 0 < total pb < 2 ^ 53 /\ current pb = total pb /\
  output_of sample_env pb 60 100000000
  = handleFilename (desc pb) ++ B " " ++ cells space heavy_bar ++ rightInfo.
Proof.
  cbv zeta.
  split; [vm_compute; reflexivity |].
  split; [simpl; lia |]. split; [reflexivity |].
  destruct (bar_at_both_ends sample_env
              (set_current 2610
                 (fst (NewProgressBar sample_env (B "clip.mp4") 2610
                                      (B "frames") false world0)))
              60 100000000) as [H _].
  - vm_compute; reflexivity.
  - simpl; lia.
  - apply H. reflexivity.
Defined.
